(** * The pChop master / worker message protocol (src/main.cpp)

    A shallow embedding of the MPI coordination code of [main.cpp]:
    the [worker] receive loop, the [master] seeding, prefix-dispatch
    and event loops, and the degenerate [phase1Depth == 0] path.

    Modelling conventions.
    - A message is a [packet]: source rank, destination rank, tag and
      the bytes carried.  [MPI_Send] appends a packet to the sender's
      outbox; the arrivals of a process are given as a list, oldest
      first.  In the master a receive consumes the message it
      matches whatever its length.  In the worker the counts that the
      receives of lines 2072 and 2105 are given are checked as the MPI
      library checks them: a failed receive ends the job, the error
      handler being left at [MPI_ERRORS_ARE_FATAL].
    - The symbolic interpreter ([Interpreter], [runFunctionAsMain2]) is
      not part of [main.cpp]; what it emits and consumes during
      [executeWorker] is a parameter of the worker model, and the list
      of prefixes phase 1 returns is a parameter of the master model.
    - [assert] is modelled as compiled in: a failed assertion stops the
      process.  Output on [std::cout] is not modelled in the
      protocol; the master log file is.
    - The helpers of the driver (text and option parsing, file names,
      the output directory, test cases, interrupts) work on strings as
      lists of characters.  What lies outside [main.cpp] is a
      parameter there too: the functions of the module, the paths that
      exist, the files that can be opened and the answers of the
      interpreter.  Library calls ([std::getline], [strtol], [substr],
      [mkdir], [isspace] in the "C" locale) follow their standard
      behaviour, with [errno] and the stream state bits passed
      along. *)

From Stdlib Require Import String NArith ZArith List Bool Lia Permutation.
From Stdlib Require Import Strings.Byte Ascii.
From Stdlib Require DecimalString DecimalN DecimalFacts.
From Equations Require Import Equations.
Import ListNotations.
Open Scope Z_scope.

(** ** Message tags (the [#define]s at the top of main.cpp) *)

Definition START_PREFIX_TASK : Z := 0.
Definition KILL : Z := 1.
Definition FINISH : Z := 2.
Definition OFFLOAD : Z := 3.
Definition OFFLOAD_RESP : Z := 4.
Definition BUG_FOUND : Z := 5.
Definition TIMEOUT : Z := 6.
Definition NORMAL_TASK : Z := 7.
Definition KILL_COMP : Z := 8.
Definition READY_TO_OFFLOAD : Z := 9.
Definition NOT_READY_TO_OFFLOAD : Z := 10.

Definition PREFIX_MODE : Z := 101.
Definition RANGE_MODE : Z := 102.
Definition NO_MODE : Z := 103.

Definition MASTER_NODE : Z := 0.

(** ** Messages *)

Record packet : Type := mkPacket {
  MPI_SOURCE : Z;
  dest : Z;
  MPI_TAG : Z;
  buffer : list byte
}.

(** [MPI_Get_count(&status, MPI_CHAR, &count)] *)
Definition count (p : packet) : Z := Z.of_nat (List.length (buffer p)).

(** The one-character buffers [dummy], [dummychar], [dummyBuff], [result]
    are sent uninitialised; no receiver reads them.  One fixed byte stands
    for their content. *)
Definition dummy : list byte := [x00].

Definition has_tag (t : Z) (p : packet) : bool := MPI_TAG p =? t.

(** Destinations of the packets of an outbox that carry tag [t]. *)
Definition dests_with_tag (t : Z) (out : list packet) : list Z :=
  map dest (filter (has_tag t) out).

(** ** The worker (ranks 2 .. N-1) *)

Module Worker.

(** What one call of the interpreter does on the wire: the packets it
    sends to the master, how many further messages of the worker's
    inbox it receives while running, and whether the call returns. *)
Record run : Type := mkRun {
  emitted : list packet;
  consumed : nat;
  returns : bool
}.

Inductive status : Type :=
| Returned        (* [return] out of [worker] *)
| Probing         (* blocked in [MPI_Probe]: no further message *)
| Spinning        (* a probed tag no branch receives: probed again forever *)
| Executing       (* inside an [executeWorker] call that never returns *)
| Aborted         (* an [MPI_Recv] failed: the job is aborted *)
| Overrun.        (* [MPI_Recv] stored more than the one [int] of [buffer] *)

(** An [unsigned int] option passed where an [int] is taken. *)
Definition to_int (z : Z) : Z := (z + 2 ^ 31) mod 2 ^ 32 - 2 ^ 31.

(** [MPI_UNDEFINED], as MPICH and Open MPI define it. *)
Definition MPI_UNDEFINED : Z := -32766.

(** [MPI_Get_count(&status, MPI_INT, &count)], an [int] taking four
    bytes: the number of ints of the message, and [MPI_UNDEFINED] for a
    message that is not a whole number of ints. *)
Definition count_int (p : packet) : Z :=
  if count p mod 4 =? 0 then count p / 4 else MPI_UNDEFINED.

(** Whether [MPI_Recv(buf, n, type, ...)] fails on a message of [size]
    elements of that type: the count is negative, or the message is
    longer than the count.  [main.cpp] leaves the error handler of
    [MPI_COMM_WORLD] at [MPI_ERRORS_ARE_FATAL], so a failed call ends
    the job. *)
Definition recv_fails (n size : Z) : bool := (n <? 0) || (n <? size).

Section WithInterpreter.

Variable world_rank : Z.
Variable phase1Depth : Z.
Variable phase2Depth : Z.
Variable searchPolicy : string.

(** [executeWorker(argc, argv, envp, workList, prefix, count,
    explorationDepth, mode, searchMode)] seen from the wire; the last
    argument is the rest of the worker's inbox. *)
Variable executeWorker :
  list byte -> Z -> Z -> Z -> string -> list packet -> run.

Definition getNewSearch : string :=
  if String.eqb searchPolicy "BFS" then "BFS"
  else if String.eqb searchPolicy "DFS" then "DFS"
  else if String.eqb searchPolicy "RAND" then "RAND"
  else if String.eqb searchPolicy "COVNEW" then "COVNEW"
  else "DFS".

(** [MPI_Send(buf, n, MPI_CHAR, 0, tag, MPI_COMM_WORLD)] *)
Definition send (buf : list byte) (tag : Z) : packet :=
  mkPacket world_rank MASTER_NODE tag buf.

(** The [while(true)] loop of [worker]; [inbox] holds the messages from
    rank 0 that the top-level [MPI_Probe] and the interpreter will see. *)
Equations? worker (inbox : list packet) : list packet * status
  by wf (List.length inbox) lt :=
  worker [] := ([], Probing);
  worker (st :: rest) :=
    if MPI_TAG st =? KILL then
      (* MPI_Recv(&recv_prefix[0], phase1Depth, MPI_CHAR, 0, MPI_ANY_TAG, ..) *)
      if recv_fails (to_int phase1Depth) (count st) then ([], Aborted)
      else ([], Returned)
    else if MPI_TAG st =? START_PREFIX_TASK then
      let r := executeWorker (buffer st) (count st) (to_int phase2Depth)
                             PREFIX_MODE getNewSearch rest in
      if returns r
      then (emitted r ++ [send dummy KILL_COMP], Returned)
      else (emitted r, Executing)
    else if MPI_TAG st =? NORMAL_TASK then
      let r := executeWorker (buffer st) (count st) (to_int phase2Depth)
                             NO_MODE getNewSearch rest in
      if returns r
      then let (out, s) := worker (skipn (consumed r) rest) in
           (emitted r ++ send dummy FINISH :: out, s)
      else (emitted r, Executing)
    else if MPI_TAG st =? OFFLOAD then
      (* MPI_Get_count(&status, MPI_INT, &count);
         MPI_Recv(&buffer, count, MPI_INT, MASTER_NODE, OFFLOAD, ..) *)
      let ints := count st / 4 in
      let count := count_int st in
      if recv_fails count ints then ([], Aborted)
      else if 1 <? count then ([], Overrun)
      else
        let packet2send := ["x"%byte] in
        let (out, s) := worker rest in
        (send packet2send OFFLOAD_RESP :: out, s)
    else
      ([], Spinning).
Proof.
  all: simpl; try rewrite length_skipn; lia.
Qed.

End WithInterpreter.

End Worker.

(** ** The timeout sentinel (rank 1) *)

(** [timeOutCheck]: the sentinel sleeps [timeOut] seconds, a day when
    [timeOut] is 0, and then sends one TIMEOUT message to rank 0. *)
Definition sleep_seconds (timeOut : Z) : Z :=
  if negb (timeOut =? 0) then timeOut else 86400.

Definition timeOutCheck : list packet := [mkPacket 1 0 TIMEOUT dummy].

(** ** The master (rank 0) *)

Module Master.

(** One line written to [masterLog]: the literal text and the numbers
    streamed after it. *)
Record log_entry : Type := mkLog {
  text : string;
  args : list Z
}.

Record master_state : Type := mkState {
  cnt : Z;
  freeList : list Z;
  busyList : list Z;
  offloadActiveList : list Z;
  offloadReadyList : list Z;
  offloadActive : bool;
  outbox : list packet;          (* every [MPI_Send], oldest first *)
  masterLog : list log_entry;    (* lines written, oldest first *)
  logOpen : bool                 (* false after [masterLog.close()] *)
}.

Definition set_cnt (v : Z) (s : master_state) : master_state :=
  mkState v (freeList s) (busyList s) (offloadActiveList s)
          (offloadReadyList s) (offloadActive s) (outbox s) (masterLog s)
          (logOpen s).

Definition set_freeList (v : list Z) (s : master_state) : master_state :=
  mkState (cnt s) v (busyList s) (offloadActiveList s)
          (offloadReadyList s) (offloadActive s) (outbox s) (masterLog s)
          (logOpen s).

Definition set_busyList (v : list Z) (s : master_state) : master_state :=
  mkState (cnt s) (freeList s) v (offloadActiveList s)
          (offloadReadyList s) (offloadActive s) (outbox s) (masterLog s)
          (logOpen s).

Definition set_offloadActiveList (v : list Z) (s : master_state)
  : master_state :=
  mkState (cnt s) (freeList s) (busyList s) v
          (offloadReadyList s) (offloadActive s) (outbox s) (masterLog s)
          (logOpen s).

Definition set_offloadReadyList (v : list Z) (s : master_state)
  : master_state :=
  mkState (cnt s) (freeList s) (busyList s) (offloadActiveList s)
          v (offloadActive s) (outbox s) (masterLog s) (logOpen s).

Definition set_offloadActive (v : bool) (s : master_state) : master_state :=
  mkState (cnt s) (freeList s) (busyList s) (offloadActiveList s)
          (offloadReadyList s) v (outbox s) (masterLog s) (logOpen s).

(** [MPI_Send(buf, n, MPI_CHAR, to, tag, MPI_COMM_WORLD)] *)
Definition MPI_Send (buf : list byte) (to tag : Z) (s : master_state)
  : master_state :=
  mkState (cnt s) (freeList s) (busyList s) (offloadActiveList s)
          (offloadReadyList s) (offloadActive s)
          (outbox s ++ [mkPacket MASTER_NODE to tag buf])
          (masterLog s) (logOpen s).

(** [masterLog << txt << a ...]; a closed stream drops the line. *)
Definition write_log (txt : string) (a : list Z) (s : master_state)
  : master_state :=
  if logOpen s then
    mkState (cnt s) (freeList s) (busyList s) (offloadActiveList s)
            (offloadReadyList s) (offloadActive s) (outbox s)
            (masterLog s ++ [mkLog txt a]) (logOpen s)
  else s.

(** [masterLog.close()] *)
Definition close_log (s : master_state) : master_state :=
  mkState (cnt s) (freeList s) (busyList s) (offloadActiveList s)
          (offloadReadyList s) (offloadActive s) (outbox s) (masterLog s)
          false.

(** The search-and-erase loops over a deque:
    [for (it = l.begin(); it != l.end(); ++it)
       if (l[it] == x) { l.erase(it); break; }] *)
Fixpoint erase_first (x : Z) (l : list Z) : list Z :=
  match l with
  | [] => []
  | y :: l' => if y =? x then l' else y :: erase_first x l'
  end.

(** Whether such a loop meets [x] ([ffound], [found2Erase],
    [offloadAlreadySent]). *)
Definition found (x : Z) (l : list Z) : bool := existsb (fun y => y =? x) l.

(** Conversions of the comparisons that mix [int] and [size_t]. *)
Definition size_t (z : Z) : Z := z mod 2 ^ 64.
Definition to_int (z : Z) : Z := (z + 2 ^ 31) mod 2 ^ 32 - 2 ^ 31.

Definition size (l : list Z) : Z := Z.of_nat (List.length l).

Inductive outcome : Type :=
| Continue (s : master_state)       (* the enclosing loop goes on *)
| Aborted (s : master_state)        (* [MPI_Abort(MPI_COMM_WORLD, -1)] *)
| AssertFailed (cond : string) (s : master_state)
| AwaitingKillComp (x : Z) (s : master_state)
                                    (* blocked in [MPI_Recv(.., x, KILL_COMP, ..)] *)
| Pending (s : master_state)        (* no further arrival; still in the loop *)
| Returned (s : master_state).      (* control leaves [master] *)

Definition state_of (o : outcome) : master_state :=
  match o with
  | Continue s | Aborted s | AssertFailed _ s | AwaitingKillComp _ s
  | Pending s | Returned s => s
  end.

(** Arrivals at the master: [Some p] is a message, [None] an instant at
    which [MPI_Iprobe] finds nothing ([flag == 0]); a blocking
    [MPI_Recv] waits through such instants. *)
Definition arrivals : Type := list (option packet).

(** [MPI_Recv(&dummy, 1, MPI_CHAR, x, tag, ...)]: the first arrival from
    [x] with [tag] is taken out; [None] when there is none. *)
Fixpoint MPI_Recv_from (x tag : Z) (inbox : arrivals) : option arrivals :=
  match inbox with
  | [] => None
  | None :: rest => MPI_Recv_from x tag rest
  | Some p :: rest =>
      if (MPI_SOURCE p =? x) && (MPI_TAG p =? tag) then Some rest
      else option_map (cons (Some p)) (MPI_Recv_from x tag rest)
  end.

(** [for (x = ..; x < num_cores; ++x) MPI_Recv(&dummy, 1, MPI_CHAR, x,
    KILL_COMP, ...)]: the rank the loop blocks on, if any. *)
Fixpoint collect_KILL_COMP (xs : list Z) (inbox : arrivals) : option Z :=
  match xs with
  | [] => None
  | x :: xs' =>
      match MPI_Recv_from x KILL_COMP inbox with
      | Some inbox' => collect_KILL_COMP xs' inbox'
      | None => Some x
      end
  end.

(** The values a counter takes in [n] rounds of [++x] from [x]. *)
Fixpoint ranks_from (x : Z) (n : nat) : list Z :=
  match n with
  | O => []
  | S n' => x :: ranks_from (x + 1) n'
  end.

Section WithConfiguration.

Variable num_cores : Z.               (* [MPI_Comm_size] *)
Variable lb : bool.                   (* the [lb] option *)
Variable workList : list (list byte). (* what [runFunctionAsMain2] returns:
                                         [workList[i]] cut to [pathSizes[i]] *)

(** [pathSizes.size()] *)
Definition pathSizes_size : Z := Z.of_nat (List.length workList).

(** [workList[i]], [pathSizes[i]] *)
Definition workList_at (i : Z) : list byte := nth (Z.to_nat i) workList [].

(** The ranks [x] of [for (int x = 2; x < num_cores; ++x)]. *)
Definition worker_ranks : list Z := ranks_from 2 (Z.to_nat (num_cores - 2)).

(** [for (int x = 2; x < num_cores; ++x) MPI_Send(&dummy, 1, MPI_CHAR, x,
    KILL, MPI_COMM_WORLD)] *)
Definition kill_all (s : master_state) : master_state :=
  fold_left (fun s' x => MPI_Send dummy x KILL s') worker_ranks s.

(** The KILL_COMP collection loop followed by [MPI_Abort]. *)
Definition collect_and_abort (rest : arrivals) (s : master_state) : outcome :=
  match collect_KILL_COMP worker_ranks rest with
  | None => Aborted s
  | Some x => AwaitingKillComp x s
  end.

(** *** Seeding (lines 1725-1751) *)

(** [int whileCnt = (num_cores-2) < pathSizes.size() ? num_cores-2
                                                     : pathSizes.size();] *)
Definition whileCnt : Z :=
  if size_t (num_cores - 2) <? pathSizes_size
  then num_cores - 2
  else to_int pathSizes_size.

(** Body of [while (cnt < whileCnt)]. *)
Definition seed_worker (currRank : Z) (s : master_state) : master_state :=
  let s := write_log "MASTER->WORKER: START_WORK ID:" [currRank] s in
  let s := MPI_Send (workList_at (cnt s)) currRank START_PREFIX_TASK s in
  let s := set_busyList (busyList s ++ [currRank]) s in
  set_cnt (cnt s + 1) s.

(** [while (cnt < whileCnt) { ...; ++currRank; ++cnt; }], by the number
    of iterations left. *)
Fixpoint seed_loop (n : nat) (currRank : Z) (s : master_state)
  : Z * master_state :=
  match n with
  | O => (currRank, s)
  | S n' => seed_loop n' (currRank + 1) (seed_worker currRank s)
  end.

(** Body of [while (currRank < num_cores)]. *)
Definition spare_worker (currRank : Z) (s : master_state) : master_state :=
  let s := if negb lb
           then write_log "MASTER->WORKER: KILL ID:" [currRank]
                          (MPI_Send dummy currRank KILL s)
           else s in
  set_freeList (freeList s ++ [currRank]) s.

Fixpoint spare_loop (n : nat) (currRank : Z) (s : master_state)
  : master_state :=
  match n with
  | O => s
  | S n' => spare_loop n' (currRank + 1) (spare_worker currRank s)
  end.

(** State at [masterLog << "MASTER_START \n"]: empty deques, [cnt = 0]. *)
Definition initial_state : master_state :=
  mkState 0 [] [] [] [] false [] [mkLog "MASTER_START" []] true.

Definition seeding (s : master_state) : master_state :=
  let (currRank, s) := seed_loop (Z.to_nat (whileCnt - cnt s)) 2 s in
  spare_loop (Z.to_nat (num_cores - currRank)) currRank s.

(** *** The dispatch loop (lines 1757-1815) *)

(** One iteration of [while (cnt < pathSizes.size())] after its
    [MPI_Recv]. *)
Definition dispatch_step (status : packet) (s : master_state) : outcome :=
  let src := MPI_SOURCE status in
  if MPI_TAG status =? FINISH then
    let s := set_busyList (erase_first src (busyList s)) s in
    let s := set_offloadActiveList (erase_first src (offloadActiveList s)) s in
    let s := write_log "WORKER->MASTER: FINISH ID:" [src] s in
    let s := MPI_Send (workList_at (cnt s)) src START_PREFIX_TASK s in
    let s := write_log "MASTER->WORKER: START_WORK ID:" [src] s in
    let s := set_busyList (busyList s ++ [src]) s in
    Continue (set_cnt (cnt s + 1) s)
  else if MPI_TAG status =? BUG_FOUND then
    let s := write_log "Elapsed: " [] s in
    let s := close_log s in
    Continue (kill_all s)
  else if MPI_TAG status =? READY_TO_OFFLOAD then
    Continue (set_offloadReadyList (offloadReadyList s ++ [src]) s)
  else if MPI_TAG status =? NOT_READY_TO_OFFLOAD then
    let found2Erase := found src (offloadReadyList s) in
    let s := set_offloadReadyList (erase_first src (offloadReadyList s)) s in
    if found2Erase then Continue s
    else AssertFailed "found2Erase" s
  else
    AssertFailed "ok && MASTER received an illegal tag" s.

(** [while (cnt < pathSizes.size()) { MPI_Recv(.., MPI_ANY_SOURCE,
    MPI_ANY_TAG, ..); ... }]; returns the arrivals not yet received. *)
Fixpoint dispatch_loop (inbox : arrivals) (s : master_state)
  : outcome * arrivals :=
  if size_t (cnt s) <? pathSizes_size then
    match inbox with
    | [] => (Pending s, [])
    | None :: rest => dispatch_loop rest s
    | Some status :: rest =>
        match dispatch_step status s with
        | Continue s' => dispatch_loop rest s'
        | o => (o, rest)
        end
    end
  else (Continue s, inbox).

(** *** The event loop (lines 1823-1997) *)

(** The [if (flag) { ... }] part of one iteration; [rest] are the later
    arrivals, which the KILL_COMP collection loops read. *)
Definition handle_event (status : packet) (rest : arrivals)
                        (s : master_state) : outcome :=
  let src := MPI_SOURCE status in
  if MPI_TAG status =? BUG_FOUND then
    let s := write_log "WORKER->MASTER:  BUG FOUND:" [src] s in
    let s := write_log "Elapsed: " [] s in
    let s := close_log s in
    Aborted s
  else if MPI_TAG status =? FINISH then
    let ffound := found src (freeList s) in
    let s := if negb ffound then set_freeList (freeList s ++ [src]) s
             else s in
    let s := set_busyList (erase_first src (busyList s)) s in
    let s := if found src (offloadActiveList s)
             then set_offloadActive false
                    (set_offloadActiveList
                       (erase_first src (offloadActiveList s)) s)
             else s in
    let s := set_offloadReadyList (erase_first src (offloadReadyList s)) s in
    let s := write_log "WORKER->MASTER: FINISH ID:" [src] s in
    let s := write_log "WORKER->MASTER: FREELIST SIZE:" [size (freeList s)] s in
    if size (freeList s) =? size_t (num_cores - 2) then
      let s := write_log "MASTER: ALL WORKERS FINISHED " [] s in
      let s := kill_all s in
      let s := write_log "MASTER_ELAPSED: " [] s in
      let s := write_log "Elapsed: " [] s in
      let s := close_log s in
      collect_and_abort rest s
    else Continue s
  else if MPI_TAG status =? TIMEOUT then
    collect_and_abort rest (kill_all s)
  else if MPI_TAG status =? READY_TO_OFFLOAD then
    Continue (set_offloadReadyList (offloadReadyList s ++ [src]) s)
  else if MPI_TAG status =? NOT_READY_TO_OFFLOAD then
    Continue (set_offloadReadyList (erase_first src (offloadReadyList s)) s)
  else if MPI_TAG status =? OFFLOAD_RESP then
    let s := write_log "WORKER->MASTER: OFFLOAD RCVD ID:"
                       [src; count status] s in
    let s := set_offloadActiveList (erase_first src (offloadActiveList s)) s in
    if count status >? 4 then
      match freeList s with
      | [] => AssertFailed "freeList.size() > 0" s
      | pickedWorker :: free' =>
          let s := write_log "MASTER->WORKER: PREFIX_TASK_SEND ID:"
                             [pickedWorker; count status] s in
          let s := MPI_Send (buffer status) pickedWorker START_PREFIX_TASK s in
          let s := write_log "MASTER->WORKER: START_WORK ID:"
                             [pickedWorker] s in
          let s := set_busyList (busyList s ++ [pickedWorker]) s in
          let s := set_freeList free' s in
          Continue (set_offloadActive false s)
      end
    else Continue (set_offloadActive false s)
  else
    AssertFailed "ok && MASTER received an illegal tag" s.

(** The steal block that closes every iteration (lines 1963-1996). *)
Definition steal_trigger (s : master_state) : master_state :=
  if lb && (size (freeList s) >? 0)
        && (size (freeList s) <? size_t (num_cores - 2))
        && (size (offloadReadyList s) >? 0)
        && negb (offloadActive s)
  then
    match find (fun r => negb (found r (offloadActiveList s)))
               (offloadReadyList s) with
    | Some worker2offload =>
        let s := set_offloadActiveList
                   (offloadActiveList s ++ [worker2offload]) s in
        let s := MPI_Send dummy worker2offload OFFLOAD s in
        let s := write_log "MASTER->WORKER: OFFLOAD_SENT ID:"
                           [worker2offload] s in
        set_offloadActive true s
    | None => s
    end
  else s.

(** One iteration of [while (true)]: [probe] is what [MPI_Iprobe] sees. *)
Definition event_iteration (probe : option packet) (rest : arrivals)
                           (s : master_state) : outcome :=
  match probe with
  | None => Continue (steal_trigger s)
  | Some status =>
      match handle_event status rest s with
      | Continue s' => Continue (steal_trigger s')
      | o => o
      end
  end.

(** [while (true) { ... }]; once the arrivals are used up the loop keeps
    polling, and the steal block has run on the state it is left in. *)
Fixpoint event_loop (inbox : arrivals) (s : master_state) : outcome :=
  match inbox with
  | [] => Pending (steal_trigger s)
  | probe :: rest =>
      match event_iteration probe rest s with
      | Continue s' => event_loop rest s'
      | o => o
      end
  end.

(** The [else] branch of [master] ([phase1Depth != 0]) from
    [MASTER_START] on. *)
Definition master_prefix_mode (inbox : arrivals) : outcome :=
  match dispatch_loop inbox (seeding initial_state) with
  | (Continue s, rest) =>
      let s := write_log "MASTER: DONE_WITH_ALL_PREFIXES" [] s in
      event_loop rest (set_offloadActive false s)
  | (o, _) => o
  end.

(** The [phase1Depth == 0] branch of [master] (lines 1474-1508). *)
Fixpoint master_normal_recv (inbox : arrivals) (s : master_state) : outcome :=
  match inbox with
  | [] => Pending s
  | None :: rest => master_normal_recv rest s
  | Some status3 :: rest =>
      if MPI_TAG status3 =? FINISH then
        let s := write_log "MASTER_ELAPSED Normal Mode " [] s in
        let s := MPI_Send dummy 2 KILL s in
        match MPI_Recv_from 2 KILL_COMP rest with
        | Some _ => Aborted (close_log s)
        | None => AwaitingKillComp 2 s
        end
      else if MPI_TAG status3 =? TIMEOUT then
        let s := write_log "MASTER_ELAPSED Timeout: " [] s in
        Aborted (close_log s)
      else if MPI_TAG status3 =? BUG_FOUND then
        let s := write_log "WORKER->MASTER:  BUG FOUND:"
                           [MPI_SOURCE status3] s in
        let s := write_log "Elapsed: " [] s in
        Aborted (close_log s)
      else Returned s
  end.

Definition master_normal_mode (inbox : arrivals) : outcome :=
  let s := mkState 0 [] [] [] [] false [] [mkLog "Started: " []] true in
  master_normal_recv inbox (MPI_Send dummy 2 NORMAL_TASK s).

(** [master]: the branch on [phase1Depth]. *)
Definition master (phase1Depth : Z) (inbox : arrivals) : outcome :=
  if phase1Depth =? 0 then master_normal_mode inbox
  else master_prefix_mode inbox.

End WithConfiguration.

End Master.

(** * The driver around the master and the workers *)

Module Driver.

(** A [std::string], or the text of a C string before its terminator. *)
Definition str : Type := list ascii.

(** A string literal. *)
Definition lit (s : string) : str := list_ascii_of_string s.

(** The decimal digits of an unsigned number, as [printf] and
    [operator<<] write them. *)
Definition decimal (n : N) : str :=
  lit (DecimalString.NilZero.string_of_uint (N.to_uint n)).

(** The number a digit stands for, and the number a run of digits
    stands for, read left to right. *)
Definition digit_value (c : ascii) : N := (N_of_ascii c - 48)%N.

Definition is_digit (c : ascii) : bool :=
  ((48 <=? N_of_ascii c) && (N_of_ascii c <=? 57))%N.

Definition digits_value (s : str) : N :=
  fold_left (fun acc c => (acc * 10 + digit_value c)%N) s 0%N.

(** [c] written [n] times. *)
Definition fill (n : nat) (c : ascii) : str := repeat c n.

(** [sprintf(buf, "%ld", v)] *)
Definition sprintf_ld (v : Z) : str :=
  if v <? 0 then "-"%char :: decimal (Z.to_N (- v))
  else decimal (Z.to_N v).

(** [sprintf(buf, "%02ld", v)]: the zeros that pad to width 2 follow the
    sign. *)
Definition sprintf_02ld (v : Z) : str :=
  if v <? 0 then
    let d := decimal (Z.to_N (- v)) in
    "-"%char :: fill (1 - List.length d) "0"%char ++ d
  else
    let d := decimal (Z.to_N v) in
    fill (2 - List.length d) "0"%char ++ d.

(** [format_tdiff(buf, seconds)] (lines 1146-1158): the text of [buf]
    after the call, whose end is the pointer returned; [None] when
    [assert(seconds >= 0)] fails.  [/] and [%] on [long] truncate
    towards zero. *)
Definition format_tdiff (buf : str) (seconds : Z) : option str :=
  if negb (seconds >=? 0) then None
  else
    let minutes := seconds ÷ 60 in
    let seconds := Z.rem seconds 60 in
    let hours := minutes ÷ 60 in
    let minutes := Z.rem minutes 60 in
    let days := hours ÷ 24 in
    let hours := Z.rem hours 24 in
    let buf := if days >? 0 then buf ++ sprintf_ld days ++ lit " days, "
               else buf in
    Some (buf ++ sprintf_02ld hours ++ lit ":" ++ sprintf_02ld minutes
              ++ lit ":" ++ sprintf_02ld seconds).

(** The line the master logs:
    [strcpy(buf, "Elapsed: "); strcpy(format_tdiff(buf, t1 - t0), "\n");] *)
Definition elapsed_line (seconds : Z) : option str :=
  match format_tdiff (lit "Elapsed: ") seconds with
  | Some buf => Some (buf ++ ["010"%char])
  | None => None
  end.

(** [KleeHandler::getTestFilename(suffix, id)] (lines 564-568):
    ["test" << setfill('0') << setw(6) << id << '.' << suffix]. *)
Definition getTestFilename (suffix : str) (id : N) : str :=
  let d := decimal id in
  lit "test" ++ fill (6 - List.length d) "0"%char ++ d
    ++ "."%char :: suffix.

End Driver.

(** The number a [uint] stands for, most significant digit first, on
    top of the digits already read. *)
Fixpoint uint_value (d : Decimal.uint) (acc : N) : N :=
  match d with
  | Decimal.Nil => acc
  | Decimal.D0 l => uint_value l (acc * 10 + 0)
  | Decimal.D1 l => uint_value l (acc * 10 + 1)
  | Decimal.D2 l => uint_value l (acc * 10 + 2)
  | Decimal.D3 l => uint_value l (acc * 10 + 3)
  | Decimal.D4 l => uint_value l (acc * 10 + 4)
  | Decimal.D5 l => uint_value l (acc * 10 + 5)
  | Decimal.D6 l => uint_value l (acc * 10 + 6)
  | Decimal.D7 l => uint_value l (acc * 10 + 7)
  | Decimal.D8 l => uint_value l (acc * 10 + 8)
  | Decimal.D9 l => uint_value l (acc * 10 + 9)
  end%N.

Module Text.

Import Driver.

(** [isspace] in the "C" locale, which the program never changes:
    space, and the controls from tab to carriage return. *)
Definition isspace (c : ascii) : bool :=
  let n := N_of_ascii c in
  ((n =? 32) || ((9 <=? n) && (n <=? 13)))%N.

(** [in[i]] *)
Definition at_index (s : str) (i : nat) : ascii := nth i s zero.

(** [while (lead < len && isspace(in[lead])) ++lead;] with [n] the
    distance [len - lead]. *)
Fixpoint lead_loop (s : str) (n : nat) (lead : nat) : nat :=
  match n with
  | O => lead
  | S n' => if isspace (at_index s lead) then lead_loop s n' (S lead)
            else lead
  end.

(** [while (trail > lead && isspace(in[trail-1])) --trail;] with [n] the
    distance [trail - lead]. *)
Fixpoint trail_loop (s : str) (n : nat) (trail : nat) : nat :=
  match n with
  | O => trail
  | S n' => if isspace (at_index s (trail - 1))
            then trail_loop s n' (trail - 1)
            else trail
  end.

(** [strip(in)] (lines 794-802).  [unsigned len = in.size()] keeps the
    low 32 bits of the size; [in.substr(lead, trail - lead)] cannot
    throw, [lead] being at most the size. *)
Definition strip (s : str) : str :=
  let len := Z.to_nat (Z.of_nat (List.length s) mod 2 ^ 32) in
  let lead := lead_loop s len 0 in
  let trail := trail_loop s (len - lead) len in
  firstn (trail - lead) (skipn lead s).

End Text.

Module Streams.

Import Driver.

(** An input stream ([std::istringstream], [std::ifstream]): the
    characters not yet read, whether the source fails with a read
    error where they end instead of coming to its end, and the state
    bits. *)
Record istream : Type := mkStream {
  chars : str;
  read_error : bool;
  eofbit : bool;
  failbit : bool;
  badbit : bool
}.

(** [std::istringstream stream(s)] *)
Definition open_stream (s : str) : istream :=
  mkStream s false false false false.

(** [stream.good()] *)
Definition good (stream : istream) : bool :=
  negb (eofbit stream || failbit stream || badbit stream).

(** What [std::getline] extracts from the characters left: the token,
    the characters after it, and whether the end was reached before a
    delimiter. *)
Fixpoint getline_chars (s : str) (delim : ascii) : str * str * bool :=
  match s with
  | [] => ([], [], true)
  | c :: s' =>
      if Ascii.eqb c delim then ([], s', false)
      else let '(t, r, e) := getline_chars s' delim in (c :: t, r, e)
  end.

(** [std::getline(stream, token, delim)]: the stream after the call and the
    value of [token].  When the stream is not good the sentry fails:
    [failbit] is set and [token] keeps its value.  Otherwise [token] is
    erased and filled up to the delimiter, which is consumed.  When
    the characters run out first, [eofbit] is set at the end of the
    source and [badbit] at a read error; [failbit] is set when
    nothing was extracted. *)
Definition getline (stream : istream) (token : str) (delim : ascii)
  : istream * str :=
  if negb (good stream) then
    (mkStream (chars stream) (read_error stream) (eofbit stream) true
              (badbit stream), token)
  else
    let '(t, r, e) := getline_chars (chars stream) delim in
    let nothing := e && match t with [] => true | _ => false end in
    (mkStream r (read_error stream) (e && negb (read_error stream))
              nothing (e && read_error stream), t).

(** How a loop over the tokens of a stream ends: its body left the
    function ([klee_error], [return false]) or the stream ran out. *)
Inductive loop_result (E S : Type) : Type :=
| Left_early (e : E)
| Ran_out (s : S).
Arguments Left_early {E S} e.
Arguments Ran_out {E S} s.

Definition inspect {A : Type} (a : A) : {b : A | a = b} :=
  exist _ a eq_refl.

Lemma getline_chars_shorter (s : str) (delim : ascii) :
  s <> [] ->
  (List.length (snd (fst (getline_chars s delim))) < List.length s)%nat.
Proof.
  induction s as [|c s IH]; intros H; [contradiction|].
  cbn [getline_chars]. destruct (Ascii.eqb c delim); [cbn; lia|].
  destruct s as [|c' s']; [cbn; lia|].
  specialize (IH ltac:(discriminate)).
  destruct (getline_chars (c' :: s') delim) as [[t r] e].
  cbn [fst snd List.length] in *. lia.
Qed.

Lemma getline_shorter (stream stream' : istream) (token token' : str)
      (delim : ascii) :
  getline stream token delim = (stream', token') ->
  failbit stream' = false ->
  (List.length (chars stream') < List.length (chars stream))%nat.
Proof.
  unfold getline. destruct (negb (good stream)).
  { intros H. inversion H. cbn. discriminate. }
  destruct (chars stream) as [|c s] eqn:E.
  { cbn. intros H. inversion H. cbn. discriminate. }
  pose proof (getline_chars_shorter (c :: s) delim ltac:(discriminate)) as Hs.
  destruct (getline_chars (c :: s) delim) as [[t r] e].
  intros H. inversion H. cbn [chars fst snd] in *. intros _. exact Hs.
Qed.

(** [while (std::getline(stream, token, delim)) { body }] with the state
    [st] the body works on. *)
Equations? while_getline {E S : Type} (body : str -> S -> loop_result E S)
  (stream : istream) (token : str) (delim : ascii) (st : S)
  : loop_result E S by wf (List.length (chars stream)) lt :=
  while_getline body stream token delim st
    with inspect (getline stream token delim) := {
    | exist _ (stream', token') e1 with inspect (failbit stream') := {
      | exist _ true _ => Ran_out st
      | exist _ false e2 with body token' st := {
        | Left_early e => Left_early e
        | Ran_out st' => while_getline body stream' token' delim st' } } }.
Proof.
  apply (getline_shorter _ _ _ _ _ e1 e2).
Qed.

(** [split(s, delimiter)] (lines 1348-1357) *)
Definition split (s : str) (delimiter : ascii) : list str :=
  match while_getline (E := Empty_set)
          (fun token tokens => Ran_out (tokens ++ [token]))
          (open_stream s) [] delimiter [] with
  | Ran_out tokens => tokens
  | Left_early e => match e with end
  end.

(** [parseInlinedFunctions(module, parameter, result)] (lines
    1385-1398); [getFunction] tells whether the module has a function
    of that name, and [Left_early fname] is the [klee_error] call. *)
Definition parseInlinedFunctions (getFunction : str -> bool)
           (parameter : str) (result : list str)
  : loop_result str (list str) :=
  while_getline
    (fun fname result =>
       if negb (getFunction fname) then Left_early fname
       else Ran_out (result ++ [fname]))
    (open_stream parameter) [] ","%char result.

End Streams.

(** The tokens of a string, as the [getline] loops see them: the pieces
    between delimiters, without an empty piece after a final
    delimiter. *)
Fixpoint tokenize (s : Driver.str) (delim : ascii) : list Driver.str :=
  match s with
  | [] => []
  | c :: s' =>
      if Ascii.eqb c delim then [] :: tokenize s' delim
      else match tokenize s' delim with
           | [] => [[c]]
           | t :: ts => (c :: t) :: ts
           end
  end.

(** A loop body run over a list of tokens, until it leaves early. *)
Fixpoint over_tokens {E S : Type}
         (body : Driver.str -> S -> Streams.loop_result E S)
         (tokens : list Driver.str) (st : S) : Streams.loop_result E S :=
  match tokens with
  | [] => Streams.Ran_out st
  | t :: ts => match body t st with
               | Streams.Left_early e => Streams.Left_early e
               | Streams.Ran_out st' => over_tokens body ts st'
               end
  end.


(** The tokens written back, each followed by the delimiter. *)
Definition terminate_all (delim : ascii) (tokens : list Driver.str)
  : Driver.str :=
  concat (map (fun t => t ++ [delim]) tokens).

(** A string with a final delimiter added unless it is empty or has
    one. *)
Definition terminated (delim : ascii) (s : Driver.str) : Driver.str :=
  match s with
  | [] => []
  | _ => if Ascii.eqb (last s delim) delim then s else s ++ [delim]
  end.


Module Environ.

Import Driver Text Streams.

Definition newline : ascii := "010"%char.

(** What the path of the environ file leads to: nothing that can be
    opened, or a file that opens and gives [content], after which the
    reads come to the end of the file or fail (as they do at once on
    a directory). *)
Inductive file : Type :=
| Cannot_open
| Opens (content : str) (reads_fail : bool).

(** [std::ifstream f(path)]: a file that cannot be opened leaves the
    stream failed. *)
Definition ifstream (path : file) : istream :=
  match path with
  | Opens content reads_fail => mkStream content reads_fail false false false
  | Cannot_open => mkStream [] false false true false
  end.

Definition stream_measure (f : istream) : nat :=
  (List.length (chars f) + if good f then 1 else 0)%nat.

(** The loop that reads the environ file (lines 1633-1639, and the same
    in [executeWorker]):
    [while (!f.eof()) { getline(f, line); line = strip(line);
       if (!line.empty()) items.push_back(line); }].
    [None]: the loop does not end, every [getline] failing on a stream
    that is failed or bad but not at its end. *)
Equations? environ_loop (f : istream) (items : list str)
  : option (list str) by wf (stream_measure f) lt :=
  environ_loop f items with inspect (eofbit f) := {
    | exist _ true _ => Some items
    | exist _ false e0 with inspect (good f) := {
      | exist _ false _ => None
      | exist _ true e1 with inspect (getline f [] newline) := {
        | exist _ (f', line) e2 =>
            environ_loop f'
              (match strip line with
               | [] => items
               | line => items ++ [line]
               end) } } }.
Proof.
  unfold getline in e2. rewrite e1 in e2. cbn [negb] in e2.
  unfold stream_measure. rewrite e1.
  destruct (chars f) as [|c s] eqn:Ec.
  { cbn in e2. inversion e2; subst. unfold good. cbn.
    destruct (read_error f); cbn; lia. }
  pose proof (getline_chars_shorter (c :: s) newline ltac:(discriminate)) as Hs.
  destruct (getline_chars (c :: s) newline) as [[t r] e].
  inversion e2; subst. cbn [chars fst snd List.length] in *.
  clear environ_loop.
  match goal with
  | |- context [if ?b then 1%nat else 0%nat] => destruct b
  end; lia.
Qed.

Inductive environ : Type :=
| Unable_to_open            (* [klee_error] *)
| Reading_forever
| Items (items : list str).

(** The items of the environ file: the strings of [pEnvp]. *)
Definition read_environ (path : file) : environ :=
  let f := ifstream path in
  if negb (good f) then Unable_to_open
  else match environ_loop f [] with
       | Some items => Items items
       | None => Reading_forever
       end.

End Environ.

(** The lines of a text that are not blank, stripped. *)
Definition stripped_lines (content : Driver.str) : list Driver.str :=
  filter (fun line => negb (Nat.eqb (List.length line) 0))
         (map Text.strip (tokenize content Environ.newline)).


Module Options.

Import Driver Text Streams.

Definition LONG_MAX : Z := 2 ^ 63 - 1.
Definition LONG_MIN : Z := - 2 ^ 63.
Definition ERANGE : Z := 34.

(** [token.c_str()] as a C string: the characters before the first
    NUL. *)
Fixpoint c_str (s : str) : str :=
  match s with
  | [] => []
  | c :: s' => if Ascii.eqb c zero then [] else c :: c_str s'
  end.

(** The leading characters that satisfy [p], and the rest. *)
Fixpoint span (p : ascii -> bool) (s : str) : str * str :=
  match s with
  | [] => ([], [])
  | c :: s' => if p c then let '(a, b) := span p s' in (c :: a, b)
               else ([], s)
  end.

(** [strtol(s, &endptr, 10)] on a C string: the value, the offset of
    [endptr] from [s] and [errno] after the call.  White space is
    skipped, one sign is taken, then the decimal digits; without a
    digit nothing is converted and [endptr] is [s]; a value outside
    [long] is clamped and sets [errno] to [ERANGE], which is otherwise
    left as it was. *)
Definition strtol (s : str) (errno : Z) : Z * nat * Z :=
  let '(blank, s1) := span isspace s in
  let '(negative, sign, s2) :=
    match s1 with
    | "-"%char :: r => (true, 1%nat, r)
    | "+"%char :: r => (false, 1%nat, r)
    | _ => (false, 0%nat, s1)
    end in
  let '(digits, _) := span is_digit s2 in
  match digits with
  | [] => (0, 0%nat, errno)
  | _ =>
      let endptr := (List.length blank + sign + List.length digits)%nat in
      let v := Z.of_N (digits_value digits) in
      let v := if negative then - v else v in
      if v >? LONG_MAX then (LONG_MAX, endptr, ERANGE)
      else if v <? LONG_MIN then (LONG_MIN, endptr, ERANGE)
      else (v, endptr, errno)
  end.

(** The body of the inner loop of [parseNameLineOption] (lines
    1320-1326) on [lines] and [errno]; [Left_early] is
    [return false]. *)
Definition parse_line (token : str) (st : list Z * Z)
  : loop_result (list Z * Z) (list Z * Z) :=
  let '(lines, errno) := st in
  let s := c_str token in
  let '(v, endptr, errno) := strtol s errno in
  let line := v mod 2 ^ 32 in
  if (errno =? ERANGE) || (endptr =? 0)%nat
     || negb (endptr =? List.length s)%nat
  then Left_early (lines, errno)
  else Ran_out (lines ++ [line], errno).

(** [parseNameLineOption(option, fname, lines)] (lines 1308-1331): the
    value returned, [fname] and [lines] after the call, and [errno]
    after it. *)
Definition parseNameLineOption (option fname : str) (lines : list Z)
           (errno : Z) : bool * str * list Z * Z :=
  let '(stream, token) := getline (open_stream option) [] ":"%char in
  if negb (failbit stream) then
    let fname := token in
    match while_getline parse_line stream token "/"%char (lines, errno) with
    | Left_early (lines, errno) => (false, fname, lines, errno)
    | Ran_out (lines, errno) => (true, fname, lines, errno)
    end
  else (true, fname, lines, errno).

(** What [klee_error] reports. *)
Inductive option_error : Type :=
| Invalid_parameter (token : str)
| Not_found_in_module (fname : str).

(** [parseSkippingParameter(module, parameter, result)] (lines
    1359-1383).  [getFunction fname] is [None] when the module has no
    such function and otherwise tells whether it returns [void].  The
    state of the loop is [fname], [result], [errno] and the names
    written to [std::cout]. *)
Definition skip_one (getFunction : str -> option bool) (token : str)
           (st : str * list (str * list Z) * Z * list str)
  : loop_result option_error (str * list (str * list Z) * Z * list str) :=
  let '(fname, result, errno, cout) := st in
  let '(ok, fname, lines, errno) := parseNameLineOption token fname [] errno in
  if negb ok then Left_early (Invalid_parameter token)
  else
    let cout := cout ++ [fname] in
    match getFunction fname with
    | None => Left_early (Not_found_in_module fname)
    | Some returns_void =>
        let fname := if negb returns_void then lit "__wrap_" ++ fname
                     else fname in
        Ran_out (fname, result ++ [(fname, lines)], errno, cout)
    end.

Definition parseSkippingParameter (getFunction : str -> option bool)
           (parameter : str) (result : list (str * list Z)) (errno : Z)
  : loop_result option_error (str * list (str * list Z) * Z * list str) :=
  while_getline (skip_one getFunction) (open_stream parameter) []
                ","%char ([], result, errno, []).

(** A [std::map] from names to line numbers, with [find] and the
    [insert] that leaves a key already there as it is. *)
Definition line_map : Type := list (str * list Z).

Definition str_eqb (a b : str) : bool :=
  if list_eq_dec Ascii.ascii_dec a b then true else false.

Fixpoint map_find (k : str) (m : line_map) : option (list Z) :=
  match m with
  | [] => None
  | (k', v) :: m' => if str_eqb k k' then Some v else map_find k m'
  end.

Definition map_insert (k : str) (v : list Z) (m : line_map) : line_map :=
  match map_find k m with
  | Some _ => m
  | None => m ++ [(k, v)]
  end.

(** [parseErrorLocationParameter(parameter, result)] (lines
    1400-1412), on [fname], [result] and [errno]. *)
Definition locate_one (token : str) (st : str * line_map * Z)
  : loop_result option_error (str * line_map * Z) :=
  let '(fname, result, errno) := st in
  let '(ok, fname, lines, errno) := parseNameLineOption token fname [] errno in
  if negb ok then Left_early (Invalid_parameter token)
  else Ran_out (fname, map_insert fname lines result, errno).

Definition parseErrorLocationParameter (parameter : str)
           (result : line_map) (errno : Z)
  : loop_result option_error (str * line_map * Z) :=
  while_getline locate_one (open_stream parameter) [] ","%char
                ([], result, errno).

End Options.

(** A list of strings written with [sep] between them. *)
Fixpoint join (sep : ascii) (parts : list Driver.str) : Driver.str :=
  match parts with
  | [] => []
  | [p] => p
  | p :: ps => p ++ sep :: join sep ps
  end.


(** A name pushed by [parseSkippingParameter] for a function [g] of
    the module: [g] itself when it returns [void], and otherwise [g]
    behind the wrapper prefix. *)
Definition skipped_name_for (getFunction : Driver.str -> option bool)
           (name : Driver.str) : Prop :=
  exists g,
    (getFunction g = Some true /\ name = g)
    \/ (getFunction g = Some false /\ name = Driver.lit "__wrap_" ++ g).


Module Listing.

Import Driver Options.

(** [s.substr(pos, n)] with [pos] and [n] of type [size_t]: [None] is
    the [std::out_of_range] thrown when [pos] is beyond the size. *)
Definition substr (s : str) (pos n : Z) : option str :=
  if pos >? Z.of_nat (List.length s) then None
  else Some (firstn (Z.to_nat n) (skipn (Z.to_nat pos) s)).

(** The loop of [KleeHandler::getKTestFilesInDir] (lines 730-736) over
    the paths the directory iterator gives. *)
Fixpoint ktest_loop (paths : list str) (results : list str)
  : option (list str) :=
  match paths with
  | [] => Some results
  | f :: paths' =>
      let size := Z.of_nat (List.length f) in
      match substr f (Master.size_t (size - 6)) size with
      | None => None
      | Some suffix =>
          ktest_loop paths' (if str_eqb suffix (lit ".ktest")
                             then results ++ [f] else results)
      end
  end.

Inductive listing : Type :=
| Out_of_range                   (* the exception, which nothing catches *)
| Exit_1                         (* "unable to read output directory" *)
| Listed (results : list str).

(** [KleeHandler::getKTestFilesInDir(directoryPath, results)] (lines
    723-743); [paths] are the paths the iterator gives before it ends
    and [ec] tells whether it ended on an error. *)
Definition getKTestFilesInDir (paths : list str) (ec : bool)
           (results : list str) : listing :=
  match ktest_loop paths results with
  | None => Out_of_range
  | Some results => if ec then Exit_1 else Listed results
  end.

End Listing.

Module Interrupt.

(** What [interrupt_handle] reads and writes: the flag [interrupted],
    whether [theInterpreter] is set, whether the interpreter was asked
    to halt, whether the handler was installed again, and the lines
    written to [llvm::errs()]. *)
Record signal_state : Type := mkSignal {
  interrupted : bool;
  theInterpreter : bool;
  haltExecution : bool;
  handler_set : bool;
  errs : list string
}.

Inductive after_signal : Type :=
| Exits (status : Z) (errs : list string)
| Resumes (s : signal_state).

(** [interrupt_handle()] (lines 1133-1143) *)
Definition interrupt_handle (s : signal_state) : after_signal :=
  if negb (interrupted s) && theInterpreter s then
    Resumes
      (mkSignal true (theInterpreter s) true true
         (errs s ++
          ["KLEE: ctrl-c detected, requesting interpreter to halt."%string]))
  else Exits 1 (errs s ++ ["KLEE: ctrl-c detected, exiting."%string]).

End Interrupt.


Module Handler.

Import Driver Streams Options.

Definition INT_MAX : Z := 2 ^ 31 - 1.
Definition EEXIST : Z := 17.

(** [mkdir(path, 0775)] on the paths that exist: [None] when the
    directory was made, and otherwise [errno]: [EEXIST] for a path
    that exists, or what [fault] says (a missing parent, a read-only
    file system, ...). *)
Definition mkdir (fault : str -> option Z) (path : str)
           (paths : list str) : option Z * list str :=
  if existsb (str_eqb path) paths then (Some EEXIST, paths)
  else match fault path with
       | Some errno => (Some errno, paths)
       | None => (None, path :: paths)
       end.

Inductive output_directory : Type :=
| Created (m_outputDirectory : str) (i : Z) (paths : list str)
| Cannot_create (errno : Z)          (* [klee_error] *)
| Index_overflow.                    (* [++i] on [INT_MAX] *)

Lemma next_index (i : Z) :
  (i <=? INT_MAX) = true -> (i =? INT_MAX) = false ->
  (Z.to_nat (INT_MAX + 1 - (i + 1)) < Z.to_nat (INT_MAX + 1 - i))%nat.
Proof.
  intros H1 H2. apply Z.leb_le in H1. apply Z.eqb_neq in H2.
  apply Z2Nat.inj_lt; lia.
Qed.

Opaque INT_MAX.

(** The loop of the constructor of [KleeHandler] that makes the output
    directory (lines 454-481): the directory given, followed by the
    first index [i] for which [mkdir] succeeds. *)
Equations? output_loop (fault : str -> option Z) (directory : str)
  (paths : list str) (i : Z) : output_directory
  by wf (Z.to_nat (INT_MAX + 1 - i)) lt :=
  output_loop fault directory paths i with inspect (i <=? INT_MAX) := {
    | exist _ false _ => Index_overflow
    | exist _ true e1
        with inspect (mkdir fault (directory ++ decimal (Z.to_N i)) paths) := {
      | exist _ (None, paths') _ =>
          Created (directory ++ decimal (Z.to_N i)) i paths'
      | exist _ (Some errno, _) _ with inspect (errno =? EEXIST) := {
        | exist _ false _ => Cannot_create errno
        | exist _ true _ with inspect (i =? INT_MAX) := {
          | exist _ true _ => Index_overflow
          | exist _ false e2 =>
              output_loop fault directory paths (i + 1) } } } }.
Proof.
  exact (next_index i e1 e2).
Qed.

Transparent INT_MAX.

Definition create_output_directory (fault : str -> option Z)
           (directory : str) (paths : list str) : output_directory :=
  output_loop fault directory paths 0.

End Handler.


Module TestCases.

Import Driver.

(** The options [processTestCase] reads. *)
Record test_options : Type := mkOptions {
  ExitOnError : bool;
  NoOutput : bool;
  WriteKQueries : bool;
  WriteCVCs : bool;
  WriteSMT2s : bool;
  WriteCov : bool;
  WriteTestInfo : bool;
  StopAfterNTests : Z
}.

(** The handler as [processTestCase] changes it: [m_testIndex], whether
    the interpreter was asked to halt, the files made in the output
    directory, in order, and the warnings given. *)
Record handler : Type := mkHandler {
  m_testIndex : Z;
  halt_requested : bool;
  files : list str;
  warnings : list string
}.

(** How a call ends: [exit(1)], a write through the null pointer that
    [openOutputFile] returned, or a return. *)
Inductive test_outcome : Type :=
| Exits_on_error
| Null_stream (h : handler)
| Returns (h : handler).

(** The steps of the call: a state monad over the handler that stops
    at a write through a null stream. *)
Definition step (A : Type) : Type := handler -> (A * handler) + handler.

Definition ret {A : Type} (a : A) : step A := fun h => inl (a, h).

Definition bind {A B : Type} (m : step A) (k : A -> step B) : step B :=
  fun h => match m h with
           | inl (a, h') => k a h'
           | inr h' => inr h'
           end.

#[local] Notation "x <- m ;; k" := (bind m (fun x => k))
  (at level 61, m at next level, right associativity).
#[local] Notation "m ;;; k" := (bind m (fun _ => k))
  (at level 61, right associativity).

Definition when (b : bool) (m : step unit) : step unit :=
  if b then m else ret tt.

(** A [for] loop over the elements of a container. *)
Fixpoint for_each {A : Type} (l : list A) (body : A -> step unit)
  : step unit :=
  match l with
  | [] => ret tt
  | a :: l' => body a ;;; for_each l' body
  end.

Definition klee_warning (msg : string) : step unit :=
  fun h => inl (tt, mkHandler (m_testIndex h) (halt_requested h) (files h)
                              (warnings h ++ [msg])).

Definition made (filename : str) : step unit :=
  fun h => inl (tt, mkHandler (m_testIndex h) (halt_requested h)
                              (files h ++ [filename]) (warnings h)).

(** [++m_testIndex] on an [unsigned] *)
Definition next_test_index : step Z :=
  fun h => let id := (m_testIndex h + 1) mod 2 ^ 32 in
           inl (id, mkHandler id (halt_requested h) (files h) (warnings h)).

Definition setHaltExecution : step unit :=
  fun h => inl (tt, mkHandler (m_testIndex h) true (files h) (warnings h)).

Definition get_testIndex : step Z := fun h => inl (m_testIndex h, h).

Section WithEnvironment.

Variable opts : test_options.

(** Whether the file of that name can be opened for writing. *)
Variable can_open : str -> bool.

(** [openOutputFile(filename)] (lines 536-562): the stream, or
    [false] for the null pointer, after a warning. *)
Definition openOutputFile (filename : str) : step bool :=
  if can_open filename then made filename ;;; ret true
  else klee_warning "error opening file" ;;; ret false.

(** [openTestFile(suffix, id)] *)
Definition openTestFile (suffix : str) (id : Z) : step bool :=
  openOutputFile (getTestFilename suffix (Z.to_N id)).

(** [*f << ...;] *)
Definition write_through (f : bool) : step unit :=
  fun h => if f then inl (tt, h) else inr h.

Definition isSome {A : Type} (o : option A) : bool :=
  match o with Some _ => true | None => false end.

(** [processTestCase(state, errorMessage, errorSuffix)] (lines
    577-705).  [success] is the answer of [getSymbolicSolution],
    [ktest_written] that of [kTest_toFile] and [cov] that of
    [getCoveredLines], the covered lines of each file; [m_pathWriter]
    and [m_symPathWriter] are null, [setInterpreter] setting them
    under [if (false)].  The [.cov] stream is written through once
    for each covered line, the other streams once. *)
Definition processTestCase (errorMessage : option str) (errorSuffix : str)
           (success ktest_written : bool) (cov : list (str * list Z))
           (h : handler) : test_outcome :=
  if isSome errorMessage && ExitOnError opts then Exits_on_error
  else if negb (NoOutput opts) then
    match
      (when (negb success)
            (klee_warning "unable to get symbolic solution, losing test case") ;;;
       id <- next_test_index ;;
       when success
            (if ktest_written
             then made (getTestFilename (lit "ktest") (Z.to_N id))
             else klee_warning "unable to write output test case, losing it") ;;;
       when (isSome errorMessage)
            (f <- openTestFile errorSuffix id ;; write_through f) ;;;
       when (isSome errorMessage || WriteKQueries opts)
            (f <- openTestFile (lit "kquery") id ;; write_through f) ;;;
       when (WriteCVCs opts)
            (f <- openTestFile (lit "cvc") id ;; write_through f) ;;;
       when (WriteSMT2s opts)
            (f <- openTestFile (lit "smt2") id ;; write_through f) ;;;
       when (WriteCov opts)
            (f <- openTestFile (lit "cov") id ;;
             for_each cov (fun it =>
               for_each (snd it) (fun _ => write_through f))) ;;;
       index <- get_testIndex ;;
       when (index =? StopAfterNTests opts) setHaltExecution ;;;
       when (WriteTestInfo opts)
            (f <- openTestFile (lit "info") id ;; write_through f)) h
    with
    | inl (_, h') => Returns h'
    | inr h' => Null_stream h'
    end
  else Returns h.

End WithEnvironment.

End TestCases.

(** The files of [after] that [before] did not have yet. *)
Definition new_files (before after : TestCases.handler) : list Driver.str :=
  skipn (List.length (TestCases.files before)) (TestCases.files after).

(** A test file of the test [id], whatever its suffix. *)
Definition test_file_of (id : Z) (name : Driver.str) : Prop :=
  exists suffix, name = Driver.getTestFilename suffix (Z.to_N id).

(** A step started in a state that satisfies [pre] ends in one that
    satisfies [post], or stops at a null stream in one that satisfies
    [stop]. *)
Definition step_spec {A : Type} (pre : TestCases.handler -> Prop) (m : TestCases.step A)
           (post : A -> TestCases.handler -> Prop) (stop : TestCases.handler -> Prop) : Prop :=
  forall h, pre h ->
            match m h with
            | inl (a, h') => post a h'
            | inr h' => stop h'
            end.


(** The state during the call on [h0], once the test has its number
    [id]: the files made since are files of that test. *)
Definition during (h0 : TestCases.handler) (id : Z) (halt : bool) (h : TestCases.handler)
  : Prop :=
  TestCases.m_testIndex h = id
  /\ TestCases.halt_requested h = halt
  /\ exists added, TestCases.files h = TestCases.files h0 ++ added
                   /\ Forall (test_file_of id) added.

(** * Observations on runs *)

Import Master.

(** The START_PREFIX_TASK packets of an outbox, oldest first. *)
Definition prefix_tasks (out : list packet) : list packet :=
  filter (has_tag START_PREFIX_TASK) out.

(** Ranks that report FINISH in a sequence of arrivals, oldest first. *)
Fixpoint finishers (inbox : arrivals) : list Z :=
  match inbox with
  | [] => []
  | Some p :: rest =>
      if MPI_TAG p =? FINISH then MPI_SOURCE p :: finishers rest
      else finishers rest
  | None :: rest => finishers rest
  end.

(** The packets that hand [workList[c]], [workList[c+1]], ... to the
    ranks [rs], one each. *)
Fixpoint task_packets (workList : list (list byte)) (c : Z) (rs : list Z)
  : list packet :=
  match rs with
  | [] => []
  | r :: rs' =>
      mkPacket MASTER_NODE r START_PREFIX_TASK (workList_at workList c)
        :: task_packets workList (c + 1) rs'
  end.

(** Arrivals the dispatch loop takes without stopping. *)
Definition benign (a : option packet) : Prop :=
  match a with
  | None => True
  | Some p => MPI_TAG p = FINISH \/ MPI_TAG p = BUG_FOUND
              \/ MPI_TAG p = READY_TO_OFFLOAD
  end.

(** At most one steal outstanding, as the flag is meant to keep it. *)
Definition one_steal (s : master_state) : Prop :=
  (List.length (offloadActiveList s) <= 1)%nat
  /\ (offloadActive s = false -> offloadActiveList s = []).

(** ** Inputs of the runs evaluated below *)

(** An interpreter run that ends by itself: nothing sent, nothing
    received, the call returns. *)
Definition quiet_run : list byte -> Z -> Z -> Z -> string -> list packet
                       -> Worker.run :=
  fun _ _ _ _ _ _ => Worker.mkRun [] 0 true.

(** An interpreter run on rank 2 that reports FINISH by itself and
    returns when it receives the next message from the master. *)
Definition finishing_run : list byte -> Z -> Z -> Z -> string -> list packet
                           -> Worker.run :=
  fun _ _ _ _ _ _ => Worker.mkRun [mkPacket 2 0 FINISH dummy] 1 true.

(** The arrivals and prefixes of the runs evaluated below. *)
Definition P1 : list byte := [x00; x00].
Definition P2 : list byte := [x00; x01].
Definition P3 : list byte := [x01; x00].

Definition from (r tag : Z) : option packet := Some (mkPacket r 0 tag dummy).

(** Destination and tag of every packet of an outbox. *)
Definition wire (s : master_state) : list (Z * Z) :=
  map (fun p => (dest p, MPI_TAG p)) (outbox s).

Definition kill_packets (num_cores : Z) : list packet :=
  map (fun x => mkPacket MASTER_NODE x KILL dummy) (worker_ranks num_cores).

(** [freeList] and [busyList] together hold every worker rank, each
    once. *)
Definition worker_partition (num_cores : Z) (s : master_state) : Prop :=
  Permutation (freeList s ++ busyList s) (worker_ranks num_cores).

(** A KILL_COMP message from rank [x] is among the arrivals. *)
Definition has_KILL_COMP (inbox : arrivals) (x : Z) : Prop :=
  exists p, In (Some p) inbox /\ MPI_SOURCE p = x /\ MPI_TAG p = KILL_COMP.

(** The first message among the arrivals and what follows it. *)
Fixpoint first_message (inbox : arrivals) : option (packet * arrivals) :=
  match inbox with
  | [] => None
  | None :: rest => first_message rest
  | Some p :: rest => Some (p, rest)
  end.

(** The log of [s'] is closed and holds the lines of [s]. *)
Definition log_frozen (s s' : master_state) : Prop :=
  logOpen s' = false /\ masterLog s' = masterLog s.

(** * Properties of the worker loop *)

(** Split a goal into its conjuncts, and nothing else. *)
Ltac splits := repeat match goal with |- _ /\ _ => split end.

Section WorkerFacts.

Variable world_rank phase1Depth phase2Depth : Z.
Variable searchPolicy : string.
Variable executeWorker :
  list byte -> Z -> Z -> Z -> string -> list packet -> Worker.run.

Local Abbreviation worker :=
  (Worker.worker world_rank phase1Depth phase2Depth searchPolicy
                 executeWorker).
Local Abbreviation send := (Worker.send world_rank).
Local Abbreviation getNewSearch := (Worker.getNewSearch searchPolicy).

Lemma worker_KILL (st : packet) (rest : list packet) :
  MPI_TAG st = KILL ->
  worker (st :: rest)
  = ([], if Worker.recv_fails (Worker.to_int phase1Depth) (count st)
         then Worker.Aborted else Worker.Returned).
Proof.
  intros Ht. simp worker. rewrite Ht. cbn.
  destruct (Worker.recv_fails _ _); reflexivity.
Qed.

Lemma worker_START_PREFIX_TASK (st : packet) (rest : list packet) :
  MPI_TAG st = START_PREFIX_TASK ->
  let r := executeWorker (buffer st) (count st) (Worker.to_int phase2Depth)
                         PREFIX_MODE getNewSearch rest in
  worker (st :: rest) =
    if Worker.returns r
    then (Worker.emitted r ++ [send dummy KILL_COMP], Worker.Returned)
    else (Worker.emitted r, Worker.Executing).
Proof.
  intros Ht r. simp worker. rewrite Ht. reflexivity.
Qed.

Lemma worker_NORMAL_TASK (st : packet) (rest : list packet) :
  MPI_TAG st = NORMAL_TASK ->
  let r := executeWorker (buffer st) (count st) (Worker.to_int phase2Depth)
                         NO_MODE getNewSearch rest in
  worker (st :: rest) =
    if Worker.returns r
    then (Worker.emitted r ++ send dummy FINISH
            :: fst (worker (skipn (Worker.consumed r) rest)),
          snd (worker (skipn (Worker.consumed r) rest)))
    else (Worker.emitted r, Worker.Executing).
Proof.
  intros Ht r. simp worker. rewrite Ht. cbn.
  fold r. destruct (Worker.returns r); [|reflexivity].
  destruct (worker _); reflexivity.
Qed.

Lemma worker_OFFLOAD (st : packet) (rest : list packet) :
  MPI_TAG st = OFFLOAD ->
  worker (st :: rest) =
    if Worker.recv_fails (Worker.count_int st) (count st / 4)
    then ([], Worker.Aborted)
    else if 1 <? Worker.count_int st then ([], Worker.Overrun)
    else (send ["x"%byte] OFFLOAD_RESP :: fst (worker rest),
          snd (worker rest)).
Proof.
  intros Ht. simp worker. rewrite Ht. cbn.
  destruct (Worker.recv_fails _ _); [reflexivity|].
  destruct (1 <? _); [reflexivity|].
  destruct (worker rest); reflexivity.
Qed.

End WorkerFacts.

Lemma count_nonneg (p : packet) : 0 <= count p.
Proof. unfold count. lia. Qed.

(** The receive of the KILL branch fails exactly when the message is
    longer than [phase1Depth], taken as an [int]. *)
Lemma recv_fails_lt (n : Z) (p : packet) :
  Worker.recv_fails n (count p) = true <-> n < count p.
Proof.
  unfold Worker.recv_fails. pose proof (count_nonneg p).
  rewrite orb_true_iff, !Z.ltb_lt. lia.
Qed.

(** The receive of the OFFLOAD branch fails exactly when the message
    is not a whole number of ints. *)
Lemma recv_fails_count_int (p : packet) :
  Worker.recv_fails (Worker.count_int p) (count p / 4) = true
  <-> count p mod 4 <> 0.
Proof.
  unfold Worker.recv_fails, Worker.count_int, Worker.MPI_UNDEFINED.
  pose proof (count_nonneg p).
  destruct (Z.eqb_spec (count p mod 4) 0) as [E|E].
  - rewrite orb_true_iff, !Z.ltb_lt.
    pose proof (Z.div_pos (count p) 4 ltac:(lia) ltac:(lia)). lia.
  - cbn. tauto.
Qed.

Example worker_prefix_then_more :
  Worker.worker 2 2 5 "DFS" quiet_run
    [mkPacket 0 2 START_PREFIX_TASK [x00; x01]; mkPacket 0 2 OFFLOAD dummy]
  = ([mkPacket 2 0 KILL_COMP dummy], Worker.Returned).
Proof. reflexivity. Qed.

(** ** C10: an Offload request met by the top-level loop *)


(** ** C1: the end of a prefix task *)

(** The claim of C1 at one input: rank 2 receives a prefix task, the
    interpreter run ends by itself, and an OFFLOAD request follows.  The
    worker sends no FINISH, its only packet is KILL_COMP, and it has
    returned instead of answering the request. *)
Lemma C1_counterexample :
  let w := Worker.worker 2 2 5 "DFS" quiet_run
             [mkPacket 0 2 START_PREFIX_TASK [x00; x01];
              mkPacket 0 2 OFFLOAD dummy] in
  ~ In FINISH (map MPI_TAG (fst w))
  /\ map MPI_TAG (fst w) = [KILL_COMP]
  /\ snd w = Worker.Returned.
Proof.
  cbv zeta. rewrite worker_prefix_then_more. cbn.
  split; [|split; reflexivity].
  intros [H|[]]. discriminate H.
Qed.

(** C1 (amended).  When a worker receives a START_PREFIX_TASK message and
    the [executeWorker] call returns, the worker's own send is one
    KILL_COMP to the master, after whatever the interpreter sent, and
    the worker returns from its loop: later messages are not received. *)
Theorem C1_prefix_task_ends_with_KILL_COMP :
  forall (world_rank phase1Depth phase2Depth : Z) (searchPolicy : string)
         (executeWorker : list byte -> Z -> Z -> Z -> string -> list packet
                          -> Worker.run)
         (st : packet) (rest : list packet),
    MPI_TAG st = START_PREFIX_TASK ->
    let r := executeWorker (buffer st) (count st)
               (Worker.to_int phase2Depth) PREFIX_MODE
               (Worker.getNewSearch searchPolicy) rest in
    Worker.returns r = true ->
    Worker.worker world_rank phase1Depth phase2Depth searchPolicy
                  executeWorker (st :: rest)
    = (Worker.emitted r ++ [mkPacket world_rank MASTER_NODE KILL_COMP dummy],
       Worker.Returned).
Proof.
  intros wr d1 d2 sp ex st rest Ht r Hr.
  rewrite worker_START_PREFIX_TASK by exact Ht.
  fold r. rewrite Hr. reflexivity.
Qed.

(** The amended C1 at rank 3 with a quiet interpreter. *)
Lemma C1_prefix_task_ends_with_KILL_COMP_witness :
  Worker.worker 3 3 7 "BFS" quiet_run
    [mkPacket 0 3 START_PREFIX_TASK [x01; x00; x01];
     mkPacket 0 3 KILL dummy]
  = ([] ++ [mkPacket 3 MASTER_NODE KILL_COMP dummy], Worker.Returned).
Proof.
  apply (C1_prefix_task_ends_with_KILL_COMP 3 3 7 "BFS" quiet_run
           (mkPacket 0 3 START_PREFIX_TASK [x01; x00; x01])
           [mkPacket 0 3 KILL dummy]); reflexivity.
Defined.

(** ** C2: Kill met by the top-level loop *)

(** C2 (evaluation).  A worker that probes KILL in its top-level loop
    has sent nothing when it leaves the loop: it returns when the
    message fits the [phase1Depth] characters it receives, and its
    receive fails, which ends the job, when it does not.  Two runs show
    what the master then waits for.  With [phase1Depth == 0] on three
    processes and a quiet interpreter, rank 2 is sent NORMAL_TASK and
    then KILL, answers with FINISH alone and fails to receive the
    KILL; the master, fed with what rank 2 sent, is in its receive of
    KILL_COMP from rank 2.  With one prefix of two branches on five
    processes and [lb] off, ranks 3 and 4 are sent KILL at seeding and
    again at shutdown, return on the first and send nothing; rank 2,
    whose interpreter reports FINISH and returns on the KILL, sends
    KILL_COMP; the master stays blocked in its receive of KILL_COMP
    from rank 3. *)
Theorem C2_idle_kill_sends_no_KILL_COMP :
  (forall (world_rank phase1Depth phase2Depth : Z) (searchPolicy : string)
          (executeWorker : list byte -> Z -> Z -> Z -> string -> list packet
                           -> Worker.run)
          (src dst : Z) (buf : list byte) (rest : list packet),
      Worker.worker world_rank phase1Depth phase2Depth searchPolicy
                    executeWorker (mkPacket src dst KILL buf :: rest)
      = ([], if Worker.to_int phase1Depth <? Z.of_nat (List.length buf)
             then Worker.Aborted else Worker.Returned))
  /\ (let to_rank2 := [mkPacket 0 2 NORMAL_TASK dummy;
                       mkPacket 0 2 KILL dummy] in
      let w := Worker.worker 2 0 5 "DFS" quiet_run to_rank2 in
      let m := Master.master_normal_mode (map Some (fst w)) in
      w = ([mkPacket 2 0 FINISH dummy], Worker.Aborted)
      /\ Master.outbox (Master.state_of m) = to_rank2
      /\ m = Master.AwaitingKillComp 2 (Master.state_of m))
  /\ (let w2 := Worker.worker 2 2 5 "DFS" finishing_run
                  [mkPacket 0 2 START_PREFIX_TASK P1;
                   mkPacket 0 2 KILL dummy] in
      let w3 := Worker.worker 3 2 5 "DFS" quiet_run
                  [mkPacket 0 3 KILL dummy; mkPacket 0 3 KILL dummy] in
      let m := master_prefix_mode 5 false [P1]
                 (map Some (fst w2 ++ fst w3)) in
      fst w2 = [mkPacket 2 0 FINISH dummy; mkPacket 2 0 KILL_COMP dummy]
      /\ w3 = ([], Worker.Returned)
      /\ wire (state_of m)
         = [(2, START_PREFIX_TASK); (3, KILL); (4, KILL);
            (2, KILL); (3, KILL); (4, KILL)]
      /\ m = AwaitingKillComp 3 (state_of m)).
Proof.
  split; [|split].
  - intros. rewrite worker_KILL by reflexivity.
    destruct (Worker.recv_fails _ _) eqn:Ef.
    + apply recv_fails_lt in Ef. apply Z.ltb_lt in Ef.
      unfold count in Ef. cbn [buffer] in Ef. rewrite Ef. reflexivity.
    + destruct (Z.ltb_spec (Worker.to_int phase1Depth)
                           (Z.of_nat (List.length buf))) as [Hlt|_];
        [|reflexivity].
      apply (recv_fails_lt _ (mkPacket src dst KILL buf)) in Hlt.
      rewrite Hlt in Ef. discriminate Ef.
  - cbv zeta. splits; reflexivity.
  - cbv zeta. splits; vm_compute; reflexivity.
Qed.

(** * Properties of the master *)

(** ** Projections through the state updates *)

Lemma write_log_cnt t a s : cnt (write_log t a s) = cnt s.
Proof. unfold write_log. destruct (logOpen s); reflexivity. Qed.

Lemma write_log_freeList t a s : freeList (write_log t a s) = freeList s.
Proof. unfold write_log. destruct (logOpen s); reflexivity. Qed.

Lemma write_log_busyList t a s : busyList (write_log t a s) = busyList s.
Proof. unfold write_log. destruct (logOpen s); reflexivity. Qed.

Lemma write_log_offloadActiveList t a s :
  offloadActiveList (write_log t a s) = offloadActiveList s.
Proof. unfold write_log. destruct (logOpen s); reflexivity. Qed.

Lemma write_log_offloadReadyList t a s :
  offloadReadyList (write_log t a s) = offloadReadyList s.
Proof. unfold write_log. destruct (logOpen s); reflexivity. Qed.

Lemma write_log_offloadActive t a s :
  offloadActive (write_log t a s) = offloadActive s.
Proof. unfold write_log. destruct (logOpen s); reflexivity. Qed.

Lemma write_log_outbox t a s : outbox (write_log t a s) = outbox s.
Proof. unfold write_log. destruct (logOpen s); reflexivity. Qed.

Create Rewrite HintDb master.

#[local] Hint Rewrite write_log_cnt write_log_freeList write_log_busyList
  write_log_offloadActiveList write_log_offloadReadyList
  write_log_offloadActive write_log_outbox : master.

Ltac proj :=
  repeat (autorewrite with master;
          cbn [cnt freeList busyList offloadActiveList offloadReadyList
               offloadActive outbox masterLog logOpen
               set_cnt set_freeList set_busyList set_offloadActiveList
               set_offloadReadyList set_offloadActive MPI_Send close_log
               state_of]).

(** ** The erase loops *)

Lemma found_In x l : found x l = true <-> In x l.
Proof.
  unfold found. rewrite existsb_exists. split.
  - intros [y [Hy He]]. apply Z.eqb_eq in He. now subst.
  - intros H. exists x. split; [assumption | apply Z.eqb_refl].
Qed.

Lemma erase_first_absent x l : ~ In x l -> erase_first x l = l.
Proof.
  induction l as [|y l IH]; simpl; intros H; [reflexivity|].
  destruct (Z.eqb_spec y x) as [->|_].
  - exfalso. apply H. now left.
  - f_equal. apply IH. intros Hin. apply H. now right.
Qed.

Lemma erase_first_length x l :
  In x l -> S (List.length (erase_first x l)) = List.length l.
Proof.
  induction l as [|y l IH]; simpl; intros H; [contradiction|].
  destruct (Z.eqb_spec y x) as [->|Hne]; [reflexivity|].
  simpl. f_equal. apply IH. destruct H as [H|H]; [contradiction|assumption].
Qed.



Lemma erase_first_le x l :
  (List.length (erase_first x l) <= List.length l)%nat.
Proof.
  induction l as [|y l IH]; simpl; [lia|].
  destruct (y =? x); simpl; lia.
Qed.

(** ** Counting loops *)

Lemma ranks_from_length x n : List.length (ranks_from x n) = n.
Proof. revert x. induction n; simpl; intros; [reflexivity|]. now rewrite IHn. Qed.

Lemma ranks_from_In x n r :
  In r (ranks_from x n) <-> x <= r < x + Z.of_nat n.
Proof.
  revert x. induction n as [|n IH]; intros x.
  - simpl. lia.
  - cbn [ranks_from In]. rewrite IH. lia.
Qed.

Lemma ranks_from_app x n m :
  ranks_from x (n + m) = ranks_from x n ++ ranks_from (x + Z.of_nat n) m.
Proof.
  revert x. induction n as [|n IH]; intros x.
  - simpl. now rewrite Z.add_0_r.
  - cbn [Nat.add ranks_from app]. rewrite IH.
    replace (x + Z.of_nat (S n)) with (x + 1 + Z.of_nat n) by lia.
    reflexivity.
Qed.

Lemma ranks_from_seq n :
  ranks_from 2 n = map Z.of_nat (seq 2 n).
Proof.
  change 2 with (Z.of_nat 2) at 1. generalize 2%nat as a.
  induction n as [|n IH]; intros a; simpl; [reflexivity|].
  f_equal. rewrite <- IH. f_equal. lia.
Qed.

Lemma task_packets_app wl c rs1 rs2 :
  task_packets wl c (rs1 ++ rs2)
  = task_packets wl c rs1
      ++ task_packets wl (c + Z.of_nat (List.length rs1)) rs2.
Proof.
  revert c. induction rs1 as [|r rs1 IH]; intros c.
  - simpl. now rewrite Z.add_0_r.
  - cbn [app task_packets List.length]. rewrite IH.
    replace (c + Z.of_nat (S (List.length rs1)))
      with (c + 1 + Z.of_nat (List.length rs1)) by lia.
    reflexivity.
Qed.

Lemma task_packets_dest wl c rs : map dest (task_packets wl c rs) = rs.
Proof.
  revert c. induction rs as [|r rs IH]; intros c; simpl; [reflexivity|].
  now rewrite IH.
Qed.

Lemma task_packets_prefix wl c rs :
  prefix_tasks (task_packets wl c rs) = task_packets wl c rs.
Proof.
  revert c. induction rs as [|r rs IH]; intros c; simpl; [reflexivity|].
  unfold prefix_tasks in IH. now rewrite IH.
Qed.

Lemma skipn_nth_cons (wl : list (list byte)) (c : nat) :
  (c < List.length wl)%nat -> skipn c wl = nth c wl [] :: skipn (S c) wl.
Proof.
  revert c. induction wl as [|w wl IH]; intros c H; simpl in H; [lia|].
  destruct c as [|c]; [reflexivity|].
  cbn [skipn nth]. apply IH. lia.
Qed.

Lemma task_packets_buffer wl c rs :
  0 <= c ->
  c + Z.of_nat (List.length rs) <= Z.of_nat (List.length wl) ->
  map buffer (task_packets wl c rs)
  = firstn (List.length rs) (skipn (Z.to_nat c) wl).
Proof.
  revert c. induction rs as [|r rs IH]; intros c Hc Hle; [reflexivity|].
  cbn [task_packets map List.length buffer] in *.
  rewrite skipn_nth_cons by lia.
  cbn [firstn]. unfold workList_at. f_equal.
  rewrite IH by lia. do 2 f_equal. lia.
Qed.

(** ** Seeding *)

Section SeedingFacts.

Variable num_cores : Z.
Variable lb : bool.
Variable workList : list (list byte).

Local Abbreviation K := (pathSizes_size workList).

Lemma seed_loop_spec (n : nat) :
  forall (r : Z) (s : master_state),
    let rs := seed_loop workList n r s in
    fst rs = r + Z.of_nat n
    /\ cnt (snd rs) = cnt s + Z.of_nat n
    /\ freeList (snd rs) = freeList s
    /\ busyList (snd rs) = busyList s ++ ranks_from r n
    /\ offloadActiveList (snd rs) = offloadActiveList s
    /\ offloadReadyList (snd rs) = offloadReadyList s
    /\ offloadActive (snd rs) = offloadActive s
    /\ outbox (snd rs)
       = outbox s ++ task_packets workList (cnt s) (ranks_from r n).
Proof.
  induction n as [|n IH]; intros r s.
  - cbn. rewrite !app_nil_r. repeat split; lia.
  - cbn [seed_loop].
    destruct (IH (r + 1) (seed_worker workList r s))
      as (H1 & H2 & H3 & H4 & H5 & H6 & H7 & H8).
    cbv zeta. rewrite H1, H2, H3, H4, H5, H6, H7, H8.
    unfold seed_worker. proj.
    cbn [ranks_from task_packets]. rewrite <- !app_assoc. cbn [app].
    repeat split; try reflexivity; lia.
Qed.

Lemma spare_loop_spec (n : nat) :
  forall (r : Z) (s : master_state),
    let s' := spare_loop lb n r s in
    cnt s' = cnt s
    /\ freeList s' = freeList s ++ ranks_from r n
    /\ busyList s' = busyList s
    /\ offloadActiveList s' = offloadActiveList s
    /\ offloadReadyList s' = offloadReadyList s
    /\ offloadActive s' = offloadActive s
    /\ prefix_tasks (outbox s') = prefix_tasks (outbox s)
    /\ dests_with_tag KILL (outbox s')
       = dests_with_tag KILL (outbox s)
           ++ (if lb then [] else ranks_from r n).
Proof.
  induction n as [|n IH]; intros r s.
  - cbn. destruct lb; rewrite !app_nil_r; repeat split; reflexivity.
  - cbn [spare_loop].
    destruct (IH (r + 1) (spare_worker lb r s))
      as (H1 & H2 & H3 & H4 & H5 & H6 & H7 & H8).
    cbv zeta. rewrite H1, H2, H3, H4, H5, H6, H7, H8.
    unfold spare_worker, prefix_tasks, dests_with_tag.
    destruct lb; cbn [negb]; proj; cbn [ranks_from];
      rewrite <- ?app_assoc; cbn [app];
      rewrite ?filter_app, ?map_app; cbn; rewrite ?app_nil_r;
      rewrite <- ?app_assoc; repeat split; reflexivity.
Qed.

Lemma whileCnt_min :
  2 <= num_cores < 2 ^ 31 -> K < 2 ^ 31 ->
  whileCnt num_cores workList = Z.min (num_cores - 2) K.
Proof.
  intros HN HK. unfold whileCnt, size_t, to_int.
  assert (0 <= K) by (unfold pathSizes_size; lia).
  rewrite (Z.mod_small (num_cores - 2)) by lia.
  destruct (Z.ltb_spec (num_cores - 2) K).
  - lia.
  - replace ((K + 2 ^ 31) mod 2 ^ 32) with (K + 2 ^ 31)
      by (symmetry; apply Z.mod_small; lia).
    lia.
Qed.

(** What seeding leaves behind, from the state of [MASTER_START]. *)
Lemma seeding_spec :
  2 <= num_cores < 2 ^ 31 -> K < 2 ^ 31 ->
  let s := seeding num_cores lb workList initial_state in
  let m := Z.to_nat (Z.min (num_cores - 2) K) in
  let spare := ranks_from (2 + Z.of_nat m) (Z.to_nat (num_cores - 2) - m) in
  cnt s = Z.of_nat m
  /\ freeList s = spare
  /\ busyList s = ranks_from 2 m
  /\ offloadActiveList s = []
  /\ offloadReadyList s = []
  /\ offloadActive s = false
  /\ prefix_tasks (outbox s) = task_packets workList 0 (ranks_from 2 m)
  /\ dests_with_tag KILL (outbox s) = (if lb then [] else spare).
Proof.
  intros HN HK s m spare. subst s. unfold seeding.
  rewrite whileCnt_min by assumption.
  cbn [cnt initial_state]. rewrite Z.sub_0_r. fold m.
  pose proof (seed_loop_spec m 2 initial_state) as Hs.
  destruct (seed_loop workList m 2 initial_state) as [currRank s1].
  cbn [fst snd] in Hs.
  destruct Hs as (H1 & H2 & H3 & H4 & H5 & H6 & H7 & H8).
  assert (Hn : Z.to_nat (num_cores - currRank)
               = (Z.to_nat (num_cores - 2) - m)%nat) by (subst m; lia).
  rewrite Hn, H1. fold spare.
  pose proof (spare_loop_spec (Z.to_nat (num_cores - 2) - m)
                (2 + Z.of_nat m) s1) as Hp.
  cbv zeta in Hp.
  destruct Hp as (P1 & P2 & P3 & P4 & P5 & P6 & P7 & P8).
  rewrite P1, P2, P3, P4, P5, P6, P7, P8, H2, H3, H4, H5, H6, H7, H8.
  cbn [initial_state cnt freeList busyList offloadActiveList
       offloadReadyList offloadActive outbox app].
  unfold dests_with_tag.
  rewrite task_packets_prefix.
  replace (filter (has_tag KILL) (task_packets workList 0 (ranks_from 2 m)))
    with (@nil packet).
  - cbn [map app]. repeat split; reflexivity || lia.
  - generalize 0 (ranks_from 2 m). intros c rs. revert c.
    induction rs as [|r rs IH]; intros c; simpl; [reflexivity|apply IH].
Qed.

End SeedingFacts.

(** ** C7: workers left without an initial prefix *)

(** C7.  When phase 1 yields fewer prefixes than there are workers
    (K < W = N - 2), seeding puts exactly the ranks 2+K .. N-1 into
    [freeList], in rank order, and the KILL messages sent during
    seeding go to exactly those ranks when [lb] is off and to nobody
    when [lb] is on. *)
Theorem C7_spare_workers_enter_Free :
  forall (num_cores : Z) (lb : bool) (workList : list (list byte)),
    3 <= num_cores < 2 ^ 31 ->
    pathSizes_size workList < num_cores - 2 ->
    let K := pathSizes_size workList in
    let s := seeding num_cores lb workList initial_state in
    let spare := ranks_from (2 + K) (Z.to_nat (num_cores - 2 - K)) in
    freeList s = spare
    /\ dests_with_tag KILL (outbox s) = (if lb then [] else spare)
    /\ (forall r, In r (freeList s) <-> 2 + K <= r < num_cores)
    /\ (forall r, In r (dests_with_tag KILL (outbox s))
                  <-> lb = false /\ 2 + K <= r < num_cores).
Proof.
  intros N lb wl HN HK K s spare.
  assert (HK0 : 0 <= K) by (subst K; unfold pathSizes_size; lia).
  destruct (seeding_spec N lb wl ltac:(lia) ltac:(fold K; lia))
    as (_ & Hf & _ & _ & _ & _ & _ & Hk).
  fold s in Hf, Hk. fold K in Hf, Hk.
  replace (Z.of_nat (Z.to_nat (Z.min (N - 2) K))) with K in Hf, Hk by lia.
  replace (Z.to_nat (N - 2) - Z.to_nat (Z.min (N - 2) K))%nat
    with (Z.to_nat (N - 2 - K)) in Hf, Hk by lia.
  fold spare in Hf, Hk.
  split; [exact Hf|]. split; [exact Hk|]. split.
  - intros r. rewrite Hf. unfold spare. rewrite ranks_from_In. lia.
  - intros r. rewrite Hk. destruct lb.
    + simpl. split; [contradiction|]. intros [H _]. discriminate H.
    + unfold spare. rewrite ranks_from_In. split.
      * intros H. split; [reflexivity|lia].
      * intros [_ H]. lia.
Qed.

(** C7 on five processes with one prefix and [lb] off. *)
Lemma C7_spare_workers_enter_Free_witness :
  let s := seeding 5 false [[x00; x01]] initial_state in
  freeList s = [3; 4]
  /\ dests_with_tag KILL (outbox s) = [3; 4]
  /\ (forall r, In r (freeList s) <-> 2 + 1 <= r < 5)
  /\ (forall r, In r (dests_with_tag KILL (outbox s))
                <-> false = false /\ 2 + 1 <= r < 5).
Proof.
  apply (C7_spare_workers_enter_Free 5 false [[x00; x01]]).
  - lia.
  - reflexivity.
Defined.

(** ** The dispatch loop *)

Section DispatchFacts.

Variable num_cores : Z.
Variable workList : list (list byte).

Local Abbreviation K := (pathSizes_size workList).

Lemma kill_loop_spec (xs : list Z) :
  forall s : master_state,
    let s' := fold_left (fun s' x => MPI_Send dummy x KILL s') xs s in
    cnt s' = cnt s
    /\ freeList s' = freeList s
    /\ busyList s' = busyList s
    /\ offloadActiveList s' = offloadActiveList s
    /\ offloadReadyList s' = offloadReadyList s
    /\ offloadActive s' = offloadActive s
    /\ outbox s'
       = outbox s ++ map (fun x => mkPacket MASTER_NODE x KILL dummy) xs.
Proof.
  induction xs as [|x xs IH]; intros s.
  - cbn. rewrite app_nil_r. repeat split; reflexivity.
  - cbn [fold_left]. destruct (IH (MPI_Send dummy x KILL s))
      as (H1 & H2 & H3 & H4 & H5 & H6 & H7).
    cbv zeta. rewrite H1, H2, H3, H4, H5, H6, H7. proj.
    rewrite <- app_assoc. repeat split; reflexivity.
Qed.

Lemma no_prefix_task_among_kills (xs : list Z) :
  filter (has_tag START_PREFIX_TASK)
         (map (fun x => mkPacket MASTER_NODE x KILL dummy) xs) = [].
Proof. induction xs as [|x xs IH]; [reflexivity|exact IH]. Qed.

Lemma kill_all_prefix_tasks (s : master_state) :
  prefix_tasks (outbox (kill_all num_cores s)) = prefix_tasks (outbox s).
Proof.
  unfold kill_all.
  destruct (kill_loop_spec (worker_ranks num_cores) s)
    as (_ & _ & _ & _ & _ & _ & H).
  rewrite H. unfold prefix_tasks. rewrite filter_app.
  rewrite no_prefix_task_among_kills. apply app_nil_r.
Qed.

Lemma kill_all_cnt (s : master_state) : cnt (kill_all num_cores s) = cnt s.
Proof.
  unfold kill_all. apply (kill_loop_spec (worker_ranks num_cores) s).
Qed.

(** One received message in the dispatch loop: FINISH hands out
    [workList[cnt]] to its sender and advances [cnt]; nothing else sends
    a prefix or moves [cnt]. *)
Lemma dispatch_step_spec (status : packet) (s : master_state) :
  let o := dispatch_step num_cores workList status s in
  let s' := state_of o in
  if MPI_TAG status =? FINISH then
    o = Continue s'
    /\ cnt s' = cnt s + 1
    /\ prefix_tasks (outbox s')
       = prefix_tasks (outbox s)
           ++ task_packets workList (cnt s) [MPI_SOURCE status]
  else
    cnt s' = cnt s /\ prefix_tasks (outbox s') = prefix_tasks (outbox s).
Proof.
  cbv zeta. unfold dispatch_step.
  destruct (MPI_TAG status =? FINISH).
  - proj. unfold prefix_tasks. rewrite filter_app. cbn.
    repeat split; reflexivity.
  - destruct (MPI_TAG status =? BUG_FOUND).
    + cbn [state_of]. rewrite kill_all_prefix_tasks, kill_all_cnt. proj.
      split; reflexivity.
    + destruct (MPI_TAG status =? READY_TO_OFFLOAD);
        [proj; split; reflexivity|].
      destruct (MPI_TAG status =? NOT_READY_TO_OFFLOAD);
        [|proj; split; reflexivity].
      destruct (found _ _); proj; split; reflexivity.
Qed.

Lemma dispatch_loop_done (inbox : arrivals) (s : master_state) :
  (size_t (cnt s) <? K) = false ->
  dispatch_loop num_cores workList inbox s = (Continue s, inbox).
Proof. intros H. destruct inbox as [|[p|] rest]; simpl; rewrite H; reflexivity. Qed.

Lemma size_t_cnt (s : master_state) :
  0 <= cnt s <= K -> K < 2 ^ 64 -> size_t (cnt s) = cnt s.
Proof. intros. unfold size_t. apply Z.mod_small. lia. Qed.

(** The loop hands out [workList[cnt]], [workList[cnt+1]], ... to the
    ranks whose FINISH it receives, in the order of arrival, and leaves
    with [Continue] only once [cnt] has reached [pathSizes.size()]. *)
Lemma dispatch_loop_spec (inbox : arrivals) :
  forall s : master_state,
    0 <= cnt s <= K -> K < 2 ^ 64 ->
    let r := dispatch_loop num_cores workList inbox s in
    let s' := state_of (fst r) in
    exists k : nat,
      cnt s' = cnt s + Z.of_nat k
      /\ cnt s' <= K
      /\ (k <= List.length (finishers inbox))%nat
      /\ prefix_tasks (outbox s')
         = prefix_tasks (outbox s)
             ++ task_packets workList (cnt s) (firstn k (finishers inbox))
      /\ ((exists s'', fst r = Continue s'') -> cnt s' = K).
Proof.
  induction inbox as [|[p|] rest IH]; intros s Hc HK; cbv zeta;
    pose proof (size_t_cnt s Hc HK) as Hsz;
    (destruct (Z.ltb_spec (size_t (cnt s)) K) as [Hlt|Hge];
     [|rewrite dispatch_loop_done
         by (apply Z.ltb_ge; exact Hge);
       exists 0%nat; cbn [fst state_of firstn task_packets];
       rewrite app_nil_r; repeat split; lia]).
  - cbn [dispatch_loop]. apply Z.ltb_lt in Hlt. rewrite Hlt.
    exists 0%nat. cbn. rewrite app_nil_r.
    repeat split; try lia. intros [s'' H]. discriminate H.
  - cbn [dispatch_loop]. pose proof Hlt as Hlt'.
    apply Z.ltb_lt in Hlt'. rewrite Hlt'.
    pose proof (dispatch_step_spec p s) as Hstep. cbv zeta in Hstep.
    cbn [finishers].
    destruct (MPI_TAG p =? FINISH).
    + destruct Hstep as (Ho & Hcnt & Hout). rewrite Ho.
      destruct (IH (state_of (dispatch_step num_cores workList p s))
                   ltac:(lia) HK) as (k & H1 & H2 & H3 & H4 & H5).
      exists (S k). cbn [firstn List.length].
      rewrite H4, Hout. cbn [task_packets]. rewrite <- app_assoc.
      cbn [app]. rewrite Hcnt.
      repeat split; try lia. exact H5.
    + destruct Hstep as (Hcnt & Hout).
      destruct (dispatch_step num_cores workList p s) as [s1| | | | |] eqn:E;
        cbn [state_of] in Hcnt, Hout;
        [|exists 0%nat; cbn [fst state_of firstn task_packets];
          rewrite app_nil_r; splits; try lia; try assumption;
          intros [s'' H]; discriminate H ..].
      destruct (IH s1 ltac:(lia) HK) as (k & H1 & H2 & H3 & H4 & H5).
      exists k. rewrite H4, Hout, Hcnt.
      splits; try lia; try reflexivity. exact H5.
  - cbn [dispatch_loop]. apply Z.ltb_lt in Hlt. rewrite Hlt.
    cbn [finishers]. apply IH; assumption.
Qed.

Lemma dispatch_step_benign (p : packet) (s : master_state) :
  benign (Some p) ->
  exists s', dispatch_step num_cores workList p s = Continue s'.
Proof.
  unfold dispatch_step. intros [H|[H|H]]; rewrite H; cbn; eexists; reflexivity.
Qed.

(** With only such arrivals and enough FINISH among them the loop runs
    to its end. *)
Lemma dispatch_loop_completes (inbox : arrivals) :
  forall s : master_state,
    0 <= cnt s <= K -> K < 2 ^ 64 ->
    Forall benign inbox ->
    K - cnt s <= Z.of_nat (List.length (finishers inbox)) ->
    exists s', fst (dispatch_loop num_cores workList inbox s) = Continue s'.
Proof.
  induction inbox as [|[p|] rest IH]; intros s Hc HK Hb Hn;
    pose proof (size_t_cnt s Hc HK) as Hsz;
    (destruct (Z.ltb_spec (size_t (cnt s)) K) as [Hlt|Hge];
     [|rewrite dispatch_loop_done by (apply Z.ltb_ge; exact Hge);
       exists s; reflexivity]).
  - cbn in Hn. lia.
  - cbn [dispatch_loop]. pose proof Hlt as Hlt'.
    apply Z.ltb_lt in Hlt'. rewrite Hlt'.
    inversion Hb as [|a l Hp Hrest]; subst.
    destruct (dispatch_step_benign p s Hp) as [s1 E].
    pose proof (dispatch_step_spec p s) as Hstep. cbv zeta in Hstep.
    rewrite E in *. cbn [state_of] in Hstep.
    cbn [finishers] in Hn.
    destruct (MPI_TAG p =? FINISH).
    + destruct Hstep as (_ & Hcnt & _). cbn [List.length] in Hn.
      apply IH; try assumption; lia.
    + destruct Hstep as (Hcnt & _). apply IH; try assumption; lia.
  - cbn [dispatch_loop]. apply Z.ltb_lt in Hlt. rewrite Hlt.
    inversion Hb; subst. apply IH; assumption.
Qed.

End DispatchFacts.

(** ** C6: every phase-1 prefix is handed out once, in order *)

(** C6.  Take any sequence of arrivals and look at the master when its
    dispatch loop has stopped consuming them, with [n] the value of
    [cnt] and [m = min(W, K)].  The START_PREFIX_TASK packets sent so
    far carry [workList[0] .. workList[n-1]], one packet each and in
    that order; the first [m] went to ranks 2, 3, ... in rank order at
    seeding and each later one to the sender of the next FINISH
    received.  When the loop is left normally all [K] prefixes have been
    sent, so the payloads sent are exactly [workList]; and the loop is
    left normally whenever the arrivals hold at least [K - m] FINISH
    and otherwise only BUG_FOUND and READY_TO_OFFLOAD. *)
Theorem C6_every_prefix_dispatched_once_in_order :
  forall (num_cores : Z) (lb : bool) (workList : list (list byte))
         (inbox : arrivals),
    3 <= num_cores < 2 ^ 31 ->
    pathSizes_size workList < 2 ^ 31 ->
    let r := dispatch_loop num_cores workList inbox
               (seeding num_cores lb workList initial_state) in
    let s := state_of (fst r) in
    let tasks := prefix_tasks (outbox s) in
    let n := Z.to_nat (cnt s) in
    let m := Z.to_nat (Z.min (num_cores - 2) (pathSizes_size workList)) in
    (m <= n <= List.length workList)%nat
    /\ map buffer tasks = firstn n workList
    /\ map dest tasks = firstn n (ranks_from 2 m ++ finishers inbox)
    /\ ((exists s', fst r = Continue s') -> map buffer tasks = workList)
    /\ (Forall benign inbox ->
        (List.length workList - m <= List.length (finishers inbox))%nat ->
        exists s', fst r = Continue s').
Proof.
  intros N lb wl inbox HN HK r s tasks n m.
  set (K := pathSizes_size wl) in *.
  assert (HK0 : K = Z.of_nat (List.length wl)) by reflexivity.
  destruct (seeding_spec N lb wl ltac:(lia) HK)
    as (Sc & _ & _ & _ & _ & _ & Sp & _).
  fold K in Sc, Sp. fold m in Sc, Sp.
  set (s0 := seeding N lb wl initial_state) in *.
  assert (Hc0 : 0 <= cnt s0 <= K) by (rewrite Sc; subst m; lia).
  assert (HK64 : K < 2 ^ 64) by lia.
  destruct (dispatch_loop_spec N wl inbox s0 Hc0 HK64)
    as (k & H1 & H2 & H3 & H4 & H5).
  fold r in H1, H2, H4, H5. fold s in H1, H2, H4.
  rewrite Sc in H1, H4. rewrite Sp in H4.
  assert (Hn : n = (m + k)%nat) by (subst n; lia).
  assert (Hlen : List.length (ranks_from 2 m ++ firstn k (finishers inbox))
                 = n).
  { rewrite length_app, ranks_from_length, length_firstn. lia. }
  assert (Htasks : tasks
            = task_packets wl 0 (ranks_from 2 m ++ firstn k (finishers inbox))).
  { subst tasks. rewrite H4, task_packets_app, ranks_from_length.
    reflexivity. }
  assert (Hbuf : map buffer tasks = firstn n wl).
  { rewrite Htasks, task_packets_buffer by (rewrite ?Hlen; lia).
    rewrite Hlen. reflexivity. }
  split; [lia|]. split; [exact Hbuf|]. split; [|split].
  - rewrite Htasks, task_packets_dest, Hn.
    pose proof (firstn_app_2 k (ranks_from 2 m) (finishers inbox)) as E.
    rewrite ranks_from_length in E. rewrite E. reflexivity.
  - intros Hcont. rewrite Hbuf.
    apply firstn_all2. specialize (H5 Hcont). fold s in H5. lia.
  - intros Hb Hf.
    apply (dispatch_loop_completes N wl inbox s0 Hc0 HK64 Hb).
    rewrite Sc. lia.
Qed.

(** C6 on four processes with three prefixes (scenario S2). *)
Lemma C6_every_prefix_dispatched_once_in_order_witness :
  let inbox := [Some (mkPacket 3 0 FINISH dummy);
                Some (mkPacket 2 0 READY_TO_OFFLOAD dummy)] in
  let workList := [[x00; x00]; [x00; x01]; [x01; x00]] in
  let r := dispatch_loop 4 workList inbox
             (seeding 4 false workList initial_state) in
  let tasks := prefix_tasks (outbox (state_of (fst r))) in
  let n := Z.to_nat (cnt (state_of (fst r))) in
  let m := Z.to_nat (Z.min (4 - 2) (pathSizes_size workList)) in
  (m <= n <= List.length workList)%nat
  /\ map buffer tasks = firstn n workList
  /\ map dest tasks = firstn n (ranks_from 2 m ++ finishers inbox)
  /\ ((exists s', fst r = Continue s') -> map buffer tasks = workList)
  /\ (Forall benign inbox ->
      (List.length workList - m <= List.length (finishers inbox))%nat ->
      exists s', fst r = Continue s').
Proof.
  apply (C6_every_prefix_dispatched_once_in_order 4 false
           [[x00; x00]; [x00; x01]; [x01; x00]]
           [Some (mkPacket 3 0 FINISH dummy);
            Some (mkPacket 2 0 READY_TO_OFFLOAD dummy)]).
  - lia.
  - reflexivity.
Defined.

Example dispatch_S2 :
  let workList := [[x00; x00]; [x00; x01]; [x01; x00]] in
  let r := dispatch_loop 4 workList
             [Some (mkPacket 3 0 FINISH dummy);
              Some (mkPacket 2 0 READY_TO_OFFLOAD dummy)]
             (seeding 4 false workList initial_state) in
  map (fun p => (dest p, buffer p)) (outbox (state_of (fst r)))
  = [(2, [x00; x00]); (3, [x00; x01]); (3, [x01; x00])]
  /\ snd r = [Some (mkPacket 2 0 READY_TO_OFFLOAD dummy)].
Proof. split; reflexivity. Qed.

(** * Control messages at the master *)

Lemma kill_all_outbox (num_cores : Z) (s : master_state) :
  outbox (kill_all num_cores s) = outbox s ++ kill_packets num_cores.
Proof.
  unfold kill_all. apply (kill_loop_spec (worker_ranks num_cores) s).
Qed.

(** In the event loop BUG_FOUND ends the run at once: the log is
    closed after the elapsed-time line and [MPI_Abort] is called,
    nothing is sent. *)
Lemma handle_event_BUG_FOUND (num_cores src dst : Z) (buf : list byte)
      (rest : arrivals) (s : master_state) :
  exists s',
    handle_event num_cores (mkPacket src dst BUG_FOUND buf) rest s = Aborted s'
    /\ outbox s' = outbox s
    /\ logOpen s' = false
    /\ (logOpen s = true ->
        masterLog s' = masterLog s
                         ++ [mkLog "WORKER->MASTER:  BUG FOUND:" [src];
                             mkLog "Elapsed: " []]).
Proof.
  eexists. split; [reflexivity|]. unfold write_log.
  destruct (logOpen s) eqn:E; cbn; rewrite ?E; cbn;
    repeat split; try reflexivity; try discriminate.
  intros _. rewrite <- app_assoc. reflexivity.
Qed.

(** In the event loop TIMEOUT sends KILL to every worker rank, then
    waits for their KILL_COMP and aborts. *)
Lemma handle_event_TIMEOUT (num_cores src dst : Z) (buf : list byte)
      (rest : arrivals) (s : master_state) :
  let o := handle_event num_cores (mkPacket src dst TIMEOUT buf) rest s in
  outbox (state_of o) = outbox s ++ kill_packets num_cores
  /\ match collect_KILL_COMP (worker_ranks num_cores) rest with
     | None => o = Aborted (state_of o)
     | Some x => o = AwaitingKillComp x (state_of o)
     end.
Proof.
  cbv zeta. unfold handle_event, collect_and_abort. cbn [MPI_TAG].
  change (TIMEOUT =? BUG_FOUND) with false.
  change (TIMEOUT =? FINISH) with false.
  change (TIMEOUT =? TIMEOUT) with true. cbv iota.
  destruct (collect_KILL_COMP _ rest); cbn [state_of];
    rewrite kill_all_outbox; split; reflexivity.
Qed.

(** ** C3: BUG_FOUND while prefixes are pending *)

(** C3 (evaluation).  In the dispatch loop a BUG_FOUND message makes
    the master send KILL to every worker and then go on with the loop:
    the step returns [Continue] with [cnt] unchanged.  On four
    processes with three prefixes, BUG_FOUND from rank 2 followed by
    FINISH from rank 3 ends with the third prefix sent to rank 3 after
    the two KILLs, and the master still running, in its event loop. *)
Theorem C3_dispatch_loop_goes_on_after_BUG_FOUND :
  (forall (num_cores : Z) (workList : list (list byte)) (src dst : Z)
          (buf : list byte) (s : master_state),
      exists s',
        dispatch_step num_cores workList (mkPacket src dst BUG_FOUND buf) s
          = Continue s'
        /\ cnt s' = cnt s
        /\ outbox s' = outbox s ++ kill_packets num_cores)
  /\ (let m := master_prefix_mode 4 false [P1; P2; P3]
                 [from 2 BUG_FOUND; from 3 FINISH] in
      m = Pending (state_of m)
      /\ wire (state_of m)
         = [(2, START_PREFIX_TASK); (3, START_PREFIX_TASK);
            (2, KILL); (3, KILL); (3, START_PREFIX_TASK)]
      /\ map buffer (prefix_tasks (outbox (state_of m))) = [P1; P2; P3]).
Proof.
  split.
  - intros. eexists. split; [reflexivity|].
    rewrite kill_all_cnt, kill_all_outbox. proj. split; reflexivity.
  - cbv zeta. split; [|split]; vm_compute; reflexivity.
Qed.

(** ** C4: TIMEOUT while prefixes are pending *)

(** C4 (evaluation).  In the dispatch loop a TIMEOUT message reaches the
    final [else]: the illegal-tag assertion fails and nothing is sent.
    On four processes with three prefixes, a TIMEOUT from rank 1 that
    arrives before any FINISH stops the master there; no KILL has been
    sent. *)
Theorem C4_TIMEOUT_in_dispatch_loop_fails_assertion :
  (forall (num_cores : Z) (workList : list (list byte)) (src dst : Z)
          (buf : list byte) (s : master_state),
      dispatch_step num_cores workList (mkPacket src dst TIMEOUT buf) s
        = AssertFailed "ok && MASTER received an illegal tag" s)
  /\ (let m := master_prefix_mode 4 false [P1; P2; P3]
                 (map Some timeOutCheck) in
      m = AssertFailed "ok && MASTER received an illegal tag" (state_of m)
      /\ wire (state_of m) = [(2, START_PREFIX_TASK); (3, START_PREFIX_TASK)]
      /\ dests_with_tag KILL (outbox (state_of m)) = []).
Proof.
  split.
  - intros. reflexivity.
  - cbv zeta. split; [|split]; vm_compute; reflexivity.
Qed.

(** ** C5: OFFLOAD_RESP and the free list *)

(** The claim of C5 at one input: four processes, two prefixes, both
    workers busy and [freeList] empty when rank 2 delivers an
    OFFLOAD_RESP of five bytes.  The master does not discard the
    payload and go on: the assertion on [freeList.size()] fails. *)
Lemma C5_counterexample :
  let m := master_prefix_mode 4 true [P1; P2]
             [Some (mkPacket 2 0 OFFLOAD_RESP [x00; x01; x00; x01; x01])] in
  freeList (state_of m) = []
  /\ m = AssertFailed "freeList.size() > 0" (state_of m)
  /\ (forall s, m <> Continue s)
  /\ (forall s, m <> Pending s).
Proof.
  cbv zeta. split; [|split; [|split]].
  - vm_compute. reflexivity.
  - vm_compute. reflexivity.
  - intros s. vm_compute. discriminate.
  - intros s. vm_compute. discriminate.
Qed.

(** C5 (amended).  On OFFLOAD_RESP from [src] the master erases the
    first occurrence of [src] from [offloadActiveList].  If the payload
    is longer than 4 and [freeList] is empty, the assertion
    [freeList.size() > 0] fails, with nothing sent and the
    [offloadActive] flag as it was.  If the payload is longer than 4
    and [freeList] is [v :: f], the payload is sent as
    START_PREFIX_TASK to [v], [v] moves from the front of [freeList] to
    the back of [busyList], and the flag is cleared.  If the payload
    has length at most 4, nothing is sent, [freeList] and [busyList]
    are unchanged and the flag is cleared. *)
Theorem C5_OFFLOAD_RESP_cases :
  forall (num_cores src dst : Z) (buf : list byte) (rest : arrivals)
         (s : master_state),
    let status := mkPacket src dst OFFLOAD_RESP buf in
    let o := handle_event num_cores status rest s in
    let s' := state_of o in
    offloadActiveList s' = erase_first src (offloadActiveList s)
    /\ offloadReadyList s' = offloadReadyList s
    /\ (count status > 4 -> freeList s = [] ->
        o = AssertFailed "freeList.size() > 0" s'
        /\ outbox s' = outbox s
        /\ offloadActive s' = offloadActive s)
    /\ (count status > 4 -> forall v f, freeList s = v :: f ->
        o = Continue s'
        /\ outbox s'
           = outbox s ++ [mkPacket MASTER_NODE v START_PREFIX_TASK buf]
        /\ freeList s' = f
        /\ busyList s' = busyList s ++ [v]
        /\ offloadActive s' = false)
    /\ (count status <= 4 ->
        o = Continue s'
        /\ outbox s' = outbox s
        /\ freeList s' = freeList s
        /\ busyList s' = busyList s
        /\ offloadActive s' = false).
Proof.
  intros N src dst buf rest s status o s'.
  subst s' o status. unfold handle_event. cbn [MPI_TAG MPI_SOURCE buffer].
  change (OFFLOAD_RESP =? BUG_FOUND) with false.
  change (OFFLOAD_RESP =? FINISH) with false.
  change (OFFLOAD_RESP =? TIMEOUT) with false.
  change (OFFLOAD_RESP =? READY_TO_OFFLOAD) with false.
  change (OFFLOAD_RESP =? NOT_READY_TO_OFFLOAD) with false.
  change (OFFLOAD_RESP =? OFFLOAD_RESP) with true. cbv iota.
  destruct (Z.gtb_spec (count (mkPacket src dst OFFLOAD_RESP buf)) 4)
    as [Hgt|Hle].
  - proj. destruct (freeList s) as [|v f] eqn:Hf; proj;
      splits; intros; splits; try reflexivity; try discriminate; try lia;
      match goal with E : _ :: _ = _ :: _ |- _ => inversion E; reflexivity end.
  - proj. splits; intros; splits; try reflexivity; lia.
Qed.

(** The amended C5 at a state with an empty [freeList]. *)
Lemma C5_OFFLOAD_RESP_cases_witness :
  let s := mkState 2 [] [2; 3] [2] [2] true [] [] true in
  let status := mkPacket 2 0 OFFLOAD_RESP [x00; x01; x00; x01; x01] in
  let o := handle_event 4 status [] s in
  o = AssertFailed "freeList.size() > 0" (state_of o)
  /\ outbox (state_of o) = outbox s
  /\ offloadActive (state_of o) = offloadActive s.
Proof.
  cbv zeta.
  apply (C5_OFFLOAD_RESP_cases 4 2 0 [x00; x01; x00; x01; x01] []
           (mkState 2 [] [2; 3] [2] [2] true [] [] true)).
  - reflexivity.
  - reflexivity.
Defined.

(** ** C9: NOT_READY_TO_OFFLOAD from a rank that is not listed *)

(** Four processes, three prefixes, so one prefix is still pending
    after seeding; rank 2 reports NOT_READY_TO_OFFLOAD while
    [offloadReadyList] is empty.  The absence is not tolerated: the
    assertion [found2Erase] fails. *)
Lemma stale_NOT_READY_in_dispatch_loop :
  let m := master_prefix_mode 4 false [P1; P2; P3]
             [from 2 NOT_READY_TO_OFFLOAD; from 3 FINISH] in
  m = AssertFailed "found2Erase" (state_of m)
  /\ offloadReadyList (state_of m) = []
  /\ cnt (state_of m) = 2
  /\ (forall s, m <> Pending s).
Proof.
  cbv zeta. split; [|split; [|split]].
  - vm_compute. reflexivity.
  - vm_compute. reflexivity.
  - vm_compute. reflexivity.
  - intros s. vm_compute. discriminate.
Qed.



(** ** C8: the steal block and the [offloadActive] flag *)

Lemma find_split {A : Type} (f : A -> bool) (l : list A) (w : A) :
  find f l = Some w ->
  exists older later,
    l = older ++ w :: later /\ f w = true
    /\ Forall (fun x => f x = false) older.
Proof.
  induction l as [|x l IH]; simpl; [discriminate|].
  destruct (f x) eqn:E.
  - intros H. inversion H. subst x. exists [], l. auto.
  - intros H. destruct (IH H) as (o & t & -> & Hw & Ho).
    exists (x :: o), t. auto.
Qed.

(** The steal block either leaves the state alone or sends exactly one
    OFFLOAD; it sends only with [lb] on, a non-empty [freeList] shorter
    than the number of workers, and the flag off, and then to the
    oldest rank of [offloadReadyList] that is not in
    [offloadActiveList], which it appends there while raising the
    flag. *)
Lemma steal_trigger_spec (num_cores : Z) (lb : bool) (s : master_state) :
  let s' := steal_trigger num_cores lb s in
  s' = s
  \/ (lb = true
      /\ 0 < size (freeList s) < size_t (num_cores - 2)
      /\ offloadActive s = false
      /\ exists older w later,
           offloadReadyList s = older ++ w :: later
           /\ ~ In w (offloadActiveList s)
           /\ Forall (fun r => In r (offloadActiveList s)) older
           /\ outbox s' = outbox s ++ [mkPacket MASTER_NODE w OFFLOAD dummy]
           /\ offloadActiveList s' = offloadActiveList s ++ [w]
           /\ offloadActive s' = true
           /\ freeList s' = freeList s
           /\ busyList s' = busyList s
           /\ offloadReadyList s' = offloadReadyList s
           /\ cnt s' = cnt s).
Proof.
  cbv zeta. unfold steal_trigger.
  destruct lb; [|left; reflexivity]. cbn [andb].
  destruct (Z.gtb_spec (size (freeList s)) 0); [|left; reflexivity].
  destruct (Z.ltb_spec (size (freeList s)) (size_t (num_cores - 2)));
    [|left; reflexivity].
  cbn [andb].
  destruct (size (offloadReadyList s) >? 0); [|left; reflexivity].
  destruct (offloadActive s) eqn:Hflag; [left; reflexivity|].
  cbn [andb negb].
  destruct (find _ (offloadReadyList s)) as [w|] eqn:Hfind;
    [|left; reflexivity].
  right. destruct (find_split _ _ _ Hfind) as (older & later & Hl & Hw & Ho).
  split; [reflexivity|]. split; [lia|]. split; [reflexivity|].
  exists older, w, later. proj. splits; try reflexivity.
  - exact Hl.
  - intros Hin. apply found_In in Hin. rewrite Hin in Hw. discriminate Hw.
  - eapply Forall_impl; [|exact Ho]. cbv beta. intros r Hr.
    apply found_In. destruct (found r (offloadActiveList s));
      [reflexivity|discriminate Hr].
Qed.

Lemma steal_trigger_one_steal (num_cores : Z) (lb : bool) (s : master_state) :
  one_steal s -> one_steal (steal_trigger num_cores lb s).
Proof.
  intros [Hlen Hflag].
  destruct (steal_trigger_spec num_cores lb s) as [->|H]; [split; assumption|].
  destruct H as (_ & _ & Hoff & older & w & later & _ & _ & _ & _ & Ha & Hf & _).
  unfold one_steal. rewrite Ha, Hf, (Hflag Hoff). cbn. split; [lia|discriminate].
Qed.

(** Running the steal block again changes nothing, so the state the
    event loop is left polling in is the one [event_loop] returns. *)
Lemma steal_trigger_idempotent (num_cores : Z) (lb : bool) (s : master_state) :
  steal_trigger num_cores lb (steal_trigger num_cores lb s)
  = steal_trigger num_cores lb s.
Proof.
  destruct (steal_trigger_spec num_cores lb s) as [E|H].
  - cbv zeta in E. rewrite E. exact E.
  - destruct H as (_ & _ & _ & older & w & later & H).
    destruct H as (_ & _ & _ & _ & _ & Hf & _).
    cbv zeta in Hf. unfold steal_trigger at 1. rewrite Hf.
    rewrite !andb_false_r. reflexivity.
Qed.

Lemma erase_only_member (x : Z) (l : list Z) :
  (List.length l <= 1)%nat -> In x l -> erase_first x l = [].
Proof.
  destruct l as [|y [|z l]]; simpl; intros Hlen Hin; try contradiction; [|lia].
  destruct Hin as [->|[]]. now rewrite Z.eqb_refl.
Qed.

(** One iteration of the event loop keeps [one_steal], provided an
    OFFLOAD_RESP it receives comes from a rank of [offloadActiveList]. *)
Lemma event_iteration_one_steal (num_cores : Z) (lb : bool)
      (probe : option packet) (rest : arrivals) (s s' : master_state) :
  one_steal s ->
  (forall p, probe = Some p -> MPI_TAG p = OFFLOAD_RESP ->
             In (MPI_SOURCE p) (offloadActiveList s)) ->
  event_iteration num_cores lb probe rest s = Continue s' ->
  one_steal s'.
Proof.
  intros Hinv Hresp. unfold event_iteration.
  destruct probe as [p|].
  2:{ intros H. inversion H. now apply steal_trigger_one_steal. }
  destruct (handle_event num_cores p rest s) as [s1| | | | |] eqn:E;
    try discriminate.
  intros H. inversion H. apply steal_trigger_one_steal.
  clear H. revert E. unfold handle_event, collect_and_abort.
  destruct Hinv as [Hlen Hflag].
  destruct (MPI_TAG p =? BUG_FOUND); [discriminate|].
  destruct (MPI_TAG p =? FINISH).
  { match goal with |- context [if ?c then _ else Continue _] =>
      destruct c end.
    - destruct (collect_KILL_COMP _ _); discriminate.
    - intros E. inversion E. clear E. unfold one_steal. proj.
      destruct (negb (found (MPI_SOURCE p) (freeList s))); proj;
        (destruct (found (MPI_SOURCE p) (offloadActiveList s)) eqn:Hf; proj;
         [apply found_In in Hf;
          rewrite (erase_only_member _ _ Hlen Hf); cbn; split; [lia|reflexivity]
         |split; assumption]). }
  destruct (MPI_TAG p =? TIMEOUT);
    [destruct (collect_KILL_COMP _ _); discriminate|].
  destruct (MPI_TAG p =? READY_TO_OFFLOAD);
    [intros E; inversion E; split; assumption|].
  destruct (MPI_TAG p =? NOT_READY_TO_OFFLOAD);
    [intros E; inversion E; split; assumption|].
  destruct (Z.eqb_spec (MPI_TAG p) OFFLOAD_RESP) as [Ht|]; [|discriminate].
  specialize (Hresp p eq_refl Ht).
  destruct (count p >? 4).
  - proj. destruct (freeList s); [discriminate|].
    intros E. inversion E. clear E. unfold one_steal. proj.
    rewrite (erase_only_member _ _ Hlen Hresp). cbn. split; [lia|reflexivity].
  - intros E. inversion E. clear E. unfold one_steal. proj.
    rewrite (erase_only_member _ _ Hlen Hresp). cbn. split; [lia|reflexivity].
Qed.

(** C8 (evaluation).  Six processes, [lb] on, three prefixes: ranks 2,
    3 and 4 are busy and rank 5 is free.  All three report
    READY_TO_OFFLOAD and the master asks rank 2 to offload.  Rank 2
    finishes before it sees the request, so the master receives its
    FINISH, clears the flag and asks rank 3; then the reply of rank 2
    to the first request arrives, an empty offer of one byte.  The
    handler clears the flag although rank 3 has not answered, and the
    steal block asks rank 4: [offloadActiveList] now holds two ranks
    and two requests are unanswered. *)
Theorem C8_stale_reply_allows_second_steal :
  let reply := [mkPacket 2 0 OFFLOAD_RESP ["x"%byte]] in
  let m := master_prefix_mode 6 true [P1; P2; P3]
             ([from 2 READY_TO_OFFLOAD; from 3 READY_TO_OFFLOAD;
               from 4 READY_TO_OFFLOAD; from 2 FINISH]
              ++ map Some reply) in
  Forall (fun p => (count p >? 4) = false) reply
  /\ m = Pending (state_of m)
  /\ dests_with_tag OFFLOAD (outbox (state_of m)) = [2; 3; 4]
  /\ offloadActiveList (state_of m) = [3; 4]
  /\ offloadActive (state_of m) = true
  /\ ~ one_steal (state_of m).
Proof.
  cbv zeta. splits.
  - repeat constructor.
  - vm_compute. reflexivity.
  - vm_compute. reflexivity.
  - vm_compute. reflexivity.
  - vm_compute. reflexivity.
  - intros [Hlen _]. vm_compute in Hlen. lia.
Qed.

(** * Further properties of the master *)

(** ** The steal block *)

(** X1.  The steal block either leaves the master state untouched or
    sends exactly one OFFLOAD.  It sends only when [lb] is on,
    [freeList] is non-empty and shorter than the number of workers and
    the [offloadActive] flag is off; the request goes to the oldest
    rank of [offloadReadyList] that is not in [offloadActiveList], that
    rank is appended to [offloadActiveList] and the flag is raised.
    Conversely, under those conditions a rank of [offloadReadyList]
    outside [offloadActiveList] is enough for a request to be sent. *)
Theorem X1_steal_block_when_and_whom :
  forall (num_cores : Z) (lb : bool) (s : master_state),
    let s' := steal_trigger num_cores lb s in
    (s' = s
     \/ (lb = true
         /\ 0 < size (freeList s) < size_t (num_cores - 2)
         /\ offloadActive s = false
         /\ exists older w later,
              offloadReadyList s = older ++ w :: later
              /\ ~ In w (offloadActiveList s)
              /\ Forall (fun r => In r (offloadActiveList s)) older
              /\ outbox s' = outbox s ++ [mkPacket MASTER_NODE w OFFLOAD dummy]
              /\ offloadActiveList s' = offloadActiveList s ++ [w]
              /\ offloadActive s' = true))
    /\ (lb = true ->
        0 < size (freeList s) < size_t (num_cores - 2) ->
        offloadActive s = false ->
        (exists r, In r (offloadReadyList s) /\ ~ In r (offloadActiveList s)) ->
        exists w, outbox s' = outbox s ++ [mkPacket MASTER_NODE w OFFLOAD dummy]).
Proof.
  intros N lb s s'. split.
  - destruct (steal_trigger_spec N lb s) as [E|H]; [left; exact E|right].
    destruct H as (H1 & H2 & H3 & older & w & later & H4 & H5 & H6 & H7 & H8 & H9 & _).
    split; [exact H1|]. split; [exact H2|]. split; [exact H3|].
    exists older, w, later. splits; assumption.
  - intros Hlb Hfree Hflag (r & Hr & Hnr).
    subst s'. unfold steal_trigger. rewrite Hlb, Hflag. cbn [andb negb].
    destruct (Z.gtb_spec (size (freeList s)) 0); [|lia].
    destruct (Z.ltb_spec (size (freeList s)) (size_t (N - 2))); [|lia].
    assert (Hready : (size (offloadReadyList s) >? 0) = true).
    { unfold size. destruct (offloadReadyList s); [contradiction|].
      cbn [List.length]. apply Z.gtb_lt. lia. }
    rewrite Hready. cbn [andb].
    destruct (find _ (offloadReadyList s)) as [w|] eqn:Hfind.
    + exists w. proj. reflexivity.
    + exfalso. apply find_none with (x := r) in Hfind; [|exact Hr].
      cbv beta in Hfind. apply negb_false_iff, found_In in Hfind.
      contradiction.
Qed.

Lemma X1_steal_block_when_and_whom_witness :
  let s := mkState 3 [5] [2; 3; 4] [3] [3; 4] false [] [] true in
  exists w,
    outbox (steal_trigger 6 true s)
    = outbox s ++ [mkPacket MASTER_NODE w OFFLOAD dummy].
Proof.
  cbv zeta.
  apply (X1_steal_block_when_and_whom 6 true
           (mkState 3 [5] [2; 3; 4] [3] [3; 4] false [] [] true)).
  - reflexivity.
  - vm_compute. split; reflexivity.
  - reflexivity.
  - exists 4. split; [right; left; reflexivity|].
    intros [H|[]]. discriminate H.
Defined.

(** ** At most one steal, when replies are answers *)

Lemma dispatch_step_offloadActiveList (num_cores : Z)
      (workList : list (list byte)) (p : packet) (s : master_state) :
  offloadActiveList s = [] ->
  offloadActiveList (state_of (dispatch_step num_cores workList p s)) = []
  /\ offloadActive (state_of (dispatch_step num_cores workList p s))
     = offloadActive s.
Proof.
  intros Ha. unfold dispatch_step.
  destruct (MPI_TAG p =? FINISH); [proj; rewrite Ha; split; reflexivity|].
  destruct (MPI_TAG p =? BUG_FOUND).
  { cbn [state_of]. unfold kill_all.
    destruct (kill_loop_spec (worker_ranks num_cores)
                (close_log (write_log "Elapsed: " [] s)))
      as (_ & _ & _ & H4 & _ & H6 & _).
    rewrite H4, H6. proj. split; [exact Ha|reflexivity]. }
  destruct (MPI_TAG p =? READY_TO_OFFLOAD); [proj; split; [exact Ha|reflexivity]|].
  destruct (MPI_TAG p =? NOT_READY_TO_OFFLOAD);
    [|proj; split; [exact Ha|reflexivity]].
  destruct (found _ _); proj; split; (exact Ha || reflexivity).
Qed.

Lemma dispatch_loop_offloadActiveList (num_cores : Z)
      (workList : list (list byte)) (inbox : arrivals) :
  forall s : master_state,
    offloadActiveList s = [] ->
    offloadActiveList
      (state_of (fst (dispatch_loop num_cores workList inbox s))) = [].
Proof.
  induction inbox as [|[p|] rest IH]; intros s Ha; cbn [dispatch_loop];
    destruct (size_t (cnt s) <? pathSizes_size workList);
    cbn [fst state_of]; try exact Ha.
  - pose proof (dispatch_step_offloadActiveList num_cores workList p s Ha)
      as [Hs _].
    destruct (dispatch_step num_cores workList p s) eqn:E;
      cbn [fst state_of] in *; try exact Hs.
    apply IH. exact Hs.
  - apply IH. exact Ha.
Qed.

(** X2.  When the master enters its event loop no steal is
    outstanding, whatever arrived during seeding and dispatch; and an
    iteration of the event loop keeps at most one steal outstanding
    ([offloadActiveList] has at most one rank, and none while the flag
    is off) as long as an OFFLOAD_RESP it receives comes from a rank of
    [offloadActiveList]. *)
Theorem X2_one_steal_kept_by_answers :
  forall (num_cores : Z) (lb : bool) (workList : list (list byte))
         (inbox : arrivals),
    one_steal
      (set_offloadActive false
         (state_of (fst (dispatch_loop num_cores workList inbox
                           (seeding num_cores lb workList initial_state)))))
    /\ forall (probe : option packet) (rest : arrivals) (s s' : master_state),
         one_steal s ->
         (forall p, probe = Some p -> MPI_TAG p = OFFLOAD_RESP ->
                    In (MPI_SOURCE p) (offloadActiveList s)) ->
         event_iteration num_cores lb probe rest s = Continue s' ->
         one_steal s'.
Proof.
  intros N lb wl inbox. split.
  - assert (Hseed : offloadActiveList (seeding N lb wl initial_state) = []).
    { unfold seeding.
      pose proof (seed_loop_spec wl
                    (Z.to_nat (whileCnt N wl - cnt initial_state)) 2
                    initial_state) as Hs.
      destruct (seed_loop wl _ 2 initial_state) as [r s1].
      cbn [fst snd] in Hs. destruct Hs as (_ & _ & _ & _ & H5 & _).
      destruct (spare_loop_spec lb (Z.to_nat (N - r)) r s1)
        as (_ & _ & _ & P4 & _).
      rewrite P4, H5. reflexivity. }
    pose proof (dispatch_loop_offloadActiveList N wl inbox _ Hseed) as Hd.
    unfold one_steal. proj. rewrite Hd. cbn. split; [lia|reflexivity].
  - intros probe rest s s'. apply event_iteration_one_steal.
Qed.

Lemma X2_one_steal_kept_by_answers_witness :
  one_steal
    (state_of
       (event_iteration 6 true
          (Some (mkPacket 3 0 OFFLOAD_RESP ["x"%byte])) []
          (mkState 3 [5] [2; 3; 4] [3] [3; 4] true [] [] true))).
Proof.
  apply (proj2 (X2_one_steal_kept_by_answers 6 true [] [])
           (Some (mkPacket 3 0 OFFLOAD_RESP ["x"%byte])) []
           (mkState 3 [5] [2; 3; 4] [3] [3; 4] true [] [] true)).
  - split; [cbn; lia|discriminate].
  - intros p Hp _. inversion Hp. left. reflexivity.
  - vm_compute. reflexivity.
Defined.

(** ** Free and busy workers *)

Lemma ranks_from_NoDup (x : Z) (n : nat) : NoDup (ranks_from x n).
Proof.
  revert x. induction n as [|n IH]; intros x; cbn [ranks_from]; constructor.
  - rewrite ranks_from_In. lia.
  - apply IH.
Qed.

Lemma erase_first_Permutation (x : Z) (l : list Z) :
  In x l -> Permutation (x :: erase_first x l) l.
Proof.
  induction l as [|y l IH]; simpl; intros H; [contradiction|].
  destruct (Z.eqb_spec y x) as [->|Hne]; [reflexivity|].
  destruct H as [H|H]; [contradiction|].
  rewrite perm_swap. constructor. apply IH. exact H.
Qed.

Lemma kill_all_freeList (num_cores : Z) (s : master_state) :
  freeList (kill_all num_cores s) = freeList s.
Proof. unfold kill_all. apply (kill_loop_spec (worker_ranks num_cores) s). Qed.

Lemma kill_all_busyList (num_cores : Z) (s : master_state) :
  busyList (kill_all num_cores s) = busyList s.
Proof. unfold kill_all. apply (kill_loop_spec (worker_ranks num_cores) s). Qed.

#[local] Hint Rewrite kill_all_freeList kill_all_busyList kill_all_outbox
  kill_all_cnt : master.

Ltac tags :=
  unfold START_PREFIX_TASK, KILL, FINISH, OFFLOAD, OFFLOAD_RESP, BUG_FOUND,
    TIMEOUT, NORMAL_TASK, KILL_COMP, READY_TO_OFFLOAD, NOT_READY_TO_OFFLOAD
    in *.

(** Case analysis on a received tag, oldest comparison first. *)
Ltac by_tag t :=
  destruct (Z.eqb_spec t BUG_FOUND) as [->|?];
  [|destruct (Z.eqb_spec t FINISH) as [->|?];
    [|destruct (Z.eqb_spec t TIMEOUT) as [->|?];
      [|destruct (Z.eqb_spec t READY_TO_OFFLOAD) as [->|?];
        [|destruct (Z.eqb_spec t NOT_READY_TO_OFFLOAD) as [->|?];
          [|destruct (Z.eqb_spec t OFFLOAD_RESP) as [->|?]]]]]].

(** What one received message does to [freeList] and [busyList] in the
    event loop. *)
Lemma handle_event_lists (num_cores : Z) (p : packet) (rest : arrivals)
      (s : master_state) :
  let s' := state_of (handle_event num_cores p rest s) in
  let src := MPI_SOURCE p in
  (MPI_TAG p = FINISH ->
   freeList s' = (if found src (freeList s) then freeList s
                  else freeList s ++ [src])
   /\ busyList s' = erase_first src (busyList s))
  /\ (MPI_TAG p = OFFLOAD_RESP -> count p > 4 ->
      forall v f, freeList s = v :: f ->
                  freeList s' = f /\ busyList s' = busyList s ++ [v])
  /\ (MPI_TAG p = OFFLOAD_RESP -> count p <= 4 \/ freeList s = [] ->
      freeList s' = freeList s /\ busyList s' = busyList s)
  /\ (MPI_TAG p <> FINISH -> MPI_TAG p <> OFFLOAD_RESP ->
      freeList s' = freeList s /\ busyList s' = busyList s).
Proof.
  destruct p as [src dst t buf]. cbv zeta. cbn [MPI_TAG MPI_SOURCE].
  unfold handle_event, collect_and_abort. cbn [MPI_TAG MPI_SOURCE buffer].
  by_tag t; tags; cbn [Z.eqb Pos.eqb].
  - splits; intros; try discriminate; try contradiction; proj;
      split; reflexivity.
  - splits; intros; try discriminate; try contradiction.
    match goal with |- context [if ?c then _ else Continue _] =>
      destruct c end;
      [destruct (collect_KILL_COMP _ _)|];
      proj;
      (destruct (found src (freeList s)); cbn [negb]; proj;
       destruct (found src (offloadActiveList s)); proj;
       split; reflexivity).
  - splits; intros; try discriminate; try contradiction.
    destruct (collect_KILL_COMP _ _); proj; split; reflexivity.
  - splits; intros; try discriminate; try contradiction; proj;
      split; reflexivity.
  - splits; intros; try discriminate; try contradiction; proj;
      split; reflexivity.
  - unfold count; cbn [buffer].
    split; [intros E; discriminate E|].
    split; [intros _ Hgt v f Hf|split; [intros _ Hor|intros _ Hne; contradiction]].
    + destruct (Z.gtb_spec (Z.of_nat (List.length buf)) 4); [|lia].
      proj. rewrite Hf. proj. split; reflexivity.
    + destruct (Z.gtb_spec (Z.of_nat (List.length buf)) 4).
      * destruct Hor as [Hor|Hor]; [lia|].
        proj. rewrite Hor. proj. rewrite Hor. split; reflexivity.
      * proj. split; reflexivity.
  - splits; intros; try contradiction.
    destruct (Z.eqb_spec t BUG_FOUND); [contradiction|].
    destruct (Z.eqb_spec t FINISH); [contradiction|].
    destruct (Z.eqb_spec t TIMEOUT); [contradiction|].
    destruct (Z.eqb_spec t READY_TO_OFFLOAD); [contradiction|].
    destruct (Z.eqb_spec t NOT_READY_TO_OFFLOAD); [contradiction|].
    destruct (Z.eqb_spec t OFFLOAD_RESP); [contradiction|].
    proj. split; reflexivity.
Qed.

Lemma dispatch_step_lists (num_cores : Z) (workList : list (list byte))
      (p : packet) (s : master_state) :
  let s' := state_of (dispatch_step num_cores workList p s) in
  freeList s' = freeList s
  /\ busyList s'
     = (if MPI_TAG p =? FINISH
        then erase_first (MPI_SOURCE p) (busyList s) ++ [MPI_SOURCE p]
        else busyList s).
Proof.
  cbv zeta. unfold dispatch_step.
  destruct (MPI_TAG p =? FINISH); [proj; split; reflexivity|].
  destruct (MPI_TAG p =? BUG_FOUND); [proj; split; reflexivity|].
  destruct (MPI_TAG p =? READY_TO_OFFLOAD); [proj; split; reflexivity|].
  destruct (MPI_TAG p =? NOT_READY_TO_OFFLOAD); [|proj; split; reflexivity].
  destruct (found _ _); proj; split; reflexivity.
Qed.

Lemma steal_trigger_lists (num_cores : Z) (lb : bool) (s : master_state) :
  freeList (steal_trigger num_cores lb s) = freeList s
  /\ busyList (steal_trigger num_cores lb s) = busyList s.
Proof.
  destruct (steal_trigger_spec num_cores lb s) as [E|H].
  - cbv zeta in E. rewrite E. split; reflexivity.
  - destruct H as (_ & _ & _ & older & w & later & H).
    destruct H as (_ & _ & _ & _ & _ & _ & Hf & Hb & _).
    split; assumption.
Qed.

Lemma worker_partition_NoDup (num_cores : Z) (s : master_state) :
  worker_partition num_cores s -> NoDup (freeList s ++ busyList s).
Proof.
  intros H. apply (Permutation_NoDup (Permutation_sym H)).
  apply ranks_from_NoDup.
Qed.

Lemma NoDup_app_disjoint (l1 l2 : list Z) (x : Z) :
  NoDup (l1 ++ l2) -> In x l1 -> ~ In x l2.
Proof.
  induction l1 as [|y l1 IH]; intros Hnd H1 H2; [contradiction|].
  cbn [app] in Hnd. inversion Hnd as [|z l Hy Hrest]; subst.
  destruct H1 as [->|H1].
  - apply Hy. apply in_or_app. right. exact H2.
  - apply (IH Hrest H1 H2).
Qed.

Lemma worker_partition_FINISH (num_cores src : Z) (s : master_state) :
  worker_partition num_cores s ->
  In src (worker_ranks num_cores) ->
  Permutation
    ((if found src (freeList s) then freeList s else freeList s ++ [src])
       ++ erase_first src (busyList s))
    (worker_ranks num_cores).
Proof.
  intros Hp Hsrc. pose proof (worker_partition_NoDup _ _ Hp) as Hnd.
  unfold worker_partition in Hp. rewrite <- Hp.
  destruct (found src (freeList s)) eqn:E.
  - apply found_In in E. rewrite erase_first_absent; [reflexivity|].
    apply (NoDup_app_disjoint _ _ _ Hnd E).
  - assert (Hnf : ~ In src (freeList s)).
    { intros Hin. apply found_In in Hin. rewrite Hin in E. discriminate E. }
    assert (Hb : In src (busyList s)).
    { apply (Permutation_in _ (Permutation_sym Hp)) in Hsrc.
      apply in_app_or in Hsrc. destruct Hsrc; [contradiction|assumption]. }
    rewrite <- app_assoc. apply Permutation_app_head. cbn [app].
    apply erase_first_Permutation. exact Hb.
Qed.

(** X3.  Seeding splits the worker ranks between [busyList] and
    [freeList]: right after it, the two lists together hold every
    rank 2 .. N-1 exactly once (so they are disjoint and without
    repetition), the busy ones being the first min(W, K) ranks. *)
Theorem X3_seeding_partitions_the_workers :
  forall (num_cores : Z) (lb : bool) (workList : list (list byte)),
    2 <= num_cores < 2 ^ 31 ->
    pathSizes_size workList < 2 ^ 31 ->
    let s := seeding num_cores lb workList initial_state in
    worker_partition num_cores s
    /\ NoDup (freeList s ++ busyList s)
    /\ busyList s
       = ranks_from 2 (Z.to_nat (Z.min (num_cores - 2)
                                       (pathSizes_size workList))).
Proof.
  intros N lb wl HN HK s.
  destruct (seeding_spec N lb wl HN HK) as (_ & Hf & Hb & _).
  fold s in Hf, Hb.
  assert (Hp : worker_partition N s).
  { unfold worker_partition, worker_ranks. rewrite Hf, Hb.
    set (m := Z.to_nat (Z.min (N - 2) (pathSizes_size wl))).
    assert (Hw : ranks_from 2 (Z.to_nat (N - 2))
                 = ranks_from 2 m
                     ++ ranks_from (2 + Z.of_nat m) (Z.to_nat (N - 2) - m)).
    { rewrite <- ranks_from_app. f_equal. subst m. lia. }
    rewrite Hw. apply Permutation_app_comm. }
  split; [exact Hp|]. split; [|exact Hb].
  apply (worker_partition_NoDup N s Hp).
Qed.

(** X3 on five processes with one prefix. *)
Lemma X3_seeding_partitions_the_workers_witness :
  let s := seeding 5 true [[x00; x01]] initial_state in
  worker_partition 5 s
  /\ NoDup (freeList s ++ busyList s)
  /\ busyList s
     = ranks_from 2 (Z.to_nat (Z.min (5 - 2)
                                     (pathSizes_size [[x00; x01]]))).
Proof.
  apply (X3_seeding_partitions_the_workers 5 true [[x00; x01]]).
  - lia.
  - reflexivity.
Defined.

(** X4.  The split of the worker ranks between [freeList] and
    [busyList] is kept by every step of the master: by a message of
    the dispatch loop when a FINISH comes from a rank of [busyList],
    and by an iteration of the event loop when a FINISH comes from a
    worker rank.  In particular no rank is ever in both lists or twice
    in one. *)
Theorem X4_partition_is_kept :
  forall (num_cores : Z) (lb : bool) (workList : list (list byte))
         (s : master_state),
    worker_partition num_cores s ->
    (forall p : packet,
        (MPI_TAG p = FINISH -> In (MPI_SOURCE p) (busyList s)) ->
        worker_partition num_cores
          (state_of (dispatch_step num_cores workList p s)))
    /\ (forall (probe : option packet) (rest : arrivals),
           (forall p, probe = Some p -> MPI_TAG p = FINISH ->
                      In (MPI_SOURCE p) (worker_ranks num_cores)) ->
           worker_partition num_cores
             (state_of (event_iteration num_cores lb probe rest s))).
Proof.
  intros N lb wl s Hp. split.
  - intros p HF. unfold worker_partition.
    destruct (dispatch_step_lists N wl p s) as [Hf Hb]. rewrite Hf, Hb.
    destruct (Z.eqb_spec (MPI_TAG p) FINISH) as [E|_]; [|exact Hp].
    unfold worker_partition in Hp. rewrite <- Hp.
    apply Permutation_app_head.
    rewrite <- (erase_first_Permutation _ _ (HF E)) at 2.
    apply Permutation_sym, Permutation_cons_append.
  - intros probe rest HF.
    assert (Hev : forall p, probe = Some p ->
              worker_partition N (state_of (handle_event N p rest s))).
    { intros p Hprobe. unfold worker_partition.
      destruct (handle_event_lists N p rest s) as (H1 & H2 & H3 & H4).
      destruct (Z.eq_dec (MPI_TAG p) FINISH) as [E|NE].
      - destruct (H1 E) as [Hf Hb]. rewrite Hf, Hb.
        apply worker_partition_FINISH; [exact Hp|]. apply (HF p Hprobe E).
      - destruct (Z.eq_dec (MPI_TAG p) OFFLOAD_RESP) as [E|NE'].
        + destruct (Z_gt_le_dec (count p) 4) as [Hgt|Hle].
          * destruct (freeList s) as [|v f] eqn:Hfree.
            -- destruct (H3 E (or_intror eq_refl)) as [Hf Hb].
               rewrite Hf, Hb. unfold worker_partition in Hp.
               rewrite Hfree in Hp. exact Hp.
            -- destruct (H2 E Hgt v f eq_refl) as [Hf Hb].
               rewrite Hf, Hb. unfold worker_partition in Hp.
               rewrite Hfree in Hp. rewrite <- Hp.
               cbn [app]. rewrite app_assoc.
               apply Permutation_sym, Permutation_cons_append.
          * destruct (H3 E (or_introl Hle)) as [Hf Hb].
            rewrite Hf, Hb. exact Hp.
        + destruct (H4 NE NE') as [Hf Hb]. rewrite Hf, Hb. exact Hp. }
    unfold event_iteration. destruct probe as [p|].
    + specialize (Hev p eq_refl).
      destruct (handle_event N p rest s) eqn:E; cbn [state_of] in *;
        try exact Hev.
      unfold worker_partition.
      destruct (steal_trigger_lists N lb s0) as [Hf Hb]. rewrite Hf, Hb.
      exact Hev.
    + cbn [state_of]. unfold worker_partition.
      destruct (steal_trigger_lists N lb s) as [Hf Hb]. rewrite Hf, Hb.
      exact Hp.
Qed.

(** X4 on four processes: rank 2 finishes in the event loop. *)
Lemma X4_partition_is_kept_witness :
  worker_partition 4
    (state_of (event_iteration 4 true (from 2 FINISH) []
                 (seeding 4 true [P1; P2] initial_state))).
Proof.
  assert (Hp : worker_partition 4 (seeding 4 true [P1; P2] initial_state)).
  { unfold worker_partition. vm_compute. apply Permutation_refl. }
  apply (proj2 (X4_partition_is_kept 4 true [P1; P2]
                  (seeding 4 true [P1; P2] initial_state) Hp)
           (from 2 FINISH) []).
  intros p Hprobe _. inversion Hprobe. vm_compute. left. reflexivity.
Defined.

(** FINISH in the event loop, as one equation: [s1] is the state after
    the list updates and the two log lines. *)
Lemma handle_event_FINISH (num_cores src dst : Z) (buf : list byte)
      (rest : arrivals) (s : master_state) :
  exists s1,
    handle_event num_cores (mkPacket src dst FINISH buf) rest s
    = (if size (freeList s1) =? size_t (num_cores - 2)
       then collect_and_abort num_cores rest
              (close_log
                 (write_log "Elapsed: " []
                    (write_log "MASTER_ELAPSED: " []
                       (kill_all num_cores
                          (write_log "MASTER: ALL WORKERS FINISHED " [] s1)))))
       else Continue s1)
    /\ freeList s1 = (if found src (freeList s) then freeList s
                      else freeList s ++ [src])
    /\ busyList s1 = erase_first src (busyList s)
    /\ outbox s1 = outbox s.
Proof.
  eexists. split; [reflexivity|].
  cbn [MPI_SOURCE].
  destruct (found src (freeList s)); cbn [negb]; proj;
    destruct (found src (offloadActiveList s)); proj; splits; reflexivity.
Qed.

(** X5.  Detection of the end of the run.  When every worker rank is
    in exactly one of [freeList] and [busyList] and FINISH arrives
    from a worker rank in the event loop, the master starts its
    shutdown exactly when that leaves [busyList] empty: it then sends
    KILL to every rank 2 .. N-1 in rank order, closes the log, and
    aborts once a KILL_COMP of every rank has been received.  While a
    rank is still busy it sends nothing and goes on. *)
Theorem X5_shutdown_when_last_worker_finishes :
  forall (num_cores : Z) (p : packet) (rest : arrivals) (s : master_state),
    2 <= num_cores < 2 ^ 63 ->
    worker_partition num_cores s ->
    MPI_TAG p = FINISH ->
    In (MPI_SOURCE p) (worker_ranks num_cores) ->
    let o := handle_event num_cores p rest s in
    let s' := state_of o in
    busyList s' = erase_first (MPI_SOURCE p) (busyList s)
    /\ (busyList s' = [] ->
        outbox s' = outbox s ++ kill_packets num_cores
        /\ logOpen s' = false
        /\ match collect_KILL_COMP (worker_ranks num_cores) rest with
           | None => o = Aborted s'
           | Some x => o = AwaitingKillComp x s'
           end)
    /\ (busyList s' <> [] -> o = Continue s' /\ outbox s' = outbox s).
Proof.
  intros N p rest s HN Hp Ht Hsrc o s'.
  pose proof (worker_partition_FINISH N (MPI_SOURCE p) s Hp Hsrc) as Hperm.
  apply Permutation_length in Hperm.
  unfold worker_ranks in Hperm. rewrite ranks_from_length, length_app in Hperm.
  assert (Hsz : size_t (N - 2) = N - 2)
    by (unfold size_t; apply Z.mod_small; lia).
  destruct p as [src dst t buf]. cbn [MPI_TAG MPI_SOURCE] in *. subst t.
  destruct (handle_event_FINISH N src dst buf rest s)
    as (s1 & Hev & Hf & Hb & Hout).
  subst s' o. rewrite Hev. clear Hev.
  assert (Hlen : (List.length (freeList s1) + List.length (busyList s1))%nat
                 = Z.to_nat (N - 2)) by (rewrite Hf, Hb; exact Hperm).
  clear Hperm. rewrite Hsz. unfold size.
  destruct (Z.eqb_spec (Z.of_nat (List.length (freeList s1))) (N - 2))
    as [Hc|Hc].
  - assert (Hnil : busyList s1 = []).
    { destruct (busyList s1); [reflexivity|cbn [List.length] in Hlen; lia]. }
    unfold collect_and_abort.
    destruct (collect_KILL_COMP (worker_ranks N) rest); proj;
      rewrite Hb, Hout; (split; [reflexivity|]); split;
      try (intros _; splits; reflexivity);
      intros Hne; rewrite <- Hb, Hnil in Hne; contradiction.
  - cbn [state_of]. rewrite Hb, Hout. split; [reflexivity|]. split.
    + intros Hnil. rewrite <- Hb in Hnil. rewrite Hnil in Hlen.
      cbn [List.length] in Hlen. lia.
    + intros _. split; reflexivity.
Qed.

(** X5 on four processes: rank 3 is the last busy worker. *)
Lemma X5_shutdown_when_last_worker_finishes_witness :
  let s := mkState 2 [2] [3] [] [] false [] [] true in
  let o := handle_event 4 (mkPacket 3 0 FINISH dummy)
             [from 3 KILL_COMP; from 2 KILL_COMP] s in
  wire (state_of o) = [(2, KILL); (3, KILL)] /\ o = Aborted (state_of o).
Proof.
  cbv zeta.
  destruct (X5_shutdown_when_last_worker_finishes 4
              (mkPacket 3 0 FINISH dummy)
              [from 3 KILL_COMP; from 2 KILL_COMP]
              (mkState 2 [2] [3] [] [] false [] [] true))
    as (_ & H & _).
  - lia.
  - unfold worker_partition. vm_compute. apply Permutation_refl.
  - reflexivity.
  - vm_compute. right. left. reflexivity.
  - destruct (H eq_refl) as (Hout & _ & Hres). split.
    + unfold wire. rewrite Hout. reflexivity.
    + exact Hres.
Defined.

(** ** Collecting KILL_COMP *)

Lemma MPI_Recv_from_None (x t : Z) (inbox : arrivals) :
  MPI_Recv_from x t inbox = None <->
  ~ exists p, In (Some p) inbox /\ MPI_SOURCE p = x /\ MPI_TAG p = t.
Proof.
  induction inbox as [|[q|] rest IH]; cbn [MPI_Recv_from].
  - split; [intros _ (p & [] & _)|reflexivity].
  - destruct (Z.eqb_spec (MPI_SOURCE q) x) as [Hs|Hs];
      destruct (Z.eqb_spec (MPI_TAG q) t) as [Ht|Ht]; cbn [andb].
    + split; [discriminate|]. intros H. exfalso. apply H.
      exists q. split; [left; reflexivity|split; assumption].
    + destruct (MPI_Recv_from x t rest); cbn [option_map].
      * split; [discriminate|]. intros H. exfalso.
        destruct IH as [_ IH]. assert (Hn : Some a = None); [|discriminate Hn].
        apply IH. intros (p & Hin & Hp). apply H. exists p.
        split; [right; exact Hin|exact Hp].
      * split; [|reflexivity]. intros _ (p & [Hin|Hin] & Hps & Hpt).
        -- inversion Hin. subst. contradiction.
        -- destruct IH as [IH _]. apply (IH eq_refl). exists p. auto.
    + destruct (MPI_Recv_from x t rest); cbn [option_map].
      * split; [discriminate|]. intros H. exfalso.
        destruct IH as [_ IH]. assert (Hn : Some a = None); [|discriminate Hn].
        apply IH. intros (p & Hin & Hp). apply H. exists p.
        split; [right; exact Hin|exact Hp].
      * split; [|reflexivity]. intros _ (p & [Hin|Hin] & Hps & Hpt).
        -- inversion Hin. subst. contradiction.
        -- destruct IH as [IH _]. apply (IH eq_refl). exists p. auto.
    + destruct (MPI_Recv_from x t rest); cbn [option_map].
      * split; [discriminate|]. intros H. exfalso.
        destruct IH as [_ IH]. assert (Hn : Some a = None); [|discriminate Hn].
        apply IH. intros (p & Hin & Hp). apply H. exists p.
        split; [right; exact Hin|exact Hp].
      * split; [|reflexivity]. intros _ (p & [Hin|Hin] & Hps & Hpt).
        -- inversion Hin. subst. contradiction.
        -- destruct IH as [IH _]. apply (IH eq_refl). exists p. auto.
  - rewrite IH. split; intros H (p & Hin & Hp); apply H; exists p.
    + destruct Hin as [Hin|Hin]; [discriminate Hin|]. auto.
    + split; [right; exact Hin|exact Hp].
Qed.

(** A receive from [x] leaves the messages of the other ranks. *)
Lemma MPI_Recv_from_others (x t y : Z) (inbox inbox' : arrivals) :
  MPI_Recv_from x t inbox = Some inbox' ->
  y <> x ->
  forall q, MPI_SOURCE q = y ->
            (In (Some q) inbox <-> In (Some q) inbox').
Proof.
  revert inbox'. induction inbox as [|[p|] rest IH]; intros inbox' H Hy q Hq;
    cbn [MPI_Recv_from] in H.
  - discriminate H.
  - destruct ((MPI_SOURCE p =? x) && (MPI_TAG p =? t)) eqn:E.
    + inversion H. subst inbox'. apply andb_prop in E as [E _].
      apply Z.eqb_eq in E. split; [|intros Hin; right; exact Hin].
      intros [Hin|Hin]; [|exact Hin]. inversion Hin. subst. contradiction.
    + destruct (MPI_Recv_from x t rest) as [r|]; [|discriminate H].
      cbn [option_map] in H. inversion H. subst inbox'.
      specialize (IH r eq_refl Hy q Hq). cbn [In]. rewrite IH. reflexivity.
  - specialize (IH inbox' H Hy q Hq). cbn [In]. rewrite <- IH.
    split; [intros [Hin|Hin]; [discriminate Hin|exact Hin]|auto].
Qed.

Lemma has_KILL_COMP_dec (inbox : arrivals) (x : Z) :
  has_KILL_COMP inbox x \/ ~ has_KILL_COMP inbox x.
Proof.
  unfold has_KILL_COMP. induction inbox as [|[q|] rest IH].
  - right. intros (p & [] & _).
  - destruct IH as [(p & Hin & Hp)|IH].
    + left. exists p. split; [right; exact Hin|exact Hp].
    + destruct (Z.eq_dec (MPI_SOURCE q) x) as [Hs|Hs];
        [destruct (Z.eq_dec (MPI_TAG q) KILL_COMP) as [Ht|Ht]|].
      * left. exists q. split; [left; reflexivity|split; assumption].
      * right. intros (p & [Hin|Hin] & Hps & Hpt).
        -- inversion Hin. subst. contradiction.
        -- apply IH. exists p. auto.
      * right. intros (p & [Hin|Hin] & Hps & Hpt).
        -- inversion Hin. subst. contradiction.
        -- apply IH. exists p. auto.
  - destruct IH as [(p & Hin & Hp)|IH].
    + left. exists p. split; [right; exact Hin|exact Hp].
    + right. intros (p & [Hin|Hin] & Hp); [discriminate Hin|].
      apply IH. exists p. auto.
Qed.

Lemma collect_KILL_COMP_spec (xs : list Z) :
  NoDup xs ->
  forall inbox : arrivals,
    match collect_KILL_COMP xs inbox with
    | None => forall x, In x xs -> has_KILL_COMP inbox x
    | Some x => In x xs /\ ~ has_KILL_COMP inbox x
    end.
Proof.
  induction xs as [|x xs IH]; intros Hnd inbox; cbn [collect_KILL_COMP].
  - intros x [].
  - inversion Hnd as [|y l Hx Hrest]; subst.
    destruct (MPI_Recv_from x KILL_COMP inbox) as [inbox'|] eqn:E.
    + assert (Hhas : has_KILL_COMP inbox x).
      { destruct (MPI_Recv_from_None x KILL_COMP inbox) as [_ Hn].
        unfold has_KILL_COMP.
        destruct (has_KILL_COMP_dec inbox x) as [H|H]; [exact H|].
        rewrite (Hn H) in E. discriminate E. }
      assert (Hsame : forall y, y <> x ->
                (has_KILL_COMP inbox y <-> has_KILL_COMP inbox' y)).
      { intros y Hy. unfold has_KILL_COMP.
        split; intros (q & Hin & Hs & Ht); exists q;
          (split; [|split; assumption]);
          apply (MPI_Recv_from_others x KILL_COMP y inbox inbox' E Hy q Hs);
          exact Hin. }
      specialize (IH Hrest inbox').
      destruct (collect_KILL_COMP xs inbox') as [z|].
      * destruct IH as [Hz Hno]. split; [right; exact Hz|].
        intros H. apply Hno. apply Hsame; [|exact H].
        intros ->. contradiction.
      * intros y [->|Hy]; [exact Hhas|].
        apply Hsame; [intros ->; contradiction|]. apply IH. exact Hy.
    + split; [left; reflexivity|].
      apply MPI_Recv_from_None in E. exact E.
Qed.

(** X6.  TIMEOUT in the event loop.  The master sends one KILL to every
    rank 2 .. N-1, in rank order, and then waits for the KILL_COMP of
    each rank in turn, taking them in any order of arrival and leaving
    other messages aside.  It reaches [MPI_Abort] exactly when every
    worker rank has a KILL_COMP among the later arrivals; otherwise it
    stays blocked on a worker rank that has none. *)
Theorem X6_timeout_shutdown_completes_iff_all_answer :
  forall (num_cores src dst : Z) (buf : list byte) (rest : arrivals)
         (s : master_state),
    let o := handle_event num_cores (mkPacket src dst TIMEOUT buf) rest s in
    let s' := state_of o in
    outbox s' = outbox s ++ kill_packets num_cores
    /\ map dest (kill_packets num_cores) = worker_ranks num_cores
    /\ (o = Aborted s' <->
        forall x, In x (worker_ranks num_cores) -> has_KILL_COMP rest x)
    /\ (forall x, o = AwaitingKillComp x s' ->
                  In x (worker_ranks num_cores) /\ ~ has_KILL_COMP rest x)
    /\ (o = Aborted s' \/ exists x, o = AwaitingKillComp x s').
Proof.
  intros N src dst buf rest s o s'.
  destruct (handle_event_TIMEOUT N src dst buf rest s) as [Hout Hres].
  fold o in Hout, Hres. fold s' in Hout, Hres.
  pose proof (collect_KILL_COMP_spec (worker_ranks N)
                (ranks_from_NoDup 2 _) rest) as Hc.
  split; [exact Hout|]. split.
  { unfold kill_packets. rewrite map_map. cbn [dest]. apply map_id. }
  destruct (collect_KILL_COMP (worker_ranks N) rest) as [x|].
  - destruct Hc as [Hx Hno]. splits.
    + split.
      * intros E. rewrite E in Hres. discriminate Hres.
      * intros H. exfalso. apply Hno. apply H. exact Hx.
    + intros y E. rewrite E in Hres. inversion Hres. subst y.
      split; assumption.
    + right. exists x. exact Hres.
  - splits.
    + split; [intros _; exact Hc|intros _; exact Hres].
    + intros y E. rewrite E in Hres. discriminate Hres.
    + left. exact Hres.
Qed.

(** X7.  BUG_FOUND in the event loop ends the run at once: the master
    calls [MPI_Abort] without sending KILL or anything else, whatever
    its state; the log, if still open, receives the BUG FOUND line and
    the elapsed-time line and is closed. *)
Theorem X7_bug_found_aborts_without_kill :
  forall (num_cores src dst : Z) (buf : list byte) (rest : arrivals)
         (s : master_state),
    let o := handle_event num_cores (mkPacket src dst BUG_FOUND buf) rest s in
    o = Aborted (state_of o)
    /\ outbox (state_of o) = outbox s
    /\ logOpen (state_of o) = false
    /\ masterLog (state_of o)
       = masterLog s
           ++ (if logOpen s
               then [mkLog "WORKER->MASTER:  BUG FOUND:" [src];
                     mkLog "Elapsed: " []]
               else []).
Proof.
  intros N src dst buf rest s o. subst o.
  unfold handle_event. cbn [MPI_TAG MPI_SOURCE]. tags. cbn [Z.eqb Pos.eqb].
  cbn [state_of]. unfold write_log.
  destruct (logOpen s) eqn:E; cbn; rewrite ?E; cbn;
    rewrite <- ?app_assoc, ?app_nil_r; splits; reflexivity.
Qed.

(** ** The run without prefixes *)

(** X8.  The [phase1Depth == 0] run.  The master starts by sending
    NORMAL_TASK to rank 2 and never addresses another rank.  It sends
    KILL (to rank 2) only when the first message it receives is FINISH,
    and then aborts once a KILL_COMP of rank 2 arrives and stays
    blocked if none does.  On TIMEOUT or BUG_FOUND it aborts without
    sending KILL.  Any other first message makes [master] return
    without [MPI_Abort], with nothing more sent. *)
Theorem X8_normal_mode_outcomes :
  forall inbox : arrivals,
    let o := master_normal_mode inbox in
    let out := outbox (state_of o) in
    (forall q, In q out -> dest q = 2 /\ MPI_SOURCE q = MASTER_NODE)
    /\ match first_message inbox with
       | None => o = Pending (state_of o)
                 /\ map MPI_TAG out = [NORMAL_TASK]
       | Some (p, rest) =>
           if MPI_TAG p =? FINISH then
             map MPI_TAG out = [NORMAL_TASK; KILL]
             /\ (has_KILL_COMP rest 2 -> o = Aborted (state_of o))
             /\ (~ has_KILL_COMP rest 2 ->
                 o = AwaitingKillComp 2 (state_of o))
           else
             map MPI_TAG out = [NORMAL_TASK]
             /\ (MPI_TAG p = TIMEOUT \/ MPI_TAG p = BUG_FOUND ->
                 o = Aborted (state_of o))
             /\ (MPI_TAG p <> TIMEOUT -> MPI_TAG p <> BUG_FOUND ->
                 o = Returned (state_of o))
       end.
Proof.
  intros inbox. cbv zeta. unfold master_normal_mode.
  set (s0 := MPI_Send dummy 2 NORMAL_TASK
               (mkState 0 [] [] [] [] false [] [mkLog "Started: " []] true)).
  set (out0 := [mkPacket MASTER_NODE 2 NORMAL_TASK dummy]).
  enough (forall s, outbox s = out0 ->
            (forall q, In q out0 -> dest q = 2 /\ MPI_SOURCE q = MASTER_NODE) ->
            map MPI_TAG out0 = [NORMAL_TASK] ->
            let o := master_normal_recv inbox s in
            (forall q, In q (outbox (state_of o)) ->
                       dest q = 2 /\ MPI_SOURCE q = MASTER_NODE)
            /\ match first_message inbox with
               | None => o = Pending (state_of o)
                         /\ map MPI_TAG (outbox (state_of o)) = [NORMAL_TASK]
               | Some (p, rest) =>
                   if MPI_TAG p =? FINISH then
                     map MPI_TAG (outbox (state_of o)) = [NORMAL_TASK; KILL]
                     /\ (has_KILL_COMP rest 2 -> o = Aborted (state_of o))
                     /\ (~ has_KILL_COMP rest 2 ->
                         o = AwaitingKillComp 2 (state_of o))
                   else
                     map MPI_TAG (outbox (state_of o)) = [NORMAL_TASK]
                     /\ (MPI_TAG p = TIMEOUT \/ MPI_TAG p = BUG_FOUND ->
                         o = Aborted (state_of o))
                     /\ (MPI_TAG p <> TIMEOUT -> MPI_TAG p <> BUG_FOUND ->
                         o = Returned (state_of o))
               end) as Hgen.
  { apply (Hgen s0 eq_refl).
    - intros q [<-|[]]. split; reflexivity.
    - reflexivity. }
  clear s0.
  induction inbox as [|[p|] rest IH]; intros s Hs Hd Ht; cbv zeta;
    cbn [master_normal_recv first_message].
  - cbn [state_of]. rewrite Hs. splits; [exact Hd|reflexivity|exact Ht].
  - destruct (Z.eqb_spec (MPI_TAG p) FINISH) as [E|NE].
    + assert (Hr : MPI_Recv_from 2 KILL_COMP rest = None
                   <-> ~ has_KILL_COMP rest 2)
        by apply MPI_Recv_from_None.
      destruct (MPI_Recv_from 2 KILL_COMP rest) as [r|]; proj; rewrite Hs.
      * splits.
        -- intros q Hq. apply in_app_or in Hq. destruct Hq as [Hq|[<-|[]]];
             [apply Hd; exact Hq|split; reflexivity].
        -- rewrite map_app, Ht. reflexivity.
        -- reflexivity.
        -- intros Hno. apply Hr in Hno. discriminate Hno.
      * splits.
        -- intros q Hq. apply in_app_or in Hq. destruct Hq as [Hq|[<-|[]]];
             [apply Hd; exact Hq|split; reflexivity].
        -- rewrite map_app, Ht. reflexivity.
        -- intros Hhas. exfalso. apply (proj1 Hr eq_refl). exact Hhas.
        -- reflexivity.
    + destruct (Z.eqb_spec (MPI_TAG p) TIMEOUT) as [E1|NE1].
      * proj. rewrite Hs. splits; try assumption; try reflexivity.
        intros H. contradiction.
      * destruct (Z.eqb_spec (MPI_TAG p) BUG_FOUND) as [E2|NE2].
        -- proj. rewrite Hs. splits; try assumption; try reflexivity.
           intros _ H. contradiction.
        -- cbn [state_of]. rewrite Hs. splits; try assumption; try reflexivity.
           intros [H|H]; contradiction.
  - apply IH; assumption.
Qed.

(** ** The master log after [close] *)

Lemma write_log_logOpen t a s : logOpen (write_log t a s) = logOpen s.
Proof. unfold write_log. destruct (logOpen s) eqn:E; cbn; auto. Qed.

Lemma write_log_masterLog t a s :
  masterLog (write_log t a s)
  = if logOpen s then masterLog s ++ [mkLog t a] else masterLog s.
Proof. unfold write_log. destruct (logOpen s); reflexivity. Qed.

Lemma kill_loop_log (xs : list Z) :
  forall s : master_state,
    let s' := fold_left (fun s' x => MPI_Send dummy x KILL s') xs s in
    masterLog s' = masterLog s /\ logOpen s' = logOpen s.
Proof.
  induction xs as [|x xs IH]; intros s; [split; reflexivity|].
  cbn [fold_left]. destruct (IH (MPI_Send dummy x KILL s)) as [H1 H2].
  cbv zeta. rewrite H1, H2. split; reflexivity.
Qed.

Lemma kill_all_logOpen (num_cores : Z) (s : master_state) :
  logOpen (kill_all num_cores s) = logOpen s.
Proof. unfold kill_all. apply (kill_loop_log (worker_ranks num_cores) s). Qed.

Lemma kill_all_masterLog (num_cores : Z) (s : master_state) :
  masterLog (kill_all num_cores s) = masterLog s.
Proof. unfold kill_all. apply (kill_loop_log (worker_ranks num_cores) s). Qed.

Create Rewrite HintDb masterlog.

#[local] Hint Rewrite write_log_logOpen write_log_masterLog kill_all_logOpen
  kill_all_masterLog : masterlog.

Ltac logs :=
  repeat (autorewrite with masterlog;
          cbn [masterLog logOpen set_cnt set_freeList set_busyList
               set_offloadActiveList set_offloadReadyList set_offloadActive
               MPI_Send close_log state_of]).

Lemma steal_trigger_log_frozen (num_cores : Z) (lb : bool)
      (s0 s : master_state) :
  log_frozen s0 s -> log_frozen s0 (steal_trigger num_cores lb s).
Proof.
  intros [Ho Hl]. unfold steal_trigger, log_frozen.
  destruct (_ && _); [|split; assumption].
  destruct (find _ _); [|split; assumption].
  logs. rewrite Ho. split; [reflexivity|exact Hl].
Qed.

(** X9.  Once [masterLog] is closed, as it is after BUG_FOUND in the
    dispatch loop, nothing the master does later reaches the log: every
    message of the dispatch loop and every iteration of the event loop
    leaves the log lines unchanged and the stream closed. *)
Theorem X9_closed_log_records_nothing :
  forall (num_cores : Z) (lb : bool) (workList : list (list byte))
         (s : master_state),
    logOpen s = false ->
    (forall p : packet,
        log_frozen s (state_of (dispatch_step num_cores workList p s)))
    /\ (forall (probe : option packet) (rest : arrivals),
           log_frozen s
             (state_of (event_iteration num_cores lb probe rest s))).
Proof.
  intros N lb wl s Hc. split.
  - intros p. unfold dispatch_step, log_frozen.
    destruct (MPI_TAG p =? FINISH); [logs; rewrite Hc; split; reflexivity|].
    destruct (MPI_TAG p =? BUG_FOUND); [logs; rewrite Hc; split; reflexivity|].
    destruct (MPI_TAG p =? READY_TO_OFFLOAD);
      [logs; rewrite ?Hc; split; reflexivity|].
    destruct (MPI_TAG p =? NOT_READY_TO_OFFLOAD);
      [|logs; rewrite ?Hc; split; reflexivity].
    destruct (found _ _); logs; rewrite ?Hc; split; reflexivity.
  - intros probe rest. unfold event_iteration.
    destruct probe as [p|];
      [|cbn [state_of]; apply steal_trigger_log_frozen; split;
        [exact Hc|reflexivity]].
    assert (He : log_frozen s (state_of (handle_event N p rest s))).
    { unfold handle_event, collect_and_abort, log_frozen.
      destruct (MPI_TAG p =? BUG_FOUND); [logs; rewrite Hc; split; reflexivity|].
      destruct (MPI_TAG p =? FINISH).
      { destruct (negb (found (MPI_SOURCE p) (freeList s)));
          match goal with |- context [if found ?a ?b then _ else _] =>
            destruct (found a b) end;
          match goal with |- context [if ?c =? ?d then _ else Continue _] =>
            destruct (c =? d) end;
          try (destruct (collect_KILL_COMP _ _));
          logs; rewrite ?Hc; split; reflexivity. }
      destruct (MPI_TAG p =? TIMEOUT).
      { destruct (collect_KILL_COMP _ _); logs; rewrite ?Hc;
          split; reflexivity. }
      destruct (MPI_TAG p =? READY_TO_OFFLOAD);
        [logs; rewrite ?Hc; split; reflexivity|].
      destruct (MPI_TAG p =? NOT_READY_TO_OFFLOAD);
        [logs; rewrite ?Hc; split; reflexivity|].
      destruct (MPI_TAG p =? OFFLOAD_RESP);
        [|logs; rewrite ?Hc; split; reflexivity].
      destruct (count p >? 4); [|logs; rewrite ?Hc; split; reflexivity].
      match goal with |- context [match ?l with [] => _ | _ :: _ => _ end] =>
        destruct l end;
        logs; rewrite ?Hc; split; reflexivity. }
    destruct (handle_event N p rest s); cbn [state_of] in *; try exact He.
    apply steal_trigger_log_frozen. exact He.
Qed.

(** X9 after BUG_FOUND in the dispatch loop: the START_WORK line of a
    later FINISH is lost. *)
Lemma X9_closed_log_records_nothing_witness :
  let s := state_of (dispatch_step 4 [P1; P2; P3]
                       (mkPacket 2 0 BUG_FOUND dummy)
                       (seeding 4 false [P1; P2; P3] initial_state)) in
  log_frozen s
    (state_of (dispatch_step 4 [P1; P2; P3] (mkPacket 3 0 FINISH dummy) s)).
Proof.
  cbv zeta.
  apply (proj1 (X9_closed_log_records_nothing 4 false [P1; P2; P3]
                  (state_of (dispatch_step 4 [P1; P2; P3]
                               (mkPacket 2 0 BUG_FOUND dummy)
                               (seeding 4 false [P1; P2; P3] initial_state)))
                  ltac:(vm_compute; reflexivity))).
Defined.

(** ** How the worker loop ends *)

Lemma worker_other_tag (world_rank phase1Depth phase2Depth : Z)
      (searchPolicy : string)
      (executeWorker : list byte -> Z -> Z -> Z -> string -> list packet
                       -> Worker.run)
      (st : packet) (rest : list packet) :
  MPI_TAG st <> KILL -> MPI_TAG st <> START_PREFIX_TASK ->
  MPI_TAG st <> NORMAL_TASK -> MPI_TAG st <> OFFLOAD ->
  Worker.worker world_rank phase1Depth phase2Depth searchPolicy
                executeWorker (st :: rest)
  = ([], Worker.Spinning).
Proof.
  intros H1 H2 H3 H4. simp worker.
  apply Z.eqb_neq in H1, H2, H3, H4. rewrite H1, H2, H3, H4. reflexivity.
Qed.

Lemma In_skipn {A : Type} (n : nat) (l : list A) (x : A) :
  In x (skipn n l) -> In x l.
Proof.
  intros H. rewrite <- (firstn_skipn n l). apply in_or_app. right. exact H.
Qed.

(** X10.  How the worker loop can end, whatever the interpreter does.
    It returns only if one of its messages was KILL or
    START_PREFIX_TASK; it is caught probing the same message forever
    only if a message carried a tag other than KILL,
    START_PREFIX_TASK, NORMAL_TASK and OFFLOAD; it is left inside the
    interpreter only if a task message arrived.  So with OFFLOAD and
    NORMAL_TASK messages alone it neither returns nor spins.  A
    receive of its own fails only on a KILL longer than [phase1Depth]
    or on an OFFLOAD that is not a whole number of ints, and it stores
    past its [int] only on an OFFLOAD of two ints or more. *)
Theorem X10_worker_end_states :
  forall (world_rank phase1Depth phase2Depth : Z) (searchPolicy : string)
         (executeWorker : list byte -> Z -> Z -> Z -> string -> list packet
                          -> Worker.run)
         (inbox : list packet),
    match snd (Worker.worker world_rank phase1Depth phase2Depth searchPolicy
                             executeWorker inbox) with
    | Worker.Returned =>
        exists p, In p inbox
                  /\ (MPI_TAG p = KILL \/ MPI_TAG p = START_PREFIX_TASK)
    | Worker.Spinning =>
        exists p, In p inbox
                  /\ MPI_TAG p <> KILL /\ MPI_TAG p <> START_PREFIX_TASK
                  /\ MPI_TAG p <> NORMAL_TASK /\ MPI_TAG p <> OFFLOAD
    | Worker.Executing =>
        exists p, In p inbox
                  /\ (MPI_TAG p = START_PREFIX_TASK
                      \/ MPI_TAG p = NORMAL_TASK)
    | Worker.Probing => True
    | Worker.Aborted =>
        exists p, In p inbox
                  /\ ((MPI_TAG p = KILL
                       /\ Worker.to_int phase1Depth < count p)
                      \/ (MPI_TAG p = OFFLOAD /\ count p mod 4 <> 0))
    | Worker.Overrun =>
        exists p, In p inbox
                  /\ MPI_TAG p = OFFLOAD
                  /\ count p mod 4 = 0 /\ 4 < count p
    end.
Proof.
  intros wr d1 d2 sp ex inbox.
  remember (List.length inbox) as n eqn:Hn.
  assert (Hle : (List.length inbox <= n)%nat) by lia. clear Hn.
  revert inbox Hle. induction n as [|n IH]; intros inbox Hle.
  { destruct inbox; [|cbn in Hle; lia]. simp worker. exact I. }
  destruct inbox as [|st rest]; [simp worker; exact I|].
  cbn [List.length] in Hle.
  assert (Hlift : forall l : list packet,
             (forall p, In p l -> In p rest) ->
             (List.length l <= n)%nat ->
             match snd (Worker.worker wr d1 d2 sp ex l) with
             | Worker.Returned =>
                 exists p, In p (st :: rest)
                           /\ (MPI_TAG p = KILL \/ MPI_TAG p = START_PREFIX_TASK)
             | Worker.Spinning =>
                 exists p, In p (st :: rest)
                           /\ MPI_TAG p <> KILL /\ MPI_TAG p <> START_PREFIX_TASK
                           /\ MPI_TAG p <> NORMAL_TASK /\ MPI_TAG p <> OFFLOAD
             | Worker.Executing =>
                 exists p, In p (st :: rest)
                           /\ (MPI_TAG p = START_PREFIX_TASK
                               \/ MPI_TAG p = NORMAL_TASK)
             | Worker.Probing => True
             | Worker.Aborted =>
                 exists p, In p (st :: rest)
                           /\ ((MPI_TAG p = KILL
                                /\ Worker.to_int d1 < count p)
                               \/ (MPI_TAG p = OFFLOAD /\ count p mod 4 <> 0))
             | Worker.Overrun =>
                 exists p, In p (st :: rest)
                           /\ MPI_TAG p = OFFLOAD
                           /\ count p mod 4 = 0 /\ 4 < count p
             end).
  { intros l Hsub Hlen. specialize (IH l Hlen).
    destruct (snd (Worker.worker wr d1 d2 sp ex l)); try exact I;
      destruct IH as (p & Hin & Hp); exists p;
      (split; [right; apply Hsub; exact Hin|exact Hp]). }
  destruct (Z.eq_dec (MPI_TAG st) KILL) as [E1|N1].
  { rewrite worker_KILL by exact E1.
    destruct (Worker.recv_fails _ _) eqn:Ef; cbn [snd]; exists st;
      (split; [left; reflexivity|]).
    - left. split; [exact E1|]. now apply recv_fails_lt.
    - left. exact E1. }
  destruct (Z.eq_dec (MPI_TAG st) START_PREFIX_TASK) as [E2|N2].
  { rewrite worker_START_PREFIX_TASK by exact E2. cbv zeta.
    destruct (Worker.returns _); cbn [snd]; exists st;
      (split; [left; reflexivity|]); [right|left]; exact E2. }
  destruct (Z.eq_dec (MPI_TAG st) NORMAL_TASK) as [E3|N3].
  { rewrite worker_NORMAL_TASK by exact E3. cbv zeta.
    destruct (Worker.returns _); cbn [snd].
    - apply Hlift; [intros p; apply In_skipn|].
      rewrite length_skipn. lia.
    - exists st. split; [left; reflexivity|right; exact E3]. }
  destruct (Z.eq_dec (MPI_TAG st) OFFLOAD) as [E4|N4].
  { rewrite worker_OFFLOAD by exact E4.
    destruct (Worker.recv_fails _ _) eqn:Ef.
    { cbn [snd]. exists st. split; [left; reflexivity|].
      right. split; [exact E4|]. now apply recv_fails_count_int. }
    assert (Hmod : count st mod 4 = 0).
    { destruct (Z.eq_dec (count st mod 4) 0) as [E|E]; [exact E|].
      apply recv_fails_count_int in E. rewrite E in Ef. discriminate Ef. }
    destruct (Z.ltb_spec 1 (Worker.count_int st)) as [Hlt|_].
    { cbn [snd]. exists st. split; [left; reflexivity|].
      split; [exact E4|]. split; [exact Hmod|].
      unfold Worker.count_int in Hlt. rewrite Hmod in Hlt. cbn [Z.eqb] in Hlt.
      assert (count st = 4 * (count st / 4)) by (apply Z.div_exact; lia).
      lia. }
    cbn [snd]. apply Hlift; [auto|lia]. }
  rewrite worker_other_tag by assumption. cbn [snd].
  exists st. split; [left; reflexivity|]. splits; assumption.
Qed.

(** * Properties of the driver *)

(** * Helper functions of the driver *)

Import Driver.

(** ** Decimal digits *)

Lemma fold_digits_uint (d : Decimal.uint) :
  forall acc : N,
    fold_left (fun acc c => (acc * 10 + digit_value c)%N)
              (lit (DecimalString.NilEmpty.string_of_uint d)) acc
    = uint_value d acc.
Proof.
  induction d; intros acc; cbn [DecimalString.NilEmpty.string_of_uint lit
    list_ascii_of_string fold_left uint_value]; try reflexivity;
    rewrite IHd; reflexivity.
Qed.

Lemma uint_value_pos (d : Decimal.uint) :
  forall acc : positive,
    uint_value d (Npos acc) = Npos (Pos.of_uint_acc d acc).
Proof.
  induction d; intros acc; cbn [uint_value Pos.of_uint_acc];
    try reflexivity;
    match goal with
    | |- uint_value _ ?a = Npos (Pos.of_uint_acc _ ?b) =>
        replace a with (Npos b) by lia; apply IHd
    end.
Qed.

Lemma uint_value_of_uint (d : Decimal.uint) : uint_value d 0 = N.of_uint d.
Proof.
  unfold N.of_uint.
  induction d; cbn [uint_value Pos.of_uint]; try reflexivity;
    try exact IHd;
    match goal with
    | |- uint_value _ ?a = Npos (Pos.of_uint_acc _ ?b) =>
        change a with (Npos b); apply uint_value_pos
    end.
Qed.

Lemma to_uint_not_Nil (n : N) : N.to_uint n <> Decimal.Nil.
Proof.
  intros H. pose proof (DecimalN.Unsigned.of_to n) as E.
  rewrite H in E. cbn in E. subst n. discriminate H.
Qed.

Lemma decimal_chars (n : N) :
  decimal n = lit (DecimalString.NilEmpty.string_of_uint (N.to_uint n)).
Proof.
  unfold decimal, DecimalString.NilZero.string_of_uint.
  pose proof (to_uint_not_Nil n).
  destruct (N.to_uint n); [contradiction|reflexivity..].
Qed.

(** Reading back the digits written for [n] gives [n]. *)
Lemma digits_value_decimal (n : N) : digits_value (decimal n) = n.
Proof.
  rewrite decimal_chars. unfold digits_value.
  rewrite fold_digits_uint, uint_value_of_uint.
  apply DecimalN.Unsigned.of_to.
Qed.

Lemma decimal_is_digits (n : N) : Forall (fun c => is_digit c = true) (decimal n).
Proof.
  rewrite decimal_chars. generalize (N.to_uint n) as d.
  induction d; cbn [DecimalString.NilEmpty.string_of_uint lit list_ascii_of_string];
    constructor; try reflexivity; exact IHd.
Qed.

Lemma decimal_length (n : N) :
  List.length (decimal n) = Decimal.nb_digits (N.to_uint n).
Proof.
  rewrite decimal_chars. generalize (N.to_uint n) as d.
  induction d; cbn [DecimalString.NilEmpty.string_of_uint lit list_ascii_of_string
                    List.length Decimal.nb_digits]; try reflexivity;
    f_equal; exact IHd.
Qed.

Lemma decimal_not_nil (n : N) : decimal n <> [].
Proof.
  intros H. apply (f_equal (@List.length _)) in H.
  rewrite decimal_length in H. pose proof (to_uint_not_Nil n).
  destruct (N.to_uint n); cbn in H; [contradiction|discriminate H..].
Qed.

Lemma uint_value_acc (d : Decimal.uint) :
  forall acc : N,
    uint_value d acc
    = (acc * 10 ^ N.of_nat (Decimal.nb_digits d) + uint_value d 0)%N.
Proof.
  induction d; intros acc; cbn [uint_value Decimal.nb_digits];
    [rewrite N.pow_0_r; ring|..];
    rewrite IHd; rewrite (IHd (0 * 10 + _)%N);
    rewrite Nat2N.inj_succ, N.pow_succ_r'; ring.
Qed.

Lemma to_uint_head (n : N) :
  N.to_uint n = Decimal.D0 Decimal.Nil
  \/ match N.to_uint n with
     | Decimal.Nil | Decimal.D0 _ => False
     | _ => True
     end.
Proof.
  pose proof (DecimalN.Unsigned.to_of (N.to_uint n)) as E.
  rewrite DecimalN.Unsigned.of_to in E.
  pose proof (to_uint_not_Nil n) as Hn.
  destruct (N.to_uint n) as [|l| | | | | | | | |]; try (right; exact I);
    [contradiction|].
  unfold Decimal.unorm in E. cbn [Decimal.nzhead] in E.
  pose proof (DecimalFacts.nb_digits_nzhead l) as Hl.
  destruct (Decimal.nzhead l) eqn:Hz.
  - left. exact E.
  - exfalso. rewrite <- E in Hl. cbn [Decimal.nb_digits] in Hl. lia.
  - exfalso. discriminate E.
  - exfalso. discriminate E.
  - exfalso. discriminate E.
  - exfalso. discriminate E.
  - exfalso. discriminate E.
  - exfalso. discriminate E.
  - exfalso. discriminate E.
  - exfalso. discriminate E.
  - exfalso. discriminate E.
Qed.

(** A number written with [L] digits, [L > 1], is at least [10^(L-1)]. *)
Lemma decimal_lower_bound (n : N) :
  List.length (decimal n) = 1%nat
  \/ (10 ^ N.of_nat (List.length (decimal n) - 1) <= n)%N.
Proof.
  rewrite decimal_length.
  pose proof (DecimalN.Unsigned.of_to n) as E.
  rewrite <- uint_value_of_uint in E.
  destruct (to_uint_head n) as [H|H]; [left; rewrite H; reflexivity|right].
  destruct (N.to_uint n) as [|l|l|l|l|l|l|l|l|l|l]; try contradiction;
    cbn [uint_value Decimal.nb_digits] in *;
    rewrite Nat.sub_succ, Nat.sub_0_r;
    rewrite uint_value_acc in E; rewrite <- E;
    set (P := (10 ^ N.of_nat (Decimal.nb_digits l))%N); lia.
Qed.

Lemma decimal_length_bound (n : N) (k : nat) :
  (0 < k)%nat -> (n < 10 ^ N.of_nat k)%N ->
  (0 < List.length (decimal n) <= k)%nat.
Proof.
  intros Hk Hn. split.
  { pose proof (decimal_not_nil n). destruct (decimal n); [contradiction|].
    cbn. lia. }
  destruct (decimal_lower_bound n) as [H|H]; [lia|].
  assert (Hlt : (10 ^ N.of_nat (List.length (decimal n) - 1)
                 < 10 ^ N.of_nat k)%N) by lia.
  apply N.pow_lt_mono_r_iff in Hlt; lia.
Qed.

Lemma digits_value_app (s t : str) :
  digits_value (s ++ t)
  = fold_left (fun acc c => (acc * 10 + digit_value c)%N) t (digits_value s).
Proof. unfold digits_value. apply fold_left_app. Qed.

Lemma digits_value_fill_zero (k : nat) (s : str) :
  digits_value (fill k "0"%char ++ s) = digits_value s.
Proof.
  rewrite digits_value_app.
  replace (digits_value (fill k "0"%char)) with 0%N; [reflexivity|].
  unfold digits_value, fill. induction k; [reflexivity|exact IHk].
Qed.

Lemma fill_length (k : nat) (c : ascii) : List.length (fill k c) = k.
Proof. apply repeat_length. Qed.

Lemma fill_is_digits (k : nat) :
  Forall (fun c => is_digit c = true) (fill k "0"%char).
Proof. induction k; constructor; [reflexivity|exact IHk]. Qed.

(** ** [format_tdiff] *)

Lemma sprintf_02ld_small (v : Z) :
  0 <= v < 100 ->
  List.length (sprintf_02ld v) = 2%nat
  /\ Forall (fun c => is_digit c = true) (sprintf_02ld v)
  /\ digits_value (sprintf_02ld v) = Z.to_N v.
Proof.
  intros Hv. unfold sprintf_02ld.
  destruct (Z.ltb_spec v 0) as [Hneg|_]; [lia|].
  assert (Hlen : (0 < List.length (decimal (Z.to_N v)) <= 2)%nat).
  { apply decimal_length_bound; [lia|]. change (10 ^ N.of_nat 2)%N with 100%N.
    lia. }
  splits.
  - rewrite length_app, fill_length. lia.
  - apply Forall_app. split; [apply fill_is_digits|apply decimal_is_digits].
  - rewrite digits_value_fill_zero. apply digits_value_decimal.
Qed.

Lemma format_tdiff_parts :
  forall (buf : str) (seconds : Z),
    0 <= seconds ->
    exists (days : N) (hh mm ss : str),
      format_tdiff buf seconds
      = Some (buf
                ++ (if (days =? 0)%N then []
                    else decimal days ++ lit " days, ")
                ++ hh ++ lit ":" ++ mm ++ lit ":" ++ ss)
      /\ List.length hh = 2%nat /\ List.length mm = 2%nat
      /\ List.length ss = 2%nat
      /\ Forall (fun c => is_digit c = true) (hh ++ mm ++ ss)
      /\ (digits_value hh < 24 /\ digits_value mm < 60
          /\ digits_value ss < 60)%N
      /\ digits_value (decimal days) = days
      /\ Z.of_N days * 86400 + Z.of_N (digits_value hh) * 3600
         + Z.of_N (digits_value mm) * 60 + Z.of_N (digits_value ss)
         = seconds.
Proof.
  intros buf seconds Hs. unfold format_tdiff.
  destruct (Z.geb_spec seconds 0) as [_|Hneg]; [|lia]. cbn [negb].
  rewrite (Z.quot_div_nonneg seconds 60), (Z.rem_mod_nonneg seconds 60) by lia.
  set (m := seconds / 60). set (s := seconds mod 60).
  assert (Hm : 0 <= m) by (subst m; apply Z.div_pos; lia).
  rewrite (Z.quot_div_nonneg m 60), (Z.rem_mod_nonneg m 60) by lia.
  set (h := m / 60). set (m' := m mod 60).
  assert (Hh : 0 <= h) by (subst h; apply Z.div_pos; lia).
  rewrite (Z.quot_div_nonneg h 24), (Z.rem_mod_nonneg h 24) by lia.
  set (d := h / 24). set (h' := h mod 24).
  assert (Hd : 0 <= d) by (subst d; apply Z.div_pos; lia).
  assert (Rs : 0 <= s < 60) by (subst s; apply Z.mod_pos_bound; lia).
  assert (Rm : 0 <= m' < 60) by (subst m'; apply Z.mod_pos_bound; lia).
  assert (Rh : 0 <= h' < 24) by (subst h'; apply Z.mod_pos_bound; lia).
  destruct (sprintf_02ld_small s ltac:(lia)) as (Ls & Ds & Vs).
  destruct (sprintf_02ld_small m' ltac:(lia)) as (Lm & Dm & Vm).
  destruct (sprintf_02ld_small h' ltac:(lia)) as (Lh & Dh & Vh).
  exists (Z.to_N d), (sprintf_02ld h'), (sprintf_02ld m'), (sprintf_02ld s).
  splits; try assumption.
  - f_equal. destruct (Z.gtb_spec d 0) as [Hpos|Hzero].
    + destruct (N.eqb_spec (Z.to_N d) 0) as [E|_]; [lia|].
      unfold sprintf_ld. destruct (Z.ltb_spec d 0); [lia|].
      rewrite <- !app_assoc. reflexivity.
    + replace d with 0 by lia. reflexivity.
  - apply Forall_app. split; [exact Dh|].
    apply Forall_app. split; assumption.
  - rewrite Vh. lia.
  - rewrite Vm. lia.
  - rewrite Vs. lia.
  - apply digits_value_decimal.
  - rewrite Vh, Vm, Vs, !Z2N.id by lia.
    pose proof (Z.div_mod seconds 60 ltac:(lia)).
    pose proof (Z.div_mod m 60 ltac:(lia)).
    pose proof (Z.div_mod h 24 ltac:(lia)).
    subst d h' h m' m s. lia.
Qed.

(** X11.  [format_tdiff] on a non-negative number of seconds appends
    to [buf] an optional day count followed by [" days, "] and then
    [hh:mm:ss] with exactly two digits each, hours below 24, minutes and
    seconds below 60.  The day count is written exactly when it is not
    zero, and the text reads back to the argument: days * 86400 +
    hh * 3600 + mm * 60 + ss is the number of seconds given. *)
Theorem X11_format_tdiff_reads_back :
  forall (buf : str) (seconds : Z),
    0 <= seconds ->
    exists (days : N) (hh mm ss : str),
      format_tdiff buf seconds
      = Some (buf
                ++ (if (days =? 0)%N then []
                    else decimal days ++ lit " days, ")
                ++ hh ++ lit ":" ++ mm ++ lit ":" ++ ss)
      /\ List.length hh = 2%nat /\ List.length mm = 2%nat
      /\ List.length ss = 2%nat
      /\ Forall (fun c => is_digit c = true) (hh ++ mm ++ ss)
      /\ (digits_value hh < 24 /\ digits_value mm < 60
          /\ digits_value ss < 60)%N
      /\ digits_value (decimal days) = days
      /\ Z.of_N days * 86400 + Z.of_N (digits_value hh) * 3600
         + Z.of_N (digits_value mm) * 60 + Z.of_N (digits_value ss)
         = seconds.
Proof. exact format_tdiff_parts. Qed.

(** X11 at one hour, two minutes and five seconds. *)
Lemma X11_format_tdiff_reads_back_witness :
  exists (days : N) (hh mm ss : str),
    format_tdiff (lit "Elapsed: ") 3725
    = Some (lit "Elapsed: "
              ++ (if (days =? 0)%N then []
                  else decimal days ++ lit " days, ")
              ++ hh ++ lit ":" ++ mm ++ lit ":" ++ ss)
    /\ List.length hh = 2%nat /\ List.length mm = 2%nat
    /\ List.length ss = 2%nat
    /\ Forall (fun c => is_digit c = true) (hh ++ mm ++ ss)
    /\ (digits_value hh < 24 /\ digits_value mm < 60
        /\ digits_value ss < 60)%N
    /\ digits_value (decimal days) = days
    /\ Z.of_N days * 86400 + Z.of_N (digits_value hh) * 3600
       + Z.of_N (digits_value mm) * 60 + Z.of_N (digits_value ss)
       = 3725.
Proof.
  apply (X11_format_tdiff_reads_back (lit "Elapsed: ") 3725). lia.
Defined.

(** X12.  The elapsed-time line of the master log.  A negative
    difference of the two clock readings fails the assertion of
    [format_tdiff], and nothing else does.  For every non-negative
    [long] the line has between 18 and 40 characters, so it and its
    terminator fit the 256-byte buffer; below one day it has exactly
    18. *)
Theorem X12_elapsed_line_fits_the_buffer :
  forall seconds : Z,
    (elapsed_line seconds = None <-> seconds < 0)
    /\ (0 <= seconds < 2 ^ 63 ->
        exists line, elapsed_line seconds = Some line
                     /\ (18 <= List.length line <= 40)%nat
                     /\ (seconds < 86400 -> List.length line = 18%nat)).
Proof.
  intros seconds. split.
  - unfold elapsed_line, format_tdiff.
    destruct (Z.geb_spec seconds 0); cbn [negb]; split;
      try discriminate; try lia; reflexivity.
  - intros Hs.
    destruct (format_tdiff_parts (lit "Elapsed: ") seconds ltac:(lia))
      as (days & hh & mm & ss & E & Lh & Lm & Ls & _ & _ & _ & Heq).
    unfold elapsed_line. rewrite E. eexists. split; [reflexivity|].
    rewrite !length_app, Lh, Lm, Ls. cbn [lit list_ascii_of_string List.length].
    destruct (N.eqb_spec days 0) as [Hz|Hnz].
    + cbn [List.length]. split; [lia|]. intros _. lia.
    + rewrite length_app. cbn [lit list_ascii_of_string List.length].
      assert (Hdays : (days < 10 ^ N.of_nat 15)%N).
      { change (10 ^ N.of_nat 15)%N with 1000000000000000%N.
        change (2 ^ 63) with 9223372036854775808 in Hs. lia. }
      pose proof (decimal_length_bound days 15 ltac:(lia) Hdays).
      split; [lia|]. intros Hlt. lia.
Qed.

(** ** [getTestFilename] *)

Lemma getTestFilename_number (suffix : str) (id : N) :
  exists digits,
    getTestFilename suffix id = lit "test" ++ digits ++ "."%char :: suffix
    /\ digits_value digits = id
    /\ Forall (fun c => is_digit c = true) digits
    /\ (6 <= List.length digits)%nat
    /\ ((id < 1000000)%N -> List.length digits = 6%nat).
Proof.
  exists (fill (6 - List.length (decimal id)) "0"%char ++ decimal id).
  splits.
  - unfold getTestFilename. rewrite <- !app_assoc. reflexivity.
  - rewrite digits_value_fill_zero. apply digits_value_decimal.
  - apply Forall_app. split; [apply fill_is_digits|apply decimal_is_digits].
  - rewrite length_app, fill_length. lia.
  - intros Hid. rewrite length_app, fill_length.
    pose proof (decimal_length_bound id 6 ltac:(lia)
                  ltac:(change (10 ^ N.of_nat 6)%N with 1000000%N; lia)).
    lia.
Qed.

Lemma digits_then_dot (da db s1 s2 : str) :
  Forall (fun c => is_digit c = true) da ->
  Forall (fun c => is_digit c = true) db ->
  da ++ "."%char :: s1 = db ++ "."%char :: s2 ->
  da = db /\ s1 = s2.
Proof.
  intros Ha. revert db. induction Ha as [|a da Ha _ IH]; intros db Hb E.
  - destruct Hb as [|b db Hb _]; cbn in E.
    + inversion E. split; reflexivity.
    + inversion E; subst. discriminate Hb.
  - destruct Hb as [|b db Hb Hdb]; cbn in E.
    + inversion E; subst. discriminate Ha.
    + inversion E; subst. destruct (IH db Hdb H1) as [-> ->].
      split; reflexivity.
Qed.

Lemma getTestFilename_inj (s1 s2 : str) (a b : N) :
  getTestFilename s1 a = getTestFilename s2 b -> a = b /\ s1 = s2.
Proof.
  destruct (getTestFilename_number s1 a) as (da & Ea & Va & Da & _).
  destruct (getTestFilename_number s2 b) as (db & Eb & Vb & Db & _).
  rewrite Ea, Eb. intros H. apply app_inv_head in H.
  destruct (digits_then_dot da db s1 s2 Da Db H) as [-> ->].
  split; [congruence|reflexivity].
Qed.

(** X13 ([KleeHandler::getTestFilename], lines 564-568): the name is
    ["test"], the test number in decimal padded with zeros to at least
    six digits, a dot and the suffix; below a million the number takes
    exactly six digits, so the name has 11 characters plus the suffix.
    The number and the suffix read back from the name: two names are
    the same only for the same test and the same suffix. *)
Theorem X13_test_filenames_do_not_collide :
  forall (suffix suffix' : str) (a b : N),
    (exists digits,
        getTestFilename suffix a = lit "test" ++ digits ++ "."%char :: suffix
        /\ digits_value digits = a
        /\ Forall (fun c => is_digit c = true) digits
        /\ (6 <= List.length digits)%nat
        /\ ((a < 1000000)%N ->
            List.length (getTestFilename suffix a)
            = (11 + List.length suffix)%nat))
    /\ (getTestFilename suffix a = getTestFilename suffix' b ->
        a = b /\ suffix = suffix').
Proof.
  intros suffix suffix' a b. split.
  - destruct (getTestFilename_number suffix a) as (da & Ea & Va & Da & La & L6).
    exists da. splits; try assumption.
    intros Ha. rewrite Ea, !length_app. cbn [List.length lit list_ascii_of_string].
    rewrite (L6 Ha). lia.
  - apply getTestFilename_inj.
Qed.

(** ** [strip] *)

Import Text.

Lemma lead_loop_spec (s : str) (n : nat) :
  forall lead : nat,
    let l := lead_loop s n lead in
    (lead <= l <= lead + n)%nat
    /\ (forall i, (lead <= i < l)%nat -> isspace (at_index s i) = true)
    /\ ((l < lead + n)%nat -> isspace (at_index s l) = false).
Proof.
  induction n as [|n IH]; intros lead; cbn [lead_loop]; cbv zeta.
  - splits; intros; lia.
  - destruct (isspace (at_index s lead)) eqn:E.
    + destruct (IH (S lead)) as (H1 & H2 & H3). cbv zeta in *.
      split; [|split].
      * lia.
      * intros i Hi. destruct (Nat.eq_dec i lead) as [->|Hne];
          [exact E|apply H2; lia].
      * intros Hl. apply H3. lia.
    + splits; intros; try lia. exact E.
Qed.

Lemma trail_loop_spec (s : str) (n : nat) :
  forall trail : nat,
    (n <= trail)%nat ->
    let t := trail_loop s n trail in
    (trail - n <= t <= trail)%nat
    /\ (forall i, (t <= i < trail)%nat -> isspace (at_index s i) = true)
    /\ ((trail - n < t)%nat -> isspace (at_index s (t - 1)) = false).
Proof.
  induction n as [|n IH]; intros trail Hn; cbn [trail_loop]; cbv zeta.
  - splits; intros; lia.
  - destruct (isspace (at_index s (trail - 1))) eqn:E.
    + destruct (IH (trail - 1)%nat ltac:(lia)) as (H1 & H2 & H3).
      cbv zeta in *. split; [|split].
      * lia.
      * intros i Hi. destruct (Nat.eq_dec i (trail - 1)) as [->|Hne];
          [exact E|apply H2; lia].
      * intros Hl. apply H3. lia.
    + splits; intros; try lia. exact E.
Qed.

Lemma Forall_firstn_index (s : str) (k : nat) :
  (k <= List.length s)%nat ->
  (forall i, (i < k)%nat -> isspace (at_index s i) = true) ->
  Forall (fun c => isspace c = true) (firstn k s).
Proof.
  revert k. induction s as [|c s IH]; intros k Hk H.
  - rewrite firstn_nil. constructor.
  - destruct k as [|k]; [constructor|]. cbn [firstn]. constructor.
    + apply (H 0%nat). lia.
    + apply IH; [cbn in Hk; lia|]. intros i Hi. apply (H (S i)). lia.
Qed.

Lemma Forall_skipn_index (s : str) (k : nat) :
  (forall i, (k <= i < List.length s)%nat -> isspace (at_index s i) = true) ->
  Forall (fun c => isspace c = true) (skipn k s).
Proof.
  revert k. induction s as [|c s IH]; intros k H.
  - rewrite skipn_nil. constructor.
  - destruct k as [|k].
    + cbn [skipn]. constructor.
      * apply (H 0%nat). cbn. lia.
      * apply (IH 0%nat). intros i Hi. apply (H (S i)). cbn. lia.
    + cbn [skipn]. apply IH. intros i Hi. apply (H (S i)). cbn. lia.
Qed.

(** The indices [strip] cuts at, for a string shorter than [2^32]. *)
Lemma strip_cut (s : str) :
  Z.of_nat (List.length s) < 2 ^ 32 ->
  exists lead trail : nat,
    strip s = firstn (trail - lead) (skipn lead s)
    /\ (lead <= trail <= List.length s)%nat
    /\ (forall i, (i < lead)%nat -> isspace (at_index s i) = true)
    /\ (forall i, (trail <= i < List.length s)%nat ->
                  isspace (at_index s i) = true)
    /\ ((lead < trail)%nat ->
        isspace (at_index s lead) = false
        /\ isspace (at_index s (trail - 1)) = false).
Proof.
  intros Hlen. unfold strip.
  rewrite Z.mod_small by lia. rewrite Nat2Z.id.
  set (len := List.length s).
  destruct (lead_loop_spec s len 0) as (L1 & L2 & L3). cbv zeta in *.
  set (lead := lead_loop s len 0) in *.
  destruct (trail_loop_spec s (len - lead) len ltac:(lia)) as (T1 & T2 & T3).
  cbv zeta in *. set (trail := trail_loop s (len - lead) len) in *.
  exists lead, trail.
  split; [reflexivity|]. split; [lia|]. split; [|split].
  - intros i Hi. apply L2. lia.
  - exact T2.
  - intros Hlt. split; [apply L3; lia|apply T3; lia].
Qed.

Lemma firstn_skipn_split (s : str) (a b : nat) :
  (a <= b <= List.length s)%nat ->
  s = firstn a s ++ firstn (b - a) (skipn a s) ++ skipn b s.
Proof.
  intros H. rewrite <- (firstn_skipn a s) at 1. f_equal.
  rewrite <- (firstn_skipn (b - a) (skipn a s)) at 1. f_equal.
  rewrite skipn_skipn. f_equal. lia.
Qed.

Lemma at_index_cut (s : str) (a k i : nat) :
  (i < k)%nat -> (a + k <= List.length s)%nat ->
  at_index (firstn k (skipn a s)) i = at_index s (a + i).
Proof.
  intros Hi Hk. unfold at_index.
  rewrite nth_firstn. destruct (Nat.ltb_spec i k); [|lia].
  rewrite nth_skipn. reflexivity.
Qed.

Lemma strip_fixed (s : str) :
  Z.of_nat (List.length s) < 2 ^ 32 ->
  (s = [] \/ (isspace (at_index s 0) = false
              /\ isspace (at_index s (List.length s - 1)) = false)) ->
  strip s = s.
Proof.
  intros Hlen H. destruct H as [->|[H0 Hl]]; [reflexivity|].
  unfold strip. rewrite Z.mod_small by lia. rewrite Nat2Z.id.
  destruct s as [|c s]; [reflexivity|].
  set (len := List.length (c :: s)).
  assert (Hlead : lead_loop (c :: s) len 0 = 0%nat).
  { subst len. cbn [List.length lead_loop]. rewrite H0. reflexivity. }
  rewrite Hlead, !Nat.sub_0_r.
  assert (Htrail : trail_loop (c :: s) len len = len).
  { subst len. cbn [List.length trail_loop]. cbn [List.length] in Hl.
    rewrite Hl. reflexivity. }
  rewrite Htrail. cbn [skipn]. apply firstn_all.
Qed.

Lemma strip_parts :
  forall s : str,
    Z.of_nat (List.length s) < 2 ^ 32 ->
    (exists pre post,
        s = pre ++ strip s ++ post
        /\ Forall (fun c => isspace c = true) pre
        /\ Forall (fun c => isspace c = true) post)
    /\ (strip s <> [] ->
        isspace (at_index (strip s) 0) = false
        /\ isspace (at_index (strip s) (List.length (strip s) - 1)) = false)
    /\ (Forall (fun c => isspace c = true) s -> strip s = [])
    /\ strip (strip s) = strip s.
Proof.
  intros s Hlen.
  destruct (strip_cut s Hlen) as (lead & trail & E & Hlt & Hpre & Hpost & Hin).
  assert (Hcut_len : List.length (strip s) = (trail - lead)%nat).
  { rewrite E, length_firstn, length_skipn. lia. }
  assert (Hends : strip s <> [] ->
            isspace (at_index (strip s) 0) = false
            /\ isspace (at_index (strip s) (List.length (strip s) - 1)) = false).
  { intros Hne.
    assert (Hlt' : (lead < trail)%nat).
    { destruct (Nat.eq_dec lead trail) as [->|]; [|lia].
      rewrite Nat.sub_diag in E. cbn in E. contradiction. }
    destruct (Hin Hlt') as [H0 H1]. rewrite Hcut_len. rewrite E.
    rewrite !at_index_cut by lia. split.
    - rewrite Nat.add_0_r. exact H0.
    - replace (lead + (trail - lead - 1))%nat with (trail - 1)%nat by lia.
      exact H1. }
  split; [|split; [|split]].
  - exists (firstn lead s), (skipn trail s). split; [|split].
    + rewrite E. apply firstn_skipn_split. lia.
    + apply Forall_firstn_index; [lia|exact Hpre].
    + apply Forall_skipn_index. exact Hpost.
  - exact Hends.
  - intros Hall. destruct (Nat.eq_dec lead trail) as [->|Hne].
    + rewrite E, Nat.sub_diag. reflexivity.
    + exfalso. destruct (Hin ltac:(lia)) as [H0 _].
      assert (Hs : isspace (at_index s lead) = true).
      { unfold at_index. rewrite Forall_forall in Hall. apply Hall.
        apply nth_In. lia. }
      rewrite Hs in H0. discriminate H0.
  - apply strip_fixed.
    + rewrite Hcut_len. lia.
    + destruct (strip s) eqn:Es; [left; reflexivity|right].
      apply Hends. discriminate.
Qed.

(** X14.  [strip] removes the white space at both ends and nothing
    else: for a string shorter than [2^32] the argument is the result
    between a run of white space and another one; the result neither
    begins nor ends with white space; a string of white space only
    gives the empty string; and stripping twice changes nothing
    more. *)
Theorem X14_strip_removes_outer_space :
  forall s : str,
    Z.of_nat (List.length s) < 2 ^ 32 ->
    (exists pre post,
        s = pre ++ strip s ++ post
        /\ Forall (fun c => isspace c = true) pre
        /\ Forall (fun c => isspace c = true) post)
    /\ (strip s <> [] ->
        isspace (at_index (strip s) 0) = false
        /\ isspace (at_index (strip s) (List.length (strip s) - 1)) = false)
    /\ (Forall (fun c => isspace c = true) s -> strip s = [])
    /\ strip (strip s) = strip s.
Proof. exact strip_parts. Qed.

(** X14 on a line of an environ file. *)
Lemma X14_strip_removes_outer_space_witness :
  strip (strip (lit "  PATH=/bin  ")) = strip (lit "  PATH=/bin  ").
Proof.
  apply (X14_strip_removes_outer_space (lit "  PATH=/bin  ")).
  vm_compute. reflexivity.
Defined.

Example strip_environ_line :
  strip (lit "  PATH=/bin  ") = lit "PATH=/bin".
Proof. vm_compute. reflexivity. Qed.

(** ** [getline] loops *)

Import Streams.

Lemma getline_chars_tokenize (s : str) (d : ascii) :
  s <> [] ->
  tokenize s d
  = fst (fst (getline_chars s d))
      :: tokenize (snd (fst (getline_chars s d))) d.
Proof.
  induction s as [|c s IH]; intros H; [contradiction|].
  cbn [getline_chars tokenize].
  destruct (Ascii.eqb c d); [reflexivity|].
  destruct s as [|c' s']; [reflexivity|].
  rewrite IH by discriminate.
  destruct (getline_chars (c' :: s') d) as [[t r] e]. reflexivity.
Qed.

Lemma getline_chars_end (s : str) (d : ascii) :
  snd (getline_chars s d) = true -> snd (fst (getline_chars s d)) = [].
Proof.
  induction s as [|c s IH]; [reflexivity|].
  cbn [getline_chars]. destruct (Ascii.eqb c d); [discriminate|].
  destruct (getline_chars s d) as [[t r] e]. exact IH.
Qed.

Lemma good_open_stream (s : str) : good (open_stream s) = true.
Proof. reflexivity. Qed.

(** What [getline] does on a good stream. *)
Lemma getline_good (stream : istream) (token : str) (d : ascii) :
  good stream = true ->
  getline stream token d
  = (let '(t, r, e) := getline_chars (chars stream) d in
     (mkStream r (read_error stream) (e && negb (read_error stream))
               (e && match t with [] => true | _ => false end)
               (e && read_error stream), t)).
Proof. intros H. unfold getline. rewrite H. reflexivity. Qed.

Lemma getline_not_good (stream : istream) (token : str) (d : ascii) :
  good stream = false -> failbit (fst (getline stream token d)) = true.
Proof. intros H. unfold getline. rewrite H. reflexivity. Qed.

Lemma getline_chars_nothing (s : str) (d : ascii) :
  s <> [] ->
  (snd (getline_chars s d)
   && match fst (fst (getline_chars s d)) with [] => true | _ => false end)
  = false.
Proof.
  destruct s as [|c s]; [contradiction|]. intros _. cbn [getline_chars].
  destruct (Ascii.eqb c d); [reflexivity|].
  destruct (getline_chars s d) as [[t r] e]. cbn. apply andb_false_r.
Qed.

(** A [getline] loop on a stream runs its body over the tokens of the
    characters left, and not at all when the stream is not good. *)
Lemma while_getline_tokens {E S : Type}
      (body : str -> S -> loop_result E S)
      (stream : istream) (token : str) (d : ascii) (st : S) :
  while_getline body stream token d st
  = if good stream
    then over_tokens body (tokenize (chars stream) d) st
    else Ran_out st.
Proof.
  funelim (while_getline body stream token d st); clear Heqcall;
    destruct (good stream) eqn:Eg;
    try (pose proof (getline_not_good stream token delim Eg) as Hf;
         rewrite e1 in Hf; cbn [fst] in Hf; congruence);
    try reflexivity;
    pose proof e1 as Hg; rewrite (getline_good _ _ _ Eg) in Hg;
    (destruct (chars stream) as [|c s] eqn:Ec;
     [cbn in Hg; inversion Hg; subst; try discriminate; reflexivity|]);
    pose proof (getline_chars_nothing (c :: s) delim ltac:(discriminate))
      as Hn;
    pose proof (getline_chars_tokenize (c :: s) delim ltac:(discriminate))
      as Ht;
    pose proof (getline_chars_end (c :: s) delim) as Hend;
    destruct (getline_chars (c :: s) delim) as [[t r] e'];
    cbn [fst snd] in Hn, Ht, Hend; inversion Hg; subst;
    cbn [failbit] in *; rewrite Ht; cbn [over_tokens].
  - (* the call failed *)
    congruence.
  - (* the body left the function *)
    rewrite Heq. reflexivity.
  - (* one more round *)
    rewrite Heq, H. clear H. unfold good. cbn [chars eofbit failbit badbit].
    rewrite Hn. destruct e'.
    + rewrite (Hend eq_refl). destruct (read_error stream); reflexivity.
    + reflexivity.
Qed.

Lemma over_tokens_push {E : Type} (tokens acc : list str) :
  over_tokens (E := E) (fun token tokens => Ran_out (tokens ++ [token]))
              tokens acc
  = Ran_out (acc ++ tokens).
Proof.
  revert acc. induction tokens as [|t ts IH]; intros acc; cbn.
  - now rewrite app_nil_r.
  - rewrite IH, <- app_assoc. reflexivity.
Qed.

Lemma split_tokenize (s : str) (d : ascii) : split s d = tokenize s d.
Proof.
  unfold split. rewrite while_getline_tokens, good_open_stream.
  cbn [open_stream chars]. rewrite over_tokens_push. reflexivity.
Qed.

Lemma tokenize_nil (s : str) (d : ascii) : tokenize s d = [] -> s = [].
Proof.
  destruct s as [|c s]; [reflexivity|]. cbn.
  destruct (Ascii.eqb c d); [discriminate|].
  destruct (tokenize s d); discriminate.
Qed.

Lemma tokenize_free (s : str) (d : ascii) :
  Forall (fun t => ~ In d t) (tokenize s d).
Proof.
  induction s as [|c s IH]; cbn; [constructor|].
  destruct (Ascii.eqb_spec c d) as [->|Hne].
  - constructor; [intros []|exact IH].
  - destruct (tokenize s d) as [|t ts].
    + constructor; [|constructor]. intros [H|[]]. congruence.
    + inversion IH; subst. constructor; [|assumption].
      intros [H|H]; [congruence|contradiction].
Qed.

Lemma tokenize_no_delimiter (s : str) (d : ascii) :
  s <> [] -> ~ In d s -> tokenize s d = [s].
Proof.
  induction s as [|c s IH]; intros Hs Hin; [contradiction|].
  cbn. destruct (Ascii.eqb_spec c d) as [->|Hne].
  { exfalso. apply Hin. now left. }
  destruct s as [|c' s']; [reflexivity|].
  rewrite IH; [reflexivity|discriminate|].
  intros H. apply Hin. now right.
Qed.

Lemma terminated_cons (d c : ascii) (s : str) :
  s <> [] -> terminated d (c :: s) = c :: terminated d s.
Proof.
  destruct s as [|c' s']; [contradiction|]. intros _.
  unfold terminated. cbn [last].
  destruct (Ascii.eqb _ d); reflexivity.
Qed.

Lemma tokenize_terminated (s : str) (d : ascii) :
  terminate_all d (tokenize s d) = terminated d s.
Proof.
  induction s as [|c s IH]; [reflexivity|].
  cbn [tokenize]. destruct (Ascii.eqb_spec c d) as [->|Hne].
  - unfold terminate_all in *. cbn [map concat app]. rewrite IH.
    destruct s as [|c' s'].
    + cbn. now rewrite Ascii.eqb_refl.
    + now rewrite (terminated_cons d d (c' :: s')) by discriminate.
  - destruct (tokenize s d) as [|t ts] eqn:Et.
    + apply tokenize_nil in Et. subst s. cbn.
      destruct (Ascii.eqb_spec c d); [contradiction|reflexivity].
    + assert (s <> []) by (intros ->; discriminate).
      rewrite (terminated_cons d c s) by assumption. rewrite <- IH.
      reflexivity.
Qed.

(** X15 ([split], lines 1348-1357): no token holds the delimiter; the
    tokens, each followed by the delimiter, spell the string again with
    its final delimiter added when it lacks one, so a final delimiter
    gives no empty last token; the empty string has no token and a
    string without the delimiter is its own single token. *)
Theorem X15_split_tokens (s : str) (delimiter : ascii) :
  Forall (fun token => ~ In delimiter token) (split s delimiter)
  /\ terminate_all delimiter (split s delimiter) = terminated delimiter s
  /\ split [] delimiter = []
  /\ (s <> [] -> ~ In delimiter s -> split s delimiter = [s])
  /\ (s <> [] -> split s delimiter <> []).
Proof.
  rewrite !split_tokenize. splits.
  - apply tokenize_free.
  - apply tokenize_terminated.
  - reflexivity.
  - apply tokenize_no_delimiter.
  - intros Hs Ht. apply Hs. exact (tokenize_nil _ _ Ht).
Qed.

Example split_examples :
  split (lit "a,,b") ","%char = [lit "a"; []; lit "b"]
  /\ split (lit "a,") ","%char = [lit "a"]
  /\ split (lit ",") ","%char = [[]]
  /\ split [] ","%char = [].
Proof. splits; reflexivity. Qed.

Lemma over_tokens_find {E : Type} (bad : str -> bool)
      (stop : str -> E) (tokens acc : list str) :
  over_tokens (fun t acc => if bad t then Left_early (stop t)
                            else Ran_out (acc ++ [t])) tokens acc
  = match find bad tokens with
    | Some t => Left_early (stop t)
    | None => Ran_out (acc ++ tokens)
    end.
Proof.
  revert acc. induction tokens as [|t ts IH]; intros acc; cbn.
  - now rewrite app_nil_r.
  - destruct (bad t); [reflexivity|]. rewrite IH.
    destruct (find bad ts); [reflexivity|].
    now rewrite <- app_assoc.
Qed.

(** X16 ([parseInlinedFunctions], lines 1385-1398): the call ends in
    [klee_error] on the first name of the comma-separated list that
    the module does not have, and otherwise appends all the names, in
    order, to [result].  An empty name between two commas is looked up
    like any other; an empty parameter leaves [result] as it is. *)
Theorem X16_parseInlinedFunctions_all_or_error
        (getFunction : str -> bool) (parameter : str)
        (result : list str) :
  parseInlinedFunctions getFunction parameter result
  = match find (fun fname => negb (getFunction fname))
               (split parameter ","%char) with
    | Some fname => Left_early fname
    | None => Ran_out (result ++ split parameter ","%char)
    end
  /\ parseInlinedFunctions getFunction [] result = Ran_out result
  /\ (forall names,
         parseInlinedFunctions getFunction parameter result
         = Ran_out names ->
         names = result ++ split parameter ","%char
         /\ Forall (fun fname => getFunction fname = true)
                   (split parameter ","%char)).
Proof.
  assert (Heq : parseInlinedFunctions getFunction parameter result
                = match find (fun fname => negb (getFunction fname))
                             (split parameter ","%char) with
                  | Some fname => Left_early fname
                  | None => Ran_out (result ++ split parameter ","%char)
                  end).
  { unfold parseInlinedFunctions.
    rewrite while_getline_tokens, good_open_stream.
    cbn [open_stream chars]. rewrite split_tokenize.
    apply (over_tokens_find (fun t => negb (getFunction t)) (fun t => t)). }
  splits.
  - exact Heq.
  - reflexivity.
  - intros names. rewrite Heq.
    destruct (find _ _) eqn:Ef; [discriminate|].
    intros H. inversion H; subst. split; [reflexivity|].
    apply Forall_forall. intros t Ht.
    apply find_none with (x := t) in Ef; [|exact Ht].
    now apply negb_false_iff in Ef.
Qed.

(** ** The environ file *)

Import Environ.

Lemma environ_loop_lines (f : istream) (items : list str) :
  environ_loop f items
  = if eofbit f then Some items
    else if good f && negb (read_error f)
         then Some (items ++ stripped_lines (chars f))
         else None.
Proof.
  funelim (environ_loop f items); clear Heqcall.
  - rewrite e. reflexivity.
  - rewrite e0, e. reflexivity.
  - rewrite H. clear H. rewrite e0, e1.
    pose proof e2 as Hg. rewrite (getline_good _ _ _ e1) in Hg.
    unfold stripped_lines. destruct (chars f) as [|c s] eqn:Ec.
    { cbn in Hg. inversion Hg; subst. unfold good.
      cbn [chars eofbit failbit badbit read_error].
      destruct (read_error f); cbn; [reflexivity|now rewrite app_nil_r]. }
    pose proof (getline_chars_nothing (c :: s) newline ltac:(discriminate))
      as Hn.
    pose proof (getline_chars_tokenize (c :: s) newline ltac:(discriminate))
      as Ht.
    pose proof (getline_chars_end (c :: s) newline) as Hend.
    destruct (getline_chars (c :: s) newline) as [[t r] e'].
    cbn [fst snd] in Hn, Ht, Hend. inversion Hg; subst.
    rewrite Ht. unfold good.
    cbn [chars eofbit failbit badbit read_error map filter].
    rewrite Hn. destruct e'.
    + rewrite (Hend eq_refl). destruct (read_error f); cbn; [reflexivity|].
      destruct (strip line); cbn; [now rewrite app_nil_r|reflexivity].
    + cbn. destruct (read_error f); cbn; [reflexivity|].
      destruct (strip line); cbn; [reflexivity|].
      now rewrite <- app_assoc.
Qed.

Lemma tokenize_lengths (s : str) (d : ascii) :
  Forall (fun t => (List.length t <= List.length s)%nat) (tokenize s d).
Proof.
  induction s as [|c s IH]; cbn [tokenize]; [constructor|].
  destruct (Ascii.eqb c d).
  - constructor; [cbn; lia|].
    eapply Forall_impl; [|exact IH]. cbn. intros; lia.
  - destruct (tokenize s d) as [|t ts].
    + constructor; [cbn; lia|constructor].
    + inversion IH; subst. constructor; [cbn; lia|].
      eapply Forall_impl; [|eassumption]. cbn. intros; lia.
Qed.

Lemma strip_incl (s : str) (c : ascii) :
  Z.of_nat (List.length s) < 2 ^ 32 -> In c (strip s) -> In c s.
Proof.
  intros Hlen Hin.
  destruct (strip_parts s Hlen) as [(pre & post & E & _) _].
  rewrite E. apply in_or_app. right. apply in_or_app. now left.
Qed.

(** X17 (the environ loop of [master] and [executeWorker], lines
    1628-1640 and 2235-2247): a file that cannot be opened ends in
    [klee_error]; a file that opens and is read to its end gives as
    items its lines, stripped, without the blank ones, in order; a
    file that opens and whose reads fail, as a directory does, is read
    forever, the end of the file never being reached.  For a file
    below 4 GiB no item is empty, holds a newline, or begins or ends
    with white space. *)
Theorem X17_environ_items (content : str) :
  read_environ Cannot_open = Unable_to_open
  /\ read_environ (Opens content false) = Items (stripped_lines content)
  /\ read_environ (Opens content true) = Reading_forever
  /\ (Z.of_nat (List.length content) < 2 ^ 32 ->
      Forall (fun item =>
                item <> []
                /\ ~ In newline item
                /\ isspace (at_index item 0) = false
                /\ isspace (at_index item (List.length item - 1)) = false)
             (stripped_lines content)).
Proof.
  splits.
  - reflexivity.
  - unfold read_environ. cbn [ifstream]. rewrite environ_loop_lines.
    reflexivity.
  - unfold read_environ. cbn [ifstream]. rewrite environ_loop_lines.
    reflexivity.
  - intros Hlen. unfold stripped_lines. apply Forall_forall.
    intros item Hin. apply filter_In in Hin. destruct Hin as [Hin Hne].
    apply in_map_iff in Hin. destruct Hin as (line & <- & Hline).
    assert (Hl : Z.of_nat (List.length line) < 2 ^ 32).
    { pose proof (tokenize_lengths content newline) as Hall.
      rewrite Forall_forall in Hall. specialize (Hall _ Hline). lia. }
    assert (Hnn : strip line <> []).
    { intros E. rewrite E in Hne. discriminate Hne. }
    split; [exact Hnn|]. split.
    + intros Hc. apply strip_incl in Hc; [|exact Hl].
      pose proof (tokenize_free content newline) as Hall.
      rewrite Forall_forall in Hall. exact (Hall _ Hline Hc).
    + destruct (strip_parts line Hl) as (_ & Hends & _).
      exact (Hends Hnn).
Qed.

Example environ_file :
  read_environ (Opens (lit "  PATH=/bin
HOME=/root  

USER=klee") false)
  = Items [lit "PATH=/bin"; lit "HOME=/root"; lit "USER=klee"].
Proof. vm_compute. reflexivity. Qed.

(** The environ file given as a directory. *)
Example environ_directory : read_environ (Opens [] true) = Reading_forever.
Proof. vm_compute. reflexivity. Qed.

(** ** Options of the form [name:line/line] *)

Import Options.

Example parseNameLineOption_examples :
  parseNameLineOption (lit "f:12/7") [] [] 0 = (true, lit "f", [12; 7], 0)
  /\ parseNameLineOption (lit "f") [] [] 0 = (true, lit "f", [], 0)
  /\ parseNameLineOption (lit "f:") [] [] 0 = (true, lit "f", [], 0)
  /\ parseNameLineOption [] (lit "old") [] 0 = (true, lit "old", [], 0)
  /\ parseNameLineOption (lit "f:-1") [] [] 0
     = (true, lit "f", [4294967295], 0)
  /\ parseNameLineOption (lit "f:1x") [] [] 0 = (false, lit "f", [], 0)
  /\ parseNameLineOption (lit "f:1//2") [] [] 0 = (false, lit "f", [1], 0)
  /\ parseNameLineOption (lit "f:1") [] [] ERANGE
     = (false, lit "f", [], ERANGE).
Proof. splits; vm_compute; reflexivity. Qed.

Lemma getline_chars_found (t r : str) (d : ascii) :
  ~ In d t -> getline_chars (t ++ d :: r) d = (t, r, false).
Proof.
  induction t as [|c t IH]; intros Hin; cbn [app getline_chars].
  - now rewrite Ascii.eqb_refl.
  - destruct (Ascii.eqb_spec c d) as [->|Hne].
    + exfalso. apply Hin. now left.
    + rewrite IH; [reflexivity|]. intros H. apply Hin. now right.
Qed.

Lemma getline_chars_split (s : str) (d : ascii) :
  let '(t, r, e) := getline_chars s d in
  ~ In d t /\ if e then s = t /\ r = [] else s = t ++ d :: r.
Proof.
  induction s as [|c s IH]; cbn [getline_chars].
  - split; [intros []|split; reflexivity].
  - destruct (Ascii.eqb_spec c d) as [->|Hne].
    + split; [intros []|reflexivity].
    + destruct (getline_chars s d) as [[t r] e]. destruct IH as [Hin IH].
      split.
      * intros [H|H]; [congruence|contradiction].
      * destruct e.
        -- destruct IH as [-> ->]. split; reflexivity.
        -- rewrite IH. reflexivity.
Qed.

Lemma tokenize_cons_part (p rest : str) (d : ascii) :
  ~ In d p -> tokenize (p ++ d :: rest) d = p :: tokenize rest d.
Proof.
  induction p as [|c p IH]; intros Hin; cbn [app tokenize].
  - now rewrite Ascii.eqb_refl.
  - destruct (Ascii.eqb_spec c d) as [->|Hne].
    + exfalso. apply Hin. now left.
    + rewrite IH; [reflexivity|]. intros H. apply Hin. now right.
Qed.

Lemma tokenize_join (parts : list str) (d : ascii) :
  Forall (fun p => p <> [] /\ ~ In d p) parts ->
  tokenize (join d parts) d = parts.
Proof.
  induction parts as [|p ps IH]; intros Hall; [reflexivity|].
  inversion Hall as [|? ? [Hne Hin] Hps]; subst.
  destruct ps as [|q qs].
  - cbn [join]. now apply tokenize_no_delimiter.
  - change (join d (p :: q :: qs)) with (p ++ d :: join d (q :: qs)).
    rewrite tokenize_cons_part by exact Hin. now rewrite IH.
Qed.

Lemma span_all (p : ascii -> bool) (s : str) :
  Forall (fun c => p c = true) s -> span p s = (s, []).
Proof.
  induction s as [|c s IH]; intros H; [reflexivity|].
  inversion H; subst. cbn [span]. rewrite H2, IH by assumption.
  reflexivity.
Qed.

Lemma c_str_digits (s : str) :
  Forall (fun c => is_digit c = true) s -> c_str s = s.
Proof.
  induction s as [|c s IH]; intros H; [reflexivity|].
  inversion H; subst. cbn [c_str].
  destruct (Ascii.eqb_spec c zero) as [->|_]; [discriminate|].
  now rewrite IH.
Qed.

Lemma digit_is_plain (c : ascii) :
  is_digit c = true ->
  isspace c = false /\ c <> "-"%char /\ c <> "+"%char /\ c <> "/"%char.
Proof.
  intros H. unfold is_digit in H. apply andb_true_iff in H.
  destruct H as [H1 H2]. apply N.leb_le in H1. apply N.leb_le in H2.
  unfold isspace. splits.
  - apply orb_false_iff. split.
    + apply N.eqb_neq. lia.
    + apply andb_false_iff. right. apply N.leb_gt. lia.
  - intros ->. cbn in H1. lia.
  - intros ->. cbn in H1. lia.
  - intros ->. cbn in H1. lia.
Qed.

Lemma strtol_digits (s : str) (errno : Z) :
  s <> [] -> Forall (fun c => is_digit c = true) s ->
  Z.of_N (digits_value s) <= LONG_MAX ->
  strtol s errno = (Z.of_N (digits_value s), List.length s, errno).
Proof.
  intros Hne Hall Hmax. destruct s as [|c s]; [contradiction|].
  assert (H1 : (Z.of_N (digits_value (c :: s)) >? LONG_MAX) = false)
    by (rewrite Z.gtb_ltb; apply Z.ltb_ge; exact Hmax).
  assert (H2 : (Z.of_N (digits_value (c :: s)) <? LONG_MIN) = false)
    by (apply Z.ltb_ge; unfold LONG_MIN; lia).
  pose proof (span_all is_digit (c :: s) Hall) as Hspan.
  inversion Hall as [|? ? Hc Hs]; subst.
  destruct (digit_is_plain c Hc) as (Hsp & _).
  unfold strtol. cbn [span]. rewrite Hsp.
  destruct c as [[] [] [] [] [] [] [] []]; try discriminate Hc;
    cbv beta iota zeta; rewrite Hspan; cbv beta iota zeta;
    rewrite H1, H2; reflexivity.
Qed.

Lemma decimal_part (n : N) :
  decimal n <> [] /\ ~ In "/"%char (decimal n).
Proof.
  split; [apply decimal_not_nil|]. intros Hin.
  pose proof (decimal_is_digits n) as Hall. rewrite Forall_forall in Hall.
  destruct (digit_is_plain _ (Hall _ Hin)) as (_ & _ & _ & H).
  now apply H.
Qed.

Lemma parse_line_decimal (n : N) (lines : list Z) (errno : Z) :
  errno <> ERANGE -> Z.of_N n <= LONG_MAX ->
  parse_line (decimal n) (lines, errno)
  = Ran_out (lines ++ [Z.of_N n mod 2 ^ 32], errno).
Proof.
  intros He Hn. unfold parse_line.
  rewrite c_str_digits by apply decimal_is_digits.
  rewrite strtol_digits;
    [|apply decimal_not_nil|apply decimal_is_digits
     |now rewrite digits_value_decimal].
  rewrite digits_value_decimal.
  assert (H1 : (errno =? ERANGE) = false) by now apply Z.eqb_neq.
  assert (H2 : (List.length (decimal n) =? 0)%nat = false).
  { apply Nat.eqb_neq. pose proof (decimal_not_nil n).
    destruct (decimal n); [contradiction|discriminate]. }
  rewrite H1, H2, Nat.eqb_refl. reflexivity.
Qed.

Lemma over_tokens_decimals (ns : list N) (lines : list Z) (errno : Z) :
  errno <> ERANGE -> Forall (fun n => Z.of_N n <= LONG_MAX) ns ->
  over_tokens parse_line (map decimal ns) (lines, errno)
  = Ran_out (lines ++ map (fun n => Z.of_N n mod 2 ^ 32) ns, errno).
Proof.
  intros He. revert lines.
  induction ns as [|n ns IH]; intros lines Hall; cbn [map over_tokens].
  - now rewrite app_nil_r.
  - inversion Hall; subst. rewrite parse_line_decimal by assumption.
    rewrite IH by assumption. now rewrite <- app_assoc.
Qed.

Lemma getline_name (name rest token : str) :
  ~ In ":"%char name ->
  getline (open_stream (name ++ ":"%char :: rest)) token ":"%char
  = (mkStream rest false false false false, name).
Proof.
  intros Hin. rewrite getline_good by reflexivity.
  cbn [open_stream chars read_error].
  rewrite getline_chars_found by exact Hin. reflexivity.
Qed.

Lemma parseNameLineOption_named (name rest fname : str) (lines : list Z)
      (errno : Z) :
  ~ In ":"%char name ->
  parseNameLineOption (name ++ ":"%char :: rest) fname lines errno
  = match over_tokens parse_line (tokenize rest "/"%char) (lines, errno) with
    | Left_early (lines, errno) => (false, name, lines, errno)
    | Ran_out (lines, errno) => (true, name, lines, errno)
    end.
Proof.
  intros Hin. unfold parseNameLineOption. rewrite getline_name by exact Hin.
  cbn [failbit negb]. rewrite while_getline_tokens. reflexivity.
Qed.

(** X18 ([parseNameLineOption], lines 1308-1331): an option written as
    a name, a colon and decimal line numbers separated by slashes is
    accepted when [errno] is not [ERANGE] at the call; [fname] becomes
    the name and each number is appended to [lines], reduced modulo
    2^32 by the conversion to [unsigned int].  The name may be empty
    and the list of numbers too. *)
Theorem X18_parseNameLineOption_reads_what_was_written
        (name : str) (ns : list N) (fname : str) (lines : list Z)
        (errno : Z) :
  ~ In ":"%char name ->
  errno <> ERANGE ->
  Forall (fun n => Z.of_N n <= LONG_MAX) ns ->
  parseNameLineOption (name ++ ":"%char :: join "/"%char (map decimal ns))
                      fname lines errno
  = (true, name, lines ++ map (fun n => Z.of_N n mod 2 ^ 32) ns, errno).
Proof.
  intros Hin He Hall. rewrite parseNameLineOption_named by exact Hin.
  rewrite tokenize_join.
  - now rewrite over_tokens_decimals by assumption.
  - apply Forall_forall. intros p Hp. apply in_map_iff in Hp.
    destruct Hp as (n & <- & _). apply decimal_part.
Qed.

(** X18 on [f:12/4294967297], whose second number wraps to 1. *)
Lemma X18_parseNameLineOption_reads_what_was_written_witness :
  parseNameLineOption (lit "f:12/4294967297") (lit "old") [5] 0
  = (true, lit "f", [5; 12; 1], 0).
Proof.
  apply (X18_parseNameLineOption_reads_what_was_written
           (lit "f") [12%N; 4294967297%N] (lit "old") [5] 0).
  - vm_compute. intros [H|[]]. discriminate H.
  - vm_compute. discriminate.
  - repeat constructor; vm_compute; discriminate.
Defined.

Lemma strtol_errno_kept (s : str) : snd (strtol s ERANGE) = ERANGE.
Proof.
  unfold strtol. destruct (span isspace s) as [blank s1].
  destruct (match s1 with
            | "-"%char :: r => (true, 1%nat, r)
            | "+"%char :: r => (false, 1%nat, r)
            | _ => (false, 0%nat, s1)
            end) as [[negative sign] s2].
  destruct (span is_digit s2) as [digits ?].
  destruct digits; [reflexivity|].
  destruct (_ >? _); [reflexivity|]. destruct (_ <? _); reflexivity.
Qed.

Lemma parse_line_stale (token : str) (lines : list Z) :
  parse_line token (lines, ERANGE) = Left_early (lines, ERANGE).
Proof.
  unfold parse_line. pose proof (strtol_errno_kept (c_str token)) as H.
  destruct (strtol (c_str token) ERANGE) as [[v endptr] errno].
  cbn [snd] in H. subst errno. reflexivity.
Qed.

Lemma strtol_overflow (n : N) (errno : Z) :
  LONG_MAX < Z.of_N n ->
  strtol (decimal n) errno = (LONG_MAX, List.length (decimal n), ERANGE).
Proof.
  intros Hn.
  pose proof (decimal_is_digits n) as Hall.
  pose proof (decimal_not_nil n) as Hne.
  pose proof (digits_value_decimal n) as Hv.
  destruct (decimal n) as [|c s]; [contradiction|].
  assert (H1 : (Z.of_N (digits_value (c :: s)) >? LONG_MAX) = true)
    by (rewrite Z.gtb_ltb; apply Z.ltb_lt; rewrite Hv; exact Hn).
  pose proof (span_all is_digit (c :: s) Hall) as Hspan.
  inversion Hall as [|? ? Hc Hs]; subst.
  destruct (digit_is_plain c Hc) as (Hsp & _).
  unfold strtol. cbn [span]. rewrite Hsp.
  destruct c as [[] [] [] [] [] [] [] []]; try discriminate Hc;
    cbv beta iota zeta; rewrite Hspan; cbv beta iota zeta;
    rewrite H1; reflexivity.
Qed.

(** X19 ([parseNameLineOption], lines 1322-1325): [errno] is tested
    but never cleared.  A line number above [LONG_MAX] is refused and
    leaves [errno] at [ERANGE]; and a call made with [errno] at
    [ERANGE] refuses every option that has a character after its first
    colon, whatever it is, accepts the others, adds no line and leaves
    [errno] as it is. *)
Theorem X19_parseNameLineOption_stale_errno
        (option fname : str) (lines : list Z) :
  (forall name n errno,
      ~ In ":"%char name -> LONG_MAX < Z.of_N n ->
      parseNameLineOption (name ++ ":"%char :: decimal n) fname lines errno
      = (false, name, lines, ERANGE))
  /\ (let '(ok, _, lines', errno') :=
        parseNameLineOption option fname lines ERANGE in
      lines' = lines /\ errno' = ERANGE
      /\ (ok = false <->
          exists name rest,
            option = name ++ ":"%char :: rest /\ rest <> [])).
Proof.
  split.
  - intros name n errno Hin Hn.
    rewrite parseNameLineOption_named by exact Hin.
    rewrite tokenize_no_delimiter; [|apply decimal_part..].
    cbn [over_tokens]. unfold parse_line.
    rewrite c_str_digits by apply decimal_is_digits.
    rewrite strtol_overflow by exact Hn. reflexivity.
  - unfold parseNameLineOption. rewrite getline_good by reflexivity.
    cbn [open_stream chars read_error].
    destruct option as [|c s].
    { cbn. splits; try reflexivity. split; [discriminate|].
      intros (name & rest & E & _). destruct name; discriminate E. }
    pose proof (getline_chars_split (c :: s) ":"%char) as Hsplit.
    pose proof (getline_chars_nothing (c :: s) ":"%char ltac:(discriminate))
      as Hn.
    destruct (getline_chars (c :: s) ":"%char) as [[t r] e].
    destruct Hsplit as [Hin Hs]. cbn [fst snd] in Hn.
    cbv beta iota zeta. cbn [failbit]. unfold str in *. rewrite Hn.
    cbn [negb].
    rewrite while_getline_tokens. unfold good.
    cbn [eofbit failbit badbit chars].
    rewrite andb_false_r, !orb_false_r. cbn [negb andb]. rewrite andb_true_r.
    destruct e; cbn [negb].
    + destruct Hs as [Hs ->]. splits; try reflexivity.
      split; [discriminate|]. intros (name & rest & E & _).
      exfalso. apply Hin. rewrite <- Hs, E. apply in_or_app. right. now left.
    + destruct (tokenize r "/"%char) as [|tok toks] eqn:Et.
      * apply tokenize_nil in Et. subst r. cbn [over_tokens].
        splits; try reflexivity. split; [discriminate|].
        intros (name & rest & E & Hrest). exfalso.
        rewrite Hs in E. clear - E Hin Hrest.
        revert name E. induction t as [|a t IH]; intros name E.
        -- destruct name as [|b name]; cbn in E.
           ++ inversion E. now subst.
           ++ inversion E. destruct name; discriminate.
        -- destruct name as [|b name]; cbn in E.
           ++ inversion E; subst. apply Hin. now left.
           ++ inversion E; subst. apply (IH (fun H => Hin (or_intror H)) name).
              assumption.
      * cbn [over_tokens]. rewrite parse_line_stale.
        splits; try reflexivity. split; [|reflexivity]. intros _.
        exists t, r. split; [exact Hs|]. intros ->. discriminate Et.
Qed.

Lemma skip_tokens (getFunction : str -> option bool) (tokens : list str) :
  forall fname result errno cout,
    match over_tokens (skip_one getFunction) tokens
                      (fname, result, errno, cout) with
    | Ran_out (_, result', _, cout') =>
        exists added,
          result' = result ++ added
          /\ List.length added = List.length tokens
          /\ List.length cout' = (List.length cout + List.length tokens)%nat
          /\ Forall (fun entry => skipped_name_for getFunction (fst entry))
                    added
    | Left_early (Not_found_in_module g) => getFunction g = None
    | Left_early (Invalid_parameter token) => In token tokens
    end.
Proof.
  induction tokens as [|t ts IH]; intros fname result errno cout.
  - cbn. exists []. rewrite app_nil_r. splits; auto.
  - cbn [over_tokens]. unfold skip_one at 1.
    destruct (parseNameLineOption t fname [] errno)
      as [[[ok fname'] lines] errno'].
    destruct ok; cbn [negb]; [|now left].
    destruct (getFunction fname') as [returns_void|] eqn:Eg; [|exact Eg].
    set (name := if negb returns_void then lit "__wrap_" ++ fname'
                 else fname').
    specialize (IH name (result ++ [(name, lines)]) errno' (cout ++ [fname'])).
    destruct (over_tokens _ ts _) as [[token|g]|[[[f r] e] c]].
    + now right.
    + exact IH.
    + destruct IH as (added & -> & Hlen & Hcout & Hall).
      exists ((name, lines) :: added). splits.
      * now rewrite <- app_assoc.
      * cbn. now rewrite Hlen.
      * rewrite Hcout, length_app. cbn. lia.
      * constructor; [|exact Hall]. exists fname'. subst name.
        destruct returns_void; cbn; [left|right]; split; auto.
Qed.

(** X20 ([parseSkippingParameter], lines 1359-1383): when the call
    returns, one entry per token of the comma-separated parameter was
    appended to [result] and one name written to [std::cout], and every
    name appended is a function of the module, behind [__wrap_] exactly
    when it does not return [void].  When it ends in [klee_error], the
    name reported missing is not in the module, or the token reported
    invalid is one of the parameter's. *)
Theorem X20_parseSkippingParameter_entries
        (getFunction : str -> option bool) (parameter : str)
        (result : list (str * list Z)) (errno : Z) :
  match parseSkippingParameter getFunction parameter result errno with
  | Ran_out (_, result', _, cout) =>
      exists added,
        result' = result ++ added
        /\ List.length added = List.length (split parameter ","%char)
        /\ List.length cout = List.length added
        /\ Forall (fun entry => skipped_name_for getFunction (fst entry))
                  added
  | Left_early (Not_found_in_module g) => getFunction g = None
  | Left_early (Invalid_parameter token) =>
      In token (split parameter ","%char)
  end.
Proof.
  unfold parseSkippingParameter. rewrite while_getline_tokens.
  rewrite good_open_stream. cbn [open_stream chars]. rewrite split_tokenize.
  pose proof (skip_tokens getFunction (tokenize parameter ","%char)
                          [] result errno []) as H.
  destruct (over_tokens _ _ _) as [[token|g]|[[[f r] e] c]]; try exact H.
  destruct H as (added & -> & Hlen & Hcout & Hall).
  exists added. splits; auto. rewrite Hcout, Hlen. reflexivity.
Qed.

(** [fname] lives across the tokens: after [f], which does not return
    [void], an empty token asks the module for [__wrap_f]. *)
Example parseSkippingParameter_empty_token :
  let getFunction := fun name =>
    if str_eqb name (lit "f") then Some false
    else if str_eqb name (lit "g") then Some true else None in
  parseSkippingParameter getFunction (lit "f:3,g") [] 0
  = Ran_out (lit "g", [(lit "__wrap_f", [3]); (lit "g", [])], 0,
             [lit "f"; lit "g"])
  /\ parseSkippingParameter getFunction (lit "f:3,,g") [] 0
     = Left_early (Not_found_in_module (lit "__wrap_f")).
Proof. split; vm_compute; reflexivity. Qed.

Lemma map_find_app (k : str) (m m' : line_map) :
  map_find k (m ++ m')
  = match map_find k m with
    | Some v => Some v
    | None => map_find k m'
    end.
Proof.
  induction m as [|[k' v'] m IH]; [reflexivity|]. cbn.
  destruct (str_eqb k k'); [reflexivity|exact IH].
Qed.

Lemma map_insert_kept (k k' : str) (v v' : list Z) (m : line_map) :
  map_find k m = Some v -> map_find k (map_insert k' v' m) = Some v.
Proof.
  intros H. unfold map_insert. destruct (map_find k' m); [exact H|].
  rewrite map_find_app, H. reflexivity.
Qed.

Lemma map_insert_length (k : str) (v : list Z) (m : line_map) :
  (List.length (map_insert k v m) <= S (List.length m))%nat.
Proof.
  unfold map_insert. destruct (map_find k m); [lia|].
  rewrite length_app. cbn. lia.
Qed.

Lemma locate_tokens (tokens : list str) :
  forall fname result errno,
    match over_tokens locate_one tokens (fname, result, errno) with
    | Ran_out (_, result', _) =>
        (forall k v, map_find k result = Some v ->
                     map_find k result' = Some v)
        /\ (List.length result'
            <= List.length result + List.length tokens)%nat
    | Left_early (Invalid_parameter token) => In token tokens
    | Left_early (Not_found_in_module _) => False
    end.
Proof.
  induction tokens as [|t ts IH]; intros fname result errno.
  - cbn. split; [auto|lia].
  - cbn [over_tokens]. unfold locate_one at 1.
    destruct (parseNameLineOption t fname [] errno)
      as [[[ok fname'] lines] errno'].
    destruct ok; cbn [negb]; [|now left].
    specialize (IH fname' (map_insert fname' lines result) errno').
    destruct (over_tokens _ ts _) as [[token|g]|[[f r] e]].
    + now right.
    + exact IH.
    + destruct IH as [Hkept Hlen]. split.
      * intros k v H. apply Hkept. now apply map_insert_kept.
      * pose proof (map_insert_length fname' lines result). cbn. lia.
Qed.

(** X21 ([parseErrorLocationParameter], lines 1400-1412): the call
    never changes or removes an entry of [result]: the lines given
    first for a name stay, a later token for the same name adds
    nothing.  It adds at most one entry per token, and ends in
    [klee_error] only for a token of the parameter that
    [parseNameLineOption] refuses. *)
Theorem X21_parseErrorLocationParameter_keeps_entries
        (parameter : str) (result : line_map) (errno : Z) :
  match parseErrorLocationParameter parameter result errno with
  | Ran_out (_, result', _) =>
      (forall k v, map_find k result = Some v ->
                   map_find k result' = Some v)
      /\ (List.length result'
          <= List.length result
             + List.length (split parameter ","%char))%nat
  | Left_early (Invalid_parameter token) =>
      In token (split parameter ","%char)
  | Left_early (Not_found_in_module _) => False
  end.
Proof.
  unfold parseErrorLocationParameter. rewrite while_getline_tokens.
  rewrite good_open_stream. cbn [open_stream chars]. rewrite split_tokenize.
  apply locate_tokens.
Qed.

Example parseErrorLocationParameter_first_wins :
  parseErrorLocationParameter (lit "f:1,g:7/8,f:2") [] 0
  = Ran_out (lit "f", [(lit "f", [1]); (lit "g", [7; 8])], 0).
Proof. vm_compute. reflexivity. Qed.

(** ** Test files of a directory, and interrupts *)

Import Listing.

Lemma str_eqb_eq (a b : str) : str_eqb a b = true <-> a = b.
Proof.
  unfold str_eqb. destruct (list_eq_dec Ascii.ascii_dec a b); split;
    auto; discriminate.
Qed.

Lemma substr_suffix (f : str) :
  (6 <= List.length f)%nat -> Z.of_nat (List.length f) < 2 ^ 64 ->
  substr f (Master.size_t (Z.of_nat (List.length f) - 6))
         (Z.of_nat (List.length f))
  = Some (skipn (List.length f - 6) f).
Proof.
  intros H6 H64. unfold substr, Master.size_t.
  rewrite Z.mod_small by lia.
  assert (H : (Z.of_nat (List.length f) - 6 >? Z.of_nat (List.length f))
              = false) by (rewrite Z.gtb_ltb; apply Z.ltb_ge; lia).
  rewrite H. replace (Z.to_nat (Z.of_nat (List.length f) - 6))
    with (List.length f - 6)%nat by lia.
  rewrite firstn_all2; [reflexivity|]. rewrite length_skipn. lia.
Qed.

Lemma substr_short (f : str) :
  (List.length f < 6)%nat ->
  substr f (Master.size_t (Z.of_nat (List.length f) - 6))
         (Z.of_nat (List.length f))
  = None.
Proof.
  intros H. unfold substr, Master.size_t.
  assert (E : (Z.of_nat (List.length f) - 6) mod 2 ^ 64
              = Z.of_nat (List.length f) - 6 + 2 ^ 64).
  { symmetry. apply Z.mod_unique with (q := -1); lia. }
  rewrite E.
  assert (Hgt : (Z.of_nat (List.length f) - 6 + 2 ^ 64
                 >? Z.of_nat (List.length f)) = true)
    by (rewrite Z.gtb_ltb; apply Z.ltb_lt; lia).
  now rewrite Hgt.
Qed.

Lemma suffix_test (f : str) :
  (6 <= List.length f)%nat ->
  str_eqb (skipn (List.length f - 6) f) (lit ".ktest") = true
  <-> exists stem, f = stem ++ lit ".ktest".
Proof.
  intros H6. rewrite str_eqb_eq. split.
  - intros E. exists (firstn (List.length f - 6) f).
    rewrite <- E. symmetry. apply firstn_skipn.
  - intros (stem & ->). rewrite length_app.
    replace (List.length stem + List.length (lit ".ktest") - 6)%nat
      with (List.length stem + 0)%nat by (cbn; lia).
    rewrite skipn_app, Nat.add_0_r, skipn_all.
    replace (List.length stem - List.length stem)%nat with 0%nat by lia.
    reflexivity.
Qed.

Lemma ktest_loop_long (paths : list str) :
  forall results,
    Forall (fun f => (6 <= List.length f)%nat
                     /\ Z.of_nat (List.length f) < 2 ^ 64) paths ->
    exists kept,
      ktest_loop paths results = Some (results ++ kept)
      /\ forall f, In f kept <->
                   In f paths /\ exists stem, f = stem ++ lit ".ktest".
Proof.
  induction paths as [|f paths IH]; intros results Hall.
  - exists []. cbn. rewrite app_nil_r. split; [reflexivity|].
    intros f. split; [intros []|intros [[] _]].
  - inversion Hall as [|? ? [H6 H64] Hrest]; subst. cbn [ktest_loop].
    rewrite substr_suffix by assumption.
    pose proof (suffix_test f H6) as Hsuf.
    destruct (str_eqb (skipn (List.length f - 6) f) (lit ".ktest")).
    + destruct (IH (results ++ [f]) Hrest) as (kept & E & Hk).
      exists (f :: kept). split.
      * rewrite E, <- app_assoc. reflexivity.
      * intros g. cbn [In]. rewrite Hk. split.
        -- intros [<-|[Hin Hs]].
           ++ split; [now left|]. now apply Hsuf.
           ++ split; [now right|exact Hs].
        -- intros [[<-|Hin] Hs]; [now left|right; now split].
    + destruct (IH results Hrest) as (kept & E & Hk).
      exists kept. split; [exact E|].
      intros g. rewrite Hk. split.
      * intros [Hin Hs]. split; [now right|exact Hs].
      * intros [[<-|Hin] Hs]; [|now split].
        apply Hsuf in Hs. discriminate Hs.
Qed.

Lemma ktest_loop_short (paths : list str) :
  forall results,
    Exists (fun f => (List.length f < 6)%nat) paths ->
    Forall (fun f => Z.of_nat (List.length f) < 2 ^ 64) paths ->
    ktest_loop paths results = None.
Proof.
  induction paths as [|f paths IH]; intros results Hex Hall.
  - inversion Hex.
  - inversion Hall as [|? ? H64 Hrest]; subst. cbn [ktest_loop].
    destruct (Nat.lt_ge_cases (List.length f) 6) as [Hlt|Hge].
    + now rewrite substr_short.
    + rewrite substr_suffix by assumption.
      inversion Hex as [? ? Hf|? ? Hp]; subst; [lia|].
      now apply IH.
Qed.

(** X22 ([KleeHandler::getKTestFilesInDir], lines 723-743): when every
    path the iterator gives has six characters or more, the call
    appends to [results] exactly the paths that end in [.ktest], and
    exits with status 1 instead when the iterator ended on an error.
    When one path is shorter than six characters, [f.size()-6] wraps
    around and [substr] throws [std::out_of_range], whatever the other
    paths are. *)
Theorem X22_ktest_files_listed_or_thrown
        (paths : list str) (ec : bool) (results : list str) :
  Forall (fun f => Z.of_nat (List.length f) < 2 ^ 64) paths ->
  (Forall (fun f => (6 <= List.length f)%nat) paths ->
   exists kept,
     getKTestFilesInDir paths ec results
     = (if ec then Exit_1 else Listed (results ++ kept))
     /\ forall f, In f kept <->
                  In f paths /\ exists stem, f = stem ++ lit ".ktest")
  /\ (Exists (fun f => (List.length f < 6)%nat) paths ->
      getKTestFilesInDir paths ec results = Out_of_range).
Proof.
  intros H64. split.
  - intros H6.
    destruct (ktest_loop_long paths results) as (kept & E & Hk).
    { rewrite Forall_forall in *. intros f Hf. split; auto. }
    exists kept. split; [|exact Hk].
    unfold getKTestFilesInDir. rewrite E. reflexivity.
  - intros Hex. unfold getKTestFilesInDir.
    now rewrite ktest_loop_short.
Qed.

(** X22 on a directory given as [.], where the path of a file [a] is
    [./a]. *)
Lemma X22_ktest_files_listed_or_thrown_witness :
  getKTestFilesInDir [lit "./test000001.ktest"; lit "./a"] false []
  = Out_of_range.
Proof.
  apply (X22_ktest_files_listed_or_thrown
           [lit "./test000001.ktest"; lit "./a"] false []).
  - repeat constructor.
  - apply Exists_cons_tl, Exists_cons_hd. cbn. lia.
Defined.

Example getKTestFilesInDir_example :
  getKTestFilesInDir
    [lit "out/test000001.ktest"; lit "out/info"; lit "out/test000002.ktest";
     lit "out/test000002.ktest.bak"] false []
  = Listed [lit "out/test000001.ktest"; lit "out/test000002.ktest"].
Proof. vm_compute. reflexivity. Qed.

Import Interrupt.

(** X23 ([interrupt_handle], lines 1133-1143): the first interrupt
    asks the interpreter to halt, installs the handler again and sets
    [interrupted], provided there is an interpreter; without one the
    process exits with status 1.  The process never survives a second
    interrupt, and what was written to [llvm::errs()] is kept. *)
Theorem X23_second_interrupt_exits (s : signal_state) :
  (interrupted s = false -> theInterpreter s = true ->
   exists s', interrupt_handle s = Resumes s'
              /\ interrupted s' = true /\ haltExecution s' = true
              /\ handler_set s' = true
              /\ theInterpreter s' = true)
  /\ (theInterpreter s = false ->
      exists errs', interrupt_handle s = Exits 1 errs')
  /\ (forall s',
         interrupt_handle s = Resumes s' ->
         exists line,
           interrupt_handle s' = Exits 1 (errs s' ++ [line])
           /\ exists line', errs s' = errs s ++ [line']).
Proof.
  unfold interrupt_handle. splits.
  - intros -> ->. eexists. split; [reflexivity|]. splits; reflexivity.
  - intros ->. rewrite andb_false_r. eexists. reflexivity.
  - intros s'. destruct (negb (interrupted s) && theInterpreter s);
      [|discriminate]. intros H. inversion H. cbn.
    eexists. split; [reflexivity|]. eexists. reflexivity.
Qed.

(** ** The output directory *)

Import Handler.

Example create_output_directory_example :
  create_output_directory (fun _ => None) (lit "/tmp/out")
                          [lit "/tmp/out1"; lit "/tmp/out0"; lit "/tmp/out3"]
  = Created (lit "/tmp/out2") 2
            [lit "/tmp/out2"; lit "/tmp/out1"; lit "/tmp/out0";
             lit "/tmp/out3"].
Proof. lazy. reflexivity. Qed.

Lemma existsb_str (path : str) (paths : list str) :
  existsb (str_eqb path) paths = true <-> In path paths.
Proof.
  rewrite existsb_exists. split.
  - intros (p & Hin & E). apply str_eqb_eq in E. now subst.
  - intros Hin. exists path. split; [exact Hin|]. now apply str_eqb_eq.
Qed.

Lemma decimal_inj (a b : N) : decimal a = decimal b -> a = b.
Proof.
  intros E. apply (f_equal digits_value) in E.
  now rewrite !digits_value_decimal in E.
Qed.

(** The directories with an index below [i] are as many as [i]. *)
Lemma index_bound (directory : str) (paths : list str) (i : Z) :
  0 <= i ->
  (forall k, 0 <= k < i -> In (directory ++ decimal (Z.to_N k)) paths) ->
  i <= Z.of_nat (List.length paths).
Proof.
  intros Hi Hall.
  set (names := map (fun k => directory ++ decimal (N.of_nat k))
                    (seq 0 (Z.to_nat i))).
  assert (Hnd : NoDup names).
  { unfold names. apply Finite.Injective_map_NoDup; [|apply seq_NoDup].
    intros a b E. apply app_inv_head in E. apply decimal_inj in E. lia. }
  assert (Hincl : incl names paths).
  { intros p Hp. unfold names in Hp. apply in_map_iff in Hp.
    destruct Hp as (k & <- & Hk). apply in_seq in Hk.
    rewrite <- (N2Z.id (N.of_nat k)), nat_N_Z.
    apply Hall. lia. }
  pose proof (NoDup_incl_length Hnd Hincl) as Hlen.
  unfold names in Hlen. rewrite length_map, length_seq in Hlen.
  unfold str in *. lia.
Qed.

Lemma output_loop_first_free (fault : str -> option Z) (directory : str)
      (paths : list str) (i : Z) :
  (forall p, fault p = None) ->
  Z.of_nat (List.length paths) < INT_MAX ->
  0 <= i ->
  (forall k, 0 <= k < i -> In (directory ++ decimal (Z.to_N k)) paths) ->
  exists n,
    i <= n
    /\ output_loop fault directory paths i
       = Created (directory ++ decimal (Z.to_N n)) n
                 ((directory ++ decimal (Z.to_N n)) :: paths)
    /\ ~ In (directory ++ decimal (Z.to_N n)) paths
    /\ forall k, 0 <= k < n -> In (directory ++ decimal (Z.to_N k)) paths.
Proof.
  funelim (output_loop fault directory paths i);
    intros Hfault Hlen Hi Hbelow;
    pose proof (index_bound directory paths i Hi Hbelow) as Hbound;
    clear Heqcall;
    try match goal with
        | Hm' : mkdir _ _ _ = _ |- _ =>
            pose proof Hm' as Hm; unfold mkdir in Hm;
            destruct (existsb _ paths) eqn:Ex;
            [|rewrite Hfault in Hm]
        end.
  - (* the index passed INT_MAX *)
    match goal with
    | He' : (_ <=? _) = false |- _ =>
        pose proof He' as He; apply Z.leb_gt in He; lia
    end.
  - (* the directory was made, and existed *)
    discriminate Hm.
  - (* the directory was made *)
    inversion Hm; subst.
    exists i. splits; [lia|reflexivity| |exact Hbelow].
    intros Hin. apply existsb_str in Hin. rewrite Hin in Ex.
    discriminate Ex.
  - (* EEXIST is not EEXIST *)
    inversion Hm; subst.
    match goal with He' : (EEXIST =? EEXIST) = false |- _ =>
      discriminate He' end.
  - discriminate Hm.
  - (* the last index *)
    match goal with
    | He' : (_ =? INT_MAX) = true |- _ =>
        pose proof He' as He; apply Z.eqb_eq in He; lia
    end.
  - discriminate Hm.
  - (* the next index *)
    apply existsb_str in Ex.
    destruct (H Hfault Hlen ltac:(lia)) as (n & Hn & E & Hfree & Hall).
    { intros k Hk. destruct (Z.eq_dec k i) as [->|]; [exact Ex|].
      apply Hbelow. lia. }
    exists n. splits; [lia|exact E|exact Hfree|exact Hall].
  - discriminate Hm.
Qed.

(** X24 (the constructor of [KleeHandler], lines 451-481): when
    [mkdir] fails only on paths that exist, and fewer than [INT_MAX]
    paths exist, the output directory is the directory given followed
    by the first index that is free: it did not exist, every smaller
    index did, and it exists afterwards.  So a handler made next gets
    another directory. *)
Theorem X24_output_directory_is_first_free
        (fault : str -> option Z) (directory : str) (paths : list str) :
  (forall p, fault p = None) ->
  Z.of_nat (List.length paths) + 1 < INT_MAX ->
  exists n,
    0 <= n
    /\ create_output_directory fault directory paths
       = Created (directory ++ decimal (Z.to_N n)) n
                 ((directory ++ decimal (Z.to_N n)) :: paths)
    /\ ~ In (directory ++ decimal (Z.to_N n)) paths
    /\ (forall k, 0 <= k < n -> In (directory ++ decimal (Z.to_N k)) paths)
    /\ exists n',
        n' <> n
        /\ create_output_directory
             fault directory ((directory ++ decimal (Z.to_N n)) :: paths)
           = Created (directory ++ decimal (Z.to_N n')) n'
                     ((directory ++ decimal (Z.to_N n'))
                        :: (directory ++ decimal (Z.to_N n)) :: paths)
        /\ directory ++ decimal (Z.to_N n') <> directory ++ decimal (Z.to_N n).
Proof.
  intros Hfault Hlen. unfold create_output_directory.
  destruct (output_loop_first_free fault directory paths 0 Hfault)
    as (n & Hn & E & Hfree & Hall); [lia|lia|intros k Hk; lia|].
  exists n. splits; [exact Hn|exact E|exact Hfree|exact Hall|].
  destruct (output_loop_first_free
              fault directory ((directory ++ decimal (Z.to_N n)) :: paths)
              0 Hfault)
    as (n' & Hn' & E' & Hfree' & Hall');
    [cbn [List.length]; lia|lia|intros k Hk; lia|].
  assert (Hne : directory ++ decimal (Z.to_N n')
                <> directory ++ decimal (Z.to_N n)).
  { intros Heq. apply Hfree'. left. now symmetry. }
  exists n'. splits; [|exact E'|exact Hne].
  intros ->. now apply Hne.
Qed.

(** X24 where [out0], [out1] and [out3] exist. *)
Lemma X24_output_directory_is_first_free_witness :
  exists n,
    0 <= n
    /\ create_output_directory
         (fun _ => None) (lit "out") [lit "out1"; lit "out0"; lit "out3"]
       = Created (lit "out" ++ decimal (Z.to_N n)) n
                 ((lit "out" ++ decimal (Z.to_N n))
                    :: [lit "out1"; lit "out0"; lit "out3"])
    /\ ~ In (lit "out" ++ decimal (Z.to_N n))
            [lit "out1"; lit "out0"; lit "out3"]
    /\ (forall k, 0 <= k < n ->
                  In (lit "out" ++ decimal (Z.to_N k))
                     [lit "out1"; lit "out0"; lit "out3"])
    /\ exists n',
        n' <> n
        /\ create_output_directory
             (fun _ => None) (lit "out")
             ((lit "out" ++ decimal (Z.to_N n))
                :: [lit "out1"; lit "out0"; lit "out3"])
           = Created (lit "out" ++ decimal (Z.to_N n')) n'
                     ((lit "out" ++ decimal (Z.to_N n'))
                        :: (lit "out" ++ decimal (Z.to_N n))
                        :: [lit "out1"; lit "out0"; lit "out3"])
        /\ lit "out" ++ decimal (Z.to_N n') <> lit "out" ++ decimal (Z.to_N n).
Proof.
  apply (X24_output_directory_is_first_free
           (fun _ => None) (lit "out") [lit "out1"; lit "out0"; lit "out3"]).
  - reflexivity.
  - vm_compute. reflexivity.
Defined.

(** ** Test cases *)

Import TestCases.

Example processTestCase_example :
  processTestCase (mkOptions false false false false true false true 2)
                  (fun _ => true) (Some (lit "boom")) (lit "assert.err")
                  true true [] (mkHandler 1 false [lit "test000001.ktest"] [])
  = Returns (mkHandler 2 true
               [lit "test000001.ktest"; lit "test000002.ktest";
                lit "test000002.assert.err"; lit "test000002.kquery";
                lit "test000002.smt2"; lit "test000002.info"] []).
Proof. vm_compute. reflexivity. Qed.

(** A [.cov] file that cannot be opened stops the call only when a
    line is covered: with none the null stream is not written
    through, and the call goes on to the [.info] file. *)
Example processTestCase_cov_not_opened :
  let opts := mkOptions false false false false false true true 0 in
  let can_open := fun name => negb (str_eqb name (lit "test000001.cov")) in
  let h := mkHandler 0 false [] [] in
  processTestCase opts can_open None [] true true [(lit "a.c", [])] h
  = Returns (mkHandler 1 false
               [lit "test000001.ktest"; lit "test000001.info"]
               ["error opening file"%string])
  /\ processTestCase opts can_open None [] true true [(lit "a.c", [7])] h
     = Null_stream (mkHandler 1 false [lit "test000001.ktest"]
                              ["error opening file"%string]).
Proof. split; vm_compute; reflexivity. Qed.

Lemma bind_spec {A B : Type} (pre : handler -> Prop) (m : step A)
      (mid : A -> handler -> Prop) (k : A -> step B)
      (post : B -> handler -> Prop) (stop : handler -> Prop) :
  step_spec pre m mid stop ->
  (forall a, step_spec (mid a) (k a) post stop) ->
  step_spec pre (bind m k) post stop.
Proof.
  intros Hm Hk h Hpre. unfold bind. specialize (Hm h Hpre).
  destruct (m h) as [[a h']|h']; [exact (Hk a h' Hm)|exact Hm].
Qed.

Lemma when_spec (b : bool) (m : step unit) (inv stop : handler -> Prop) :
  step_spec inv m (fun _ => inv) stop ->
  step_spec inv (when b m) (fun _ => inv) stop.
Proof.
  intros Hm. destruct b; [exact Hm|]. intros h Hh. exact Hh.
Qed.

Lemma during_made (h0 : handler) (id : Z) (halt : bool) (suffix : str) :
  step_spec (during h0 id halt) (made (getTestFilename suffix (Z.to_N id)))
            (fun _ => during h0 id halt) (fun _ => False).
Proof.
  intros h (Hi & Hh & added & Hf & Hall). cbn. unfold during. cbn.
  split; [exact Hi|]. split; [exact Hh|].
  exists (added ++ [getTestFilename suffix (Z.to_N id)]). split.
  - rewrite Hf, <- app_assoc. reflexivity.
  - apply Forall_app. split; [exact Hall|].
    constructor; [|constructor]. now exists suffix.
Qed.

Lemma during_warning (h0 : handler) (id : Z) (halt : bool) (msg : string) :
  step_spec (during h0 id halt) (klee_warning msg)
            (fun _ => during h0 id halt) (fun _ => False).
Proof. intros h Hd. exact Hd. Qed.

Lemma during_write (can_open : str -> bool) (h0 : handler) (id : Z)
      (halt : bool) (suffix : str) :
  step_spec (during h0 id halt)
            (bind (openTestFile can_open suffix id) write_through)
            (fun _ => during h0 id halt)
            (fun h' => during h0 id halt h'
                       /\ exists suffix,
                           can_open (getTestFilename suffix (Z.to_N id))
                           = false).
Proof.
  intros h Hd. unfold bind, openTestFile, openOutputFile.
  destruct (can_open (getTestFilename suffix (Z.to_N id))) eqn:Eo.
  - cbn. exact (during_made h0 id halt suffix h Hd).
  - cbn. split; [exact Hd|]. now exists suffix.
Qed.

Lemma for_each_write {A : Type} (f : bool) (l : list A) (h : handler) :
  for_each l (fun _ => write_through f) h
  = if f || match l with [] => true | _ => false end
    then inl (tt, h) else inr h.
Proof.
  induction l as [|a l IH]; [now rewrite orb_true_r|].
  cbn [for_each]. unfold bind, write_through at 1.
  destruct f; [|reflexivity]. rewrite IH. reflexivity.
Qed.

Lemma for_each_lines (f : bool) (cov : list (str * list Z)) (h : handler) :
  match for_each cov (fun it => for_each (snd it)
                                         (fun _ => write_through f)) h with
  | inl (_, h') => h' = h
  | inr h' => h' = h /\ f = false
  end.
Proof.
  induction cov as [|it cov IH]; [reflexivity|].
  cbn [for_each]. unfold bind at 1. rewrite for_each_write.
  destruct f; cbn [orb].
  - exact IH.
  - destruct (snd it); [exact IH|]. split; reflexivity.
Qed.

Lemma during_cov (can_open : str -> bool) (h0 : handler) (id : Z)
      (halt : bool) (cov : list (str * list Z)) :
  step_spec (during h0 id halt)
            (bind (openTestFile can_open (lit "cov") id)
                  (fun f => for_each cov (fun it =>
                     for_each (snd it) (fun _ => write_through f))))
            (fun _ => during h0 id halt)
            (fun h' => during h0 id halt h'
                       /\ exists suffix,
                           can_open (getTestFilename suffix (Z.to_N id))
                           = false).
Proof.
  intros h Hd. unfold bind at 1, openTestFile, openOutputFile.
  destruct (can_open (getTestFilename (lit "cov") (Z.to_N id))) eqn:Eo.
  - pose proof (during_made h0 id halt (lit "cov") h Hd) as Hm.
    cbn in Hm |- *.
    match goal with
    | |- context [for_each cov ?b ?h1] =>
        pose proof (for_each_lines true cov h1) as Hl;
        destruct (for_each cov b h1) as [[[] h2]|h2]
    end.
    + subst h2. exact Hm.
    + destruct Hl as [_ Hl]. discriminate Hl.
  - cbn.
    match goal with
    | |- context [for_each cov ?b ?h1] =>
        pose proof (for_each_lines false cov h1) as Hl;
        destruct (for_each cov b h1) as [[[] h2]|h2]
    end.
    + subst h2. exact Hd.
    + destruct Hl as [-> _]. split; [exact Hd|]. now exists (lit "cov").
Qed.

Lemma step_weaken {A : Type} (pre : handler -> Prop) (m : step A)
      (post : A -> handler -> Prop) (stop : handler -> Prop) :
  step_spec pre m post (fun _ => False) -> step_spec pre m post stop.
Proof.
  intros Hm h Hpre. specialize (Hm h Hpre).
  destruct (m h) as [[a h']|h']; [exact Hm|contradiction].
Qed.

Lemma processTestCase_spec (opts : test_options) (can_open : str -> bool)
      (errorMessage : option str) (errorSuffix : str)
      (success ktest_written : bool) (cov : list (str * list Z))
      (h : handler) :
  let id := (m_testIndex h + 1) mod 2 ^ 32 in
  match processTestCase opts can_open errorMessage errorSuffix
                        success ktest_written cov h with
  | Exits_on_error => errorMessage <> None /\ ExitOnError opts = true
  | Null_stream h' =>
      NoOutput opts = false
      /\ (exists halt, during h id halt h')
      /\ exists suffix,
          can_open (getTestFilename suffix (Z.to_N id)) = false
  | Returns h' =>
      if NoOutput opts then h' = h
      else during h id (halt_requested h || (id =? StopAfterNTests opts)) h'
  end.
Proof.
  intros id. unfold processTestCase.
  destruct (isSome errorMessage && ExitOnError opts) eqn:Ee.
  { apply andb_true_iff in Ee. destruct Ee as [Hm He].
    split; [|exact He]. destruct errorMessage; [discriminate|discriminate Hm]. }
  destruct (NoOutput opts) eqn:En; cbn [negb]; [reflexivity|].
  set (stop := fun h' : handler =>
                 (exists halt, during h id halt h')
                 /\ exists suffix,
                     can_open (getTestFilename suffix (Z.to_N id)) = false).
  set (body := bind _ _).
  assert (Hbody : step_spec
                    (fun h1 => h1 = h) body
                    (fun _ => during h id
                                (halt_requested h
                                 || (id =? StopAfterNTests opts)))
                    stop).
  { unfold body.
    apply bind_spec
      with (mid := fun _ h1 => m_testIndex h1 = m_testIndex h
                               /\ halt_requested h1 = halt_requested h
                               /\ files h1 = files h).
    { intros h1 ->. destruct success; cbn; auto. }
    intros ?. apply bind_spec
      with (mid := fun i h1 => i = id /\ during h id (halt_requested h) h1).
    { intros h1 (Hi & Hh & Hf). cbn. unfold during. cbn. rewrite Hi.
      fold id. split; [reflexivity|]. split; [reflexivity|].
      split; [exact Hh|].
      exists []. rewrite app_nil_r. split; [exact Hf|constructor]. }
    intros i. apply bind_spec
      with (mid := fun _ h1 => i = id /\ during h id (halt_requested h) h1).
    { intros h1 [-> Hd]. destruct success; cbn [when]; [|cbn; auto].
      destruct ktest_written.
      - pose proof (during_made h id (halt_requested h) (lit "ktest") h1 Hd).
        cbn in *. auto.
      - cbn. auto. }
    assert (Hwrite : forall b suffix,
               step_spec (fun h1 => i = id /\ during h id (halt_requested h) h1)
                         (when b (bind (openTestFile can_open suffix i)
                                       write_through))
                         (fun _ h1 => i = id
                                      /\ during h id (halt_requested h) h1)
                         stop).
    { intros b suffix h1 [Ei Hd]. rewrite Ei. destruct b; cbn [when]; [|cbn; auto].
      pose proof (during_write can_open h id (halt_requested h) suffix h1 Hd)
        as Hw.
      destruct (bind _ _ h1) as [[[] h2]|h2]; [split; auto|].
      split; [eexists; apply Hw|apply Hw]. }
    intros ?. eapply bind_spec; [apply Hwrite|].
    intros ?. eapply bind_spec; [apply Hwrite|].
    intros ?. eapply bind_spec; [apply Hwrite|].
    intros ?. eapply bind_spec; [apply Hwrite|].
    intros ?. apply bind_spec
      with (mid := fun _ h1 => i = id /\ during h id (halt_requested h) h1).
    { intros h1 [Ei Hd]. rewrite Ei.
      destruct (WriteCov opts); cbn [when]; [|cbn; auto].
      pose proof (during_cov can_open h id (halt_requested h) cov h1 Hd)
        as Hw.
      destruct (bind _ _ h1) as [[[] h2]|h2]; [split; auto|].
      split; [eexists; apply Hw|apply Hw]. }
    intros ?. apply bind_spec
      with (mid := fun index h1 => index = id /\ i = id
                                   /\ during h id (halt_requested h) h1).
    { intros h1 [-> Hd]. cbn. destruct Hd as (Hi & Hrest).
      split; [exact Hi|]. split; [reflexivity|]. split; [exact Hi|exact Hrest]. }
    intros index. apply bind_spec
      with (mid := fun _ h1 =>
                     i = id
                     /\ during h id (halt_requested h
                                     || (id =? StopAfterNTests opts)) h1).
    { intros h1 (-> & -> & Hi & Hh & Hf).
      destruct (id =? StopAfterNTests opts); cbn.
      - split; [reflexivity|]. splits; auto. now rewrite orb_true_r.
      - split; [reflexivity|]. splits; auto. now rewrite orb_false_r. }
    intros ? h1 [-> Hd]. destruct (WriteTestInfo opts); cbn [when];
      [|cbn; exact Hd].
    pose proof (during_write can_open h id _ (lit "info") h1 Hd) as Hw.
    destruct (bind _ _ h1) as [[[] h2]|h2]; [exact Hw|].
    split; [eexists; apply Hw|apply Hw]. }
  specialize (Hbody h eq_refl).
  destruct (body h) as [[[] h']|h']; [exact Hbody|].
  split; [reflexivity|exact Hbody].
Qed.

(** X25 ([KleeHandler::processTestCase], lines 577-705): the call
    exits only for an error message under [ExitOnError]; with
    [NoOutput] it changes nothing; otherwise it takes the next test
    number, counted modulo 2^32 and also when the test itself is lost,
    every file it makes is a test file of that number, and the
    interpreter is asked to halt exactly when the number is
    [StopAfterNTests].  It writes through a null stream only when a
    test file of that number could not be opened, the files made until
    then being of that number too; a [.cov] file that could not be
    opened is written through only for a covered line. *)
Theorem X25_processTestCase_files
        (opts : test_options) (can_open : str -> bool)
        (errorMessage : option str) (errorSuffix : str)
        (success ktest_written : bool) (cov : list (str * list Z))
        (h : handler) :
  let id := (m_testIndex h + 1) mod 2 ^ 32 in
  match processTestCase opts can_open errorMessage errorSuffix
                        success ktest_written cov h with
  | Exits_on_error => errorMessage <> None /\ ExitOnError opts = true
  | Null_stream h' =>
      NoOutput opts = false
      /\ (exists halt, during h id halt h')
      /\ exists suffix,
          can_open (getTestFilename suffix (Z.to_N id)) = false
  | Returns h' =>
      if NoOutput opts then h' = h
      else during h id (halt_requested h || (id =? StopAfterNTests opts)) h'
  end.
Proof. apply processTestCase_spec. Qed.

Lemma new_files_app (h h' : handler) (added : list str) :
  files h' = files h ++ added -> new_files h h' = added.
Proof.
  intros E. unfold new_files. rewrite E, skipn_app, skipn_all, Nat.sub_diag.
  reflexivity.
Qed.

Lemma new_files_same (h : handler) : new_files h h = [].
Proof. unfold new_files. apply skipn_all. Qed.

(** X26 ([KleeHandler::processTestCase], lines 594-703): a call that
    follows one that returned never makes a file the first one made,
    whether it returns or stops at a null stream, whatever the
    options, the suffixes, the files that can be opened and the
    answers of the interpreter are. *)
Theorem X26_successive_tests_share_no_file
        (opts opts' : test_options) (can_open can_open' : str -> bool)
        (errorMessage errorMessage' : option str)
        (errorSuffix errorSuffix' : str)
        (success ktest_written success' ktest_written' : bool)
        (cov cov' : list (str * list Z))
        (h1 h2 h3 : handler) :
  processTestCase opts can_open errorMessage errorSuffix
                  success ktest_written cov h1 = Returns h2 ->
  processTestCase opts' can_open' errorMessage' errorSuffix'
                  success' ktest_written' cov' h2 = Returns h3
  \/ processTestCase opts' can_open' errorMessage' errorSuffix'
                     success' ktest_written' cov' h2 = Null_stream h3 ->
  Forall (fun name => ~ In name (new_files h2 h3)) (new_files h1 h2).
Proof.
  intros E1 E2.
  pose proof (processTestCase_spec opts can_open errorMessage errorSuffix
                                   success ktest_written cov h1) as S1.
  pose proof (processTestCase_spec opts' can_open' errorMessage' errorSuffix'
                                   success' ktest_written' cov' h2) as S2.
  cbv zeta in S1, S2. rewrite E1 in S1.
  destruct (NoOutput opts).
  { subst h2. rewrite new_files_same. constructor. }
  assert (S2' : h3 = h2
                \/ exists halt,
                     during h2 ((m_testIndex h2 + 1) mod 2 ^ 32) halt h3).
  { destruct E2 as [E2|E2]; rewrite E2 in S2.
    - destruct (NoOutput opts'); [left; exact S2|right; eexists; exact S2].
    - right. apply S2. }
  clear S2 E2. destruct S2' as [->|[halt S2]].
  { rewrite new_files_same. apply Forall_forall. intros ? _ []. }
  destruct S1 as (I1 & _ & added1 & F1 & A1).
  destruct S2 as (I2 & _ & added2 & F2 & A2).
  rewrite (new_files_app _ _ _ F1), (new_files_app _ _ _ F2).
  apply Forall_forall. intros name Hin1 Hin2.
  rewrite Forall_forall in A1, A2.
  destruct (A1 _ Hin1) as (s1 & N1). destruct (A2 _ Hin2) as (s2 & N2).
  rewrite N1 in N2. apply getTestFilename_inj in N2. destruct N2 as [N2 _].
  rewrite I1 in N2.
  pose proof (Z.mod_pos_bound (m_testIndex h1 + 1) (2 ^ 32) ltac:(lia)) as B1.
  pose proof (Z.mod_pos_bound ((m_testIndex h1 + 1) mod 2 ^ 32 + 1) (2 ^ 32)
                              ltac:(lia)) as B2.
  apply Z2N.inj in N2; [|lia..].
  set (a := (m_testIndex h1 + 1) mod 2 ^ 32) in *.
  destruct (Z.eq_dec a (2 ^ 32 - 1)) as [Ea|Ea].
  - rewrite Ea in N2 at 2. replace (2 ^ 32 - 1 + 1) with (2 ^ 32) in N2 by lia.
    rewrite Z.mod_same in N2 by lia. lia.
  - rewrite Z.mod_small in N2 by lia. lia.
Qed.

(** X26 on a test with an error, whose [.cov] file cannot be opened
    and has no covered line, followed by a plain one. *)
Lemma X26_successive_tests_share_no_file_witness :
  Forall (fun name =>
            ~ In name
                (new_files
                   (mkHandler 1 false
                      [lit "test000001.ktest"; lit "test000001.ptr.err";
                       lit "test000001.kquery"]
                      ["error opening file"%string])
                   (mkHandler 2 false
                      [lit "test000001.ktest"; lit "test000001.ptr.err";
                       lit "test000001.kquery"; lit "test000002.ktest"]
                      ["error opening file"%string])))
         (new_files
            (mkHandler 0 false [] [])
            (mkHandler 1 false
               [lit "test000001.ktest"; lit "test000001.ptr.err";
                lit "test000001.kquery"]
               ["error opening file"%string])).
Proof.
  apply (X26_successive_tests_share_no_file
           (mkOptions false false false false false true false 0)
           (mkOptions false false false false false false false 0)
           (fun name => negb (str_eqb name (lit "test000001.cov")))
           (fun _ => true)
           (Some (lit "memory error")) None (lit "ptr.err") []
           true true true true [] [(lit "a.c", [3])]).
  - vm_compute. reflexivity.
  - left. vm_compute. reflexivity.
Defined.
